(** * aezeed: a shallow embedding of [btcrecover/aezeed.py]

    The development follows the Python module top to bottom: CRC32C, the
    16-byte block primitives, the AES round core, the AEZ state with
    AEZ-hash, AEZ-PRF, aez-tiny and aez-core, the decrypt driver and the
    mnemonic codec.  Python integers are [Z]; [bytes], [bytearray] and
    [memoryview] values are lists of [Z] whose elements lie in [0, 256);
    exceptions are the [Raise] results of a small error monad. *)

From Stdlib Require Import ZArith List Lia Bool String.
From stdpp Require Import base gmap strings list.
Import ListNotations.

Local Open Scope Z_scope.

(** ** Exceptions and the error monad *)

(** The built-in exceptions the module can meet; [OutOfFuel] is not a
    Python exception but a [while] loop of the model that was cut short. *)
Inductive builtin_error : Type :=
| IndexError
| OverflowError
| AssertionError
| OutOfFuel.

(** The exceptions of [decode_mnemonic]: a built-in one, one of
    [hashlib.scrypt], or one of the two [AezeedError] classes. *)
Inductive error : Type :=
| Builtin (e : builtin_error)
| HashlibError
| InvalidMnemonicError (msg : string)
| InvalidPassphraseError (msg : string).

Inductive result (E A : Type) : Type :=
| Ok (a : A)
| Raise (e : E).

Arguments Ok {E A} a.
Arguments Raise {E A} e.

Definition bind {E A B : Type} (m : result E A) (k : A -> result E B)
  : result E B :=
  match m with
  | Ok a => k a
  | Raise e => Raise e
  end.

Notation "x <- m ;; k" := (bind m (fun x => k))
  (at level 100, m at next level, right associativity).

(** Code that raises built-in exceptions only, and its use where the
    module's own exceptions are raised too. *)
Abbreviation res := (result builtin_error).

Definition lift {A : Type} (m : res A) : result error A :=
  match m with
  | Ok a => Ok a
  | Raise e => Raise (Builtin e)
  end.

Definition is_ok {E A : Type} (m : result E A) : bool :=
  match m with Ok _ => true | Raise _ => false end.

(** ** Python sequences *)

Abbreviation bytes := (list Z).

Definition len {A : Type} (l : list A) : Z := Z.of_nat (length l).

Definition is_byte (b : Z) : bool := (0 <=? b) && (b <? 256).
Definition bytes_ok (l : bytes) : bool := forallb is_byte l.

(** Index normalisation of a slice bound: negative bounds count from the
    end, and every bound is clipped to [0, n]. *)
Definition clamp (n i : Z) : Z :=
  if i <? 0 then Z.max 0 (n + i) else Z.min i n.

(** [l[i:j]] *)
Definition slice {A : Type} (l : list A) (i j : Z) : list A :=
  let a := clamp (len l) i in
  let b := clamp (len l) j in
  firstn (Z.to_nat (b - a)) (skipn (Z.to_nat a) l).

(** [l[i:]] and [l[:j]] *)
Definition slice_from {A : Type} (l : list A) (i : Z) : list A :=
  slice l i (len l).
Definition slice_to {A : Type} (l : list A) (j : Z) : list A :=
  slice l 0 j.

(** [l[i:j] = v] on a bytearray: the slice is replaced, whatever the
    length of [v]. *)
Definition slice_set {A : Type} (l : list A) (i j : Z) (v : list A) : list A :=
  let a := clamp (len l) i in
  let b := Z.max a (clamp (len l) j) in
  firstn (Z.to_nat a) l ++ v ++ skipn (Z.to_nat b) l.

(** Position of index [i] in a sequence of length [n], as Python resolves
    it for [l[i]]. *)
Definition resolve (n i : Z) : res nat :=
  let k := if i <? 0 then n + i else i in
  if (0 <=? k) && (k <? n) then Ok (Z.to_nat k) else Raise IndexError.

(** [l[i]] *)
Definition getitem (l : bytes) (i : Z) : res Z :=
  k <- resolve (len l) i ;;
  match l !! k with
  | Some x => Ok x
  | None => Raise IndexError
  end.

(** [l[i] = v] *)
Definition setitem (l : bytes) (i : Z) (v : Z) : res bytes :=
  k <- resolve (len l) i ;;
  Ok (<[k := v]> l).

(** A constant table read at an index that was masked to the table's size. *)
Definition table_get (t : list Z) (i : Z) : Z := nth (Z.to_nat i) t 0.

(** ** Module constants *)

Definition DEFAULT_PASSPHRASE : string := "aezeed".
Definition EncipheredCipherSeedSize : Z := 33.
Definition DecipheredCipherSeedSize : Z := 19.
Definition SaltSize : Z := 5.
Definition CipherTextExpansion : Z := 4.
Definition BitsPerWord : Z := 11.
Definition CipherSeedVersion : Z := 0.

(** ** CRC32C *)

Definition _CRC32C_POLY : Z := 0x82F63B78.

Definition crc_bit (crc : Z) : Z :=
  if Z.land crc 1 =? 0 then Z.shiftr crc 1
  else Z.lxor (Z.shiftr crc 1) _CRC32C_POLY.

Definition _crc32c_table : list Z :=
  map (fun i => Z.land (Nat.iter 8 crc_bit (Z.of_nat i)) 0xFFFFFFFF) (seq 0 256).

Definition _CRC32C_TABLE : list Z := Eval vm_compute in _crc32c_table.

Definition crc_byte (crc b : Z) : Z :=
  Z.lxor (table_get _CRC32C_TABLE (Z.land (Z.lxor crc b) 0xFF)) (Z.shiftr crc 8).

Definition _crc32c (data : bytes) : Z :=
  let crc := fold_left crc_byte data 0xFFFFFFFF in
  Z.land (Z.lnot crc) 0xFFFFFFFF.

(** ** Block primitives *)

Definition BLOCK_SIZE : Z := 16.
Definition EXTRACTED_KEY_SIZE : Z := 3 * BLOCK_SIZE.

Definition _mk_block (size : Z) : bytes := repeat 0 (Z.to_nat size).

Definition ZERO_BLOCK : bytes := _mk_block BLOCK_SIZE.

(** [for i in range(n)], started at [i]; the loop state is threaded through
    the body. *)
Fixpoint for_range {S : Type} (n : nat) (i : Z) (body : Z -> S -> res S)
    (s : S) : res S :=
  match n with
  | O => Ok s
  | S n' => s' <- body i s ;; for_range n' (i + 1) body s'
  end.

(** The three XOR helpers write [dst[i]] from [a[i]] and [b[i]] at the same
    index, so a destination that is also an operand reads its own old
    value: passing the operands by value is exact. *)
Definition _xor_bytes1x16 (a b dst : bytes) : res bytes :=
  for_range (Z.to_nat BLOCK_SIZE) 0
    (fun i dst =>
       x <- getitem a i ;;
       y <- getitem b i ;;
       setitem dst i (Z.lxor x y))
    dst.

Definition _xor_bytes4x16 (a b c d dst : bytes) : res bytes :=
  for_range (Z.to_nat BLOCK_SIZE) 0
    (fun i dst =>
       x <- getitem a i ;;
       y <- getitem b i ;;
       z <- getitem c i ;;
       w <- getitem d i ;;
       setitem dst i (Z.lxor (Z.lxor (Z.lxor x y) z) w))
    dst.

Definition _xor_bytes (a b dst : bytes) : res bytes :=
  for_range (length dst) 0
    (fun i dst =>
       x <- getitem a i ;;
       y <- getitem b i ;;
       setitem dst i (Z.lxor x y))
    dst.

Definition _uint32 (i : Z) : Z := Z.land i 0xFFFFFFFF.
Definition _uint8 (i : Z) : Z := Z.land i 0xFF.

(** [_double_block(p)], in place: the new contents of [p]. *)
Definition _double_block (p : bytes) : res bytes :=
  tmp <- getitem p 0 ;;
  p <- for_range 15 0
         (fun i p =>
            x <- getitem p i ;;
            y <- getitem p (i + 1) ;;
            setitem p i (Z.land (Z.lor (Z.shiftl x 1) (Z.shiftr y 7)) 0xFF))
         p ;;
  x <- getitem p 15 ;;
  setitem p 15
    (Z.lxor (Z.land (Z.shiftl x 1) 0xFE)
            (if Z.land tmp 0x80 =? 0 then 0 else 0x87)).

(** The [while x:] loop of [_mult_block]; [x] loses a bit at every turn. *)
Fixpoint mult_loop (fuel : nat) (x : Z) (t r : bytes) {struct fuel}
  : res bytes :=
  if x =? 0 then Ok r
  else match fuel with
       | O => Raise OutOfFuel
       | S fuel' =>
           r <- (if Z.land x 1 =? 0 then Ok r else _xor_bytes1x16 r t r) ;;
           t <- _double_block t ;;
           mult_loop fuel' (Z.shiftr x 1) t r
       end.

Definition _mult_block (x : Z) (src dst : bytes) : res bytes :=
  let t := _mk_block BLOCK_SIZE in
  let r := _mk_block BLOCK_SIZE in
  let t := slice_set t 0 (len t) src in
  r <- mult_loop (Z.to_nat x) x t r ;;
  Ok (slice_set dst 0 (len dst) r).

Definition _one_zero_pad (src : bytes) (size : Z) (dst : bytes) : res bytes :=
  let dst := slice_set dst 0 (len dst) (repeat 0 (length dst)) in
  let dst := if size =? 0 then dst
             else slice_set dst 0 size (slice_to src size) in
  setitem dst size 0x80.

(** ** AES round core *)

Definition TE0 : list Z := [
    0xc66363a5; 0xf87c7c84; 0xee777799; 0xf67b7b8d; 0xfff2f20d; 0xd66b6bbd; 0xde6f6fb1; 0x91c5c554;
    0x60303050; 0x02010103; 0xce6767a9; 0x562b2b7d; 0xe7fefe19; 0xb5d7d762; 0x4dababe6; 0xec76769a;
    0x8fcaca45; 0x1f82829d; 0x89c9c940; 0xfa7d7d87; 0xeffafa15; 0xb25959eb; 0x8e4747c9; 0xfbf0f00b;
    0x41adadec; 0xb3d4d467; 0x5fa2a2fd; 0x45afafea; 0x239c9cbf; 0x53a4a4f7; 0xe4727296; 0x9bc0c05b;
    0x75b7b7c2; 0xe1fdfd1c; 0x3d9393ae; 0x4c26266a; 0x6c36365a; 0x7e3f3f41; 0xf5f7f702; 0x83cccc4f;
    0x6834345c; 0x51a5a5f4; 0xd1e5e534; 0xf9f1f108; 0xe2717193; 0xabd8d873; 0x62313153; 0x2a15153f;
    0x0804040c; 0x95c7c752; 0x46232365; 0x9dc3c35e; 0x30181828; 0x379696a1; 0x0a05050f; 0x2f9a9ab5;
    0x0e070709; 0x24121236; 0x1b80809b; 0xdfe2e23d; 0xcdebeb26; 0x4e272769; 0x7fb2b2cd; 0xea75759f;
    0x1209091b; 0x1d83839e; 0x582c2c74; 0x341a1a2e; 0x361b1b2d; 0xdc6e6eb2; 0xb45a5aee; 0x5ba0a0fb;
    0xa45252f6; 0x763b3b4d; 0xb7d6d661; 0x7db3b3ce; 0x5229297b; 0xdde3e33e; 0x5e2f2f71; 0x13848497;
    0xa65353f5; 0xb9d1d168; 0x00000000; 0xc1eded2c; 0x40202060; 0xe3fcfc1f; 0x79b1b1c8; 0xb65b5bed;
    0xd46a6abe; 0x8dcbcb46; 0x67bebed9; 0x7239394b; 0x944a4ade; 0x984c4cd4; 0xb05858e8; 0x85cfcf4a;
    0xbbd0d06b; 0xc5efef2a; 0x4faaaae5; 0xedfbfb16; 0x864343c5; 0x9a4d4dd7; 0x66333355; 0x11858594;
    0x8a4545cf; 0xe9f9f910; 0x04020206; 0xfe7f7f81; 0xa05050f0; 0x783c3c44; 0x259f9fba; 0x4ba8a8e3;
    0xa25151f3; 0x5da3a3fe; 0x804040c0; 0x058f8f8a; 0x3f9292ad; 0x219d9dbc; 0x70383848; 0xf1f5f504;
    0x63bcbcdf; 0x77b6b6c1; 0xafdada75; 0x42212163; 0x20101030; 0xe5ffff1a; 0xfdf3f30e; 0xbfd2d26d;
    0x81cdcd4c; 0x180c0c14; 0x26131335; 0xc3ecec2f; 0xbe5f5fe1; 0x359797a2; 0x884444cc; 0x2e171739;
    0x93c4c457; 0x55a7a7f2; 0xfc7e7e82; 0x7a3d3d47; 0xc86464ac; 0xba5d5de7; 0x3219192b; 0xe6737395;
    0xc06060a0; 0x19818198; 0x9e4f4fd1; 0xa3dcdc7f; 0x44222266; 0x542a2a7e; 0x3b9090ab; 0x0b888883;
    0x8c4646ca; 0xc7eeee29; 0x6bb8b8d3; 0x2814143c; 0xa7dede79; 0xbc5e5ee2; 0x160b0b1d; 0xaddbdb76;
    0xdbe0e03b; 0x64323256; 0x743a3a4e; 0x140a0a1e; 0x924949db; 0x0c06060a; 0x4824246c; 0xb85c5ce4;
    0x9fc2c25d; 0xbdd3d36e; 0x43acacef; 0xc46262a6; 0x399191a8; 0x319595a4; 0xd3e4e437; 0xf279798b;
    0xd5e7e732; 0x8bc8c843; 0x6e373759; 0xda6d6db7; 0x018d8d8c; 0xb1d5d564; 0x9c4e4ed2; 0x49a9a9e0;
    0xd86c6cb4; 0xac5656fa; 0xf3f4f407; 0xcfeaea25; 0xca6565af; 0xf47a7a8e; 0x47aeaee9; 0x10080818;
    0x6fbabad5; 0xf0787888; 0x4a25256f; 0x5c2e2e72; 0x381c1c24; 0x57a6a6f1; 0x73b4b4c7; 0x97c6c651;
    0xcbe8e823; 0xa1dddd7c; 0xe874749c; 0x3e1f1f21; 0x964b4bdd; 0x61bdbddc; 0x0d8b8b86; 0x0f8a8a85;
    0xe0707090; 0x7c3e3e42; 0x71b5b5c4; 0xcc6666aa; 0x904848d8; 0x06030305; 0xf7f6f601; 0x1c0e0e12;
    0xc26161a3; 0x6a35355f; 0xae5757f9; 0x69b9b9d0; 0x17868691; 0x99c1c158; 0x3a1d1d27; 0x279e9eb9;
    0xd9e1e138; 0xebf8f813; 0x2b9898b3; 0x22111133; 0xd26969bb; 0xa9d9d970; 0x078e8e89; 0x339494a7;
    0x2d9b9bb6; 0x3c1e1e22; 0x15878792; 0xc9e9e920; 0x87cece49; 0xaa5555ff; 0x50282878; 0xa5dfdf7a;
    0x038c8c8f; 0x59a1a1f8; 0x09898980; 0x1a0d0d17; 0x65bfbfda; 0xd7e6e631; 0x844242c6; 0xd06868b8;
    0x824141c3; 0x299999b0; 0x5a2d2d77; 0x1e0f0f11; 0x7bb0b0cb; 0xa85454fc; 0x6dbbbbd6; 0x2c16163a
  ]%Z.

Definition TE1 : list Z := [
    0xa5c66363; 0x84f87c7c; 0x99ee7777; 0x8df67b7b; 0x0dfff2f2; 0xbdd66b6b; 0xb1de6f6f; 0x5491c5c5;
    0x50603030; 0x03020101; 0xa9ce6767; 0x7d562b2b; 0x19e7fefe; 0x62b5d7d7; 0xe64dabab; 0x9aec7676;
    0x458fcaca; 0x9d1f8282; 0x4089c9c9; 0x87fa7d7d; 0x15effafa; 0xebb25959; 0xc98e4747; 0x0bfbf0f0;
    0xec41adad; 0x67b3d4d4; 0xfd5fa2a2; 0xea45afaf; 0xbf239c9c; 0xf753a4a4; 0x96e47272; 0x5b9bc0c0;
    0xc275b7b7; 0x1ce1fdfd; 0xae3d9393; 0x6a4c2626; 0x5a6c3636; 0x417e3f3f; 0x02f5f7f7; 0x4f83cccc;
    0x5c683434; 0xf451a5a5; 0x34d1e5e5; 0x08f9f1f1; 0x93e27171; 0x73abd8d8; 0x53623131; 0x3f2a1515;
    0x0c080404; 0x5295c7c7; 0x65462323; 0x5e9dc3c3; 0x28301818; 0xa1379696; 0x0f0a0505; 0xb52f9a9a;
    0x090e0707; 0x36241212; 0x9b1b8080; 0x3ddfe2e2; 0x26cdebeb; 0x694e2727; 0xcd7fb2b2; 0x9fea7575;
    0x1b120909; 0x9e1d8383; 0x74582c2c; 0x2e341a1a; 0x2d361b1b; 0xb2dc6e6e; 0xeeb45a5a; 0xfb5ba0a0;
    0xf6a45252; 0x4d763b3b; 0x61b7d6d6; 0xce7db3b3; 0x7b522929; 0x3edde3e3; 0x715e2f2f; 0x97138484;
    0xf5a65353; 0x68b9d1d1; 0x00000000; 0x2cc1eded; 0x60402020; 0x1fe3fcfc; 0xc879b1b1; 0xedb65b5b;
    0xbed46a6a; 0x468dcbcb; 0xd967bebe; 0x4b723939; 0xde944a4a; 0xd4984c4c; 0xe8b05858; 0x4a85cfcf;
    0x6bbbd0d0; 0x2ac5efef; 0xe54faaaa; 0x16edfbfb; 0xc5864343; 0xd79a4d4d; 0x55663333; 0x94118585;
    0xcf8a4545; 0x10e9f9f9; 0x06040202; 0x81fe7f7f; 0xf0a05050; 0x44783c3c; 0xba259f9f; 0xe34ba8a8;
    0xf3a25151; 0xfe5da3a3; 0xc0804040; 0x8a058f8f; 0xad3f9292; 0xbc219d9d; 0x48703838; 0x04f1f5f5;
    0xdf63bcbc; 0xc177b6b6; 0x75afdada; 0x63422121; 0x30201010; 0x1ae5ffff; 0x0efdf3f3; 0x6dbfd2d2;
    0x4c81cdcd; 0x14180c0c; 0x35261313; 0x2fc3ecec; 0xe1be5f5f; 0xa2359797; 0xcc884444; 0x392e1717;
    0x5793c4c4; 0xf255a7a7; 0x82fc7e7e; 0x477a3d3d; 0xacc86464; 0xe7ba5d5d; 0x2b321919; 0x95e67373;
    0xa0c06060; 0x98198181; 0xd19e4f4f; 0x7fa3dcdc; 0x66442222; 0x7e542a2a; 0xab3b9090; 0x830b8888;
    0xca8c4646; 0x29c7eeee; 0xd36bb8b8; 0x3c281414; 0x79a7dede; 0xe2bc5e5e; 0x1d160b0b; 0x76addbdb;
    0x3bdbe0e0; 0x56643232; 0x4e743a3a; 0x1e140a0a; 0xdb924949; 0x0a0c0606; 0x6c482424; 0xe4b85c5c;
    0x5d9fc2c2; 0x6ebdd3d3; 0xef43acac; 0xa6c46262; 0xa8399191; 0xa4319595; 0x37d3e4e4; 0x8bf27979;
    0x32d5e7e7; 0x438bc8c8; 0x596e3737; 0xb7da6d6d; 0x8c018d8d; 0x64b1d5d5; 0xd29c4e4e; 0xe049a9a9;
    0xb4d86c6c; 0xfaac5656; 0x07f3f4f4; 0x25cfeaea; 0xafca6565; 0x8ef47a7a; 0xe947aeae; 0x18100808;
    0xd56fbaba; 0x88f07878; 0x6f4a2525; 0x725c2e2e; 0x24381c1c; 0xf157a6a6; 0xc773b4b4; 0x5197c6c6;
    0x23cbe8e8; 0x7ca1dddd; 0x9ce87474; 0x213e1f1f; 0xdd964b4b; 0xdc61bdbd; 0x860d8b8b; 0x850f8a8a;
    0x90e07070; 0x427c3e3e; 0xc471b5b5; 0xaacc6666; 0xd8904848; 0x05060303; 0x01f7f6f6; 0x121c0e0e;
    0xa3c26161; 0x5f6a3535; 0xf9ae5757; 0xd069b9b9; 0x91178686; 0x5899c1c1; 0x273a1d1d; 0xb9279e9e;
    0x38d9e1e1; 0x13ebf8f8; 0xb32b9898; 0x33221111; 0xbbd26969; 0x70a9d9d9; 0x89078e8e; 0xa7339494;
    0xb62d9b9b; 0x223c1e1e; 0x92158787; 0x20c9e9e9; 0x4987cece; 0xffaa5555; 0x78502828; 0x7aa5dfdf;
    0x8f038c8c; 0xf859a1a1; 0x80098989; 0x171a0d0d; 0xda65bfbf; 0x31d7e6e6; 0xc6844242; 0xb8d06868;
    0xc3824141; 0xb0299999; 0x775a2d2d; 0x111e0f0f; 0xcb7bb0b0; 0xfca85454; 0xd66dbbbb; 0x3a2c1616
  ]%Z.

Definition TE2 : list Z := [
    0x63a5c663; 0x7c84f87c; 0x7799ee77; 0x7b8df67b; 0xf20dfff2; 0x6bbdd66b; 0x6fb1de6f; 0xc55491c5;
    0x30506030; 0x01030201; 0x67a9ce67; 0x2b7d562b; 0xfe19e7fe; 0xd762b5d7; 0xabe64dab; 0x769aec76;
    0xca458fca; 0x829d1f82; 0xc94089c9; 0x7d87fa7d; 0xfa15effa; 0x59ebb259; 0x47c98e47; 0xf00bfbf0;
    0xadec41ad; 0xd467b3d4; 0xa2fd5fa2; 0xafea45af; 0x9cbf239c; 0xa4f753a4; 0x7296e472; 0xc05b9bc0;
    0xb7c275b7; 0xfd1ce1fd; 0x93ae3d93; 0x266a4c26; 0x365a6c36; 0x3f417e3f; 0xf702f5f7; 0xcc4f83cc;
    0x345c6834; 0xa5f451a5; 0xe534d1e5; 0xf108f9f1; 0x7193e271; 0xd873abd8; 0x31536231; 0x153f2a15;
    0x040c0804; 0xc75295c7; 0x23654623; 0xc35e9dc3; 0x18283018; 0x96a13796; 0x050f0a05; 0x9ab52f9a;
    0x07090e07; 0x12362412; 0x809b1b80; 0xe23ddfe2; 0xeb26cdeb; 0x27694e27; 0xb2cd7fb2; 0x759fea75;
    0x091b1209; 0x839e1d83; 0x2c74582c; 0x1a2e341a; 0x1b2d361b; 0x6eb2dc6e; 0x5aeeb45a; 0xa0fb5ba0;
    0x52f6a452; 0x3b4d763b; 0xd661b7d6; 0xb3ce7db3; 0x297b5229; 0xe33edde3; 0x2f715e2f; 0x84971384;
    0x53f5a653; 0xd168b9d1; 0x00000000; 0xed2cc1ed; 0x20604020; 0xfc1fe3fc; 0xb1c879b1; 0x5bedb65b;
    0x6abed46a; 0xcb468dcb; 0xbed967be; 0x394b7239; 0x4ade944a; 0x4cd4984c; 0x58e8b058; 0xcf4a85cf;
    0xd06bbbd0; 0xef2ac5ef; 0xaae54faa; 0xfb16edfb; 0x43c58643; 0x4dd79a4d; 0x33556633; 0x85941185;
    0x45cf8a45; 0xf910e9f9; 0x02060402; 0x7f81fe7f; 0x50f0a050; 0x3c44783c; 0x9fba259f; 0xa8e34ba8;
    0x51f3a251; 0xa3fe5da3; 0x40c08040; 0x8f8a058f; 0x92ad3f92; 0x9dbc219d; 0x38487038; 0xf504f1f5;
    0xbcdf63bc; 0xb6c177b6; 0xda75afda; 0x21634221; 0x10302010; 0xff1ae5ff; 0xf30efdf3; 0xd26dbfd2;
    0xcd4c81cd; 0x0c14180c; 0x13352613; 0xec2fc3ec; 0x5fe1be5f; 0x97a23597; 0x44cc8844; 0x17392e17;
    0xc45793c4; 0xa7f255a7; 0x7e82fc7e; 0x3d477a3d; 0x64acc864; 0x5de7ba5d; 0x192b3219; 0x7395e673;
    0x60a0c060; 0x81981981; 0x4fd19e4f; 0xdc7fa3dc; 0x22664422; 0x2a7e542a; 0x90ab3b90; 0x88830b88;
    0x46ca8c46; 0xee29c7ee; 0xb8d36bb8; 0x143c2814; 0xde79a7de; 0x5ee2bc5e; 0x0b1d160b; 0xdb76addb;
    0xe03bdbe0; 0x32566432; 0x3a4e743a; 0x0a1e140a; 0x49db9249; 0x060a0c06; 0x246c4824; 0x5ce4b85c;
    0xc25d9fc2; 0xd36ebdd3; 0xacef43ac; 0x62a6c462; 0x91a83991; 0x95a43195; 0xe437d3e4; 0x798bf279;
    0xe732d5e7; 0xc8438bc8; 0x37596e37; 0x6db7da6d; 0x8d8c018d; 0xd564b1d5; 0x4ed29c4e; 0xa9e049a9;
    0x6cb4d86c; 0x56faac56; 0xf407f3f4; 0xea25cfea; 0x65afca65; 0x7a8ef47a; 0xaee947ae; 0x08181008;
    0xbad56fba; 0x7888f078; 0x256f4a25; 0x2e725c2e; 0x1c24381c; 0xa6f157a6; 0xb4c773b4; 0xc65197c6;
    0xe823cbe8; 0xdd7ca1dd; 0x749ce874; 0x1f213e1f; 0x4bdd964b; 0xbddc61bd; 0x8b860d8b; 0x8a850f8a;
    0x7090e070; 0x3e427c3e; 0xb5c471b5; 0x66aacc66; 0x48d89048; 0x03050603; 0xf601f7f6; 0x0e121c0e;
    0x61a3c261; 0x355f6a35; 0x57f9ae57; 0xb9d069b9; 0x86911786; 0xc15899c1; 0x1d273a1d; 0x9eb9279e;
    0xe138d9e1; 0xf813ebf8; 0x98b32b98; 0x11332211; 0x69bbd269; 0xd970a9d9; 0x8e89078e; 0x94a73394;
    0x9bb62d9b; 0x1e223c1e; 0x87921587; 0xe920c9e9; 0xce4987ce; 0x55ffaa55; 0x28785028; 0xdf7aa5df;
    0x8c8f038c; 0xa1f859a1; 0x89800989; 0x0d171a0d; 0xbfda65bf; 0xe631d7e6; 0x42c68442; 0x68b8d068;
    0x41c38241; 0x99b02999; 0x2d775a2d; 0x0f111e0f; 0xb0cb7bb0; 0x54fca854; 0xbbd66dbb; 0x163a2c16
  ]%Z.

Definition TE3 : list Z := [
    0x6363a5c6; 0x7c7c84f8; 0x777799ee; 0x7b7b8df6; 0xf2f20dff; 0x6b6bbdd6; 0x6f6fb1de; 0xc5c55491;
    0x30305060; 0x01010302; 0x6767a9ce; 0x2b2b7d56; 0xfefe19e7; 0xd7d762b5; 0xababe64d; 0x76769aec;
    0xcaca458f; 0x82829d1f; 0xc9c94089; 0x7d7d87fa; 0xfafa15ef; 0x5959ebb2; 0x4747c98e; 0xf0f00bfb;
    0xadadec41; 0xd4d467b3; 0xa2a2fd5f; 0xafafea45; 0x9c9cbf23; 0xa4a4f753; 0x727296e4; 0xc0c05b9b;
    0xb7b7c275; 0xfdfd1ce1; 0x9393ae3d; 0x26266a4c; 0x36365a6c; 0x3f3f417e; 0xf7f702f5; 0xcccc4f83;
    0x34345c68; 0xa5a5f451; 0xe5e534d1; 0xf1f108f9; 0x717193e2; 0xd8d873ab; 0x31315362; 0x15153f2a;
    0x04040c08; 0xc7c75295; 0x23236546; 0xc3c35e9d; 0x18182830; 0x9696a137; 0x05050f0a; 0x9a9ab52f;
    0x0707090e; 0x12123624; 0x80809b1b; 0xe2e23ddf; 0xebeb26cd; 0x2727694e; 0xb2b2cd7f; 0x75759fea;
    0x09091b12; 0x83839e1d; 0x2c2c7458; 0x1a1a2e34; 0x1b1b2d36; 0x6e6eb2dc; 0x5a5aeeb4; 0xa0a0fb5b;
    0x5252f6a4; 0x3b3b4d76; 0xd6d661b7; 0xb3b3ce7d; 0x29297b52; 0xe3e33edd; 0x2f2f715e; 0x84849713;
    0x5353f5a6; 0xd1d168b9; 0x00000000; 0xeded2cc1; 0x20206040; 0xfcfc1fe3; 0xb1b1c879; 0x5b5bedb6;
    0x6a6abed4; 0xcbcb468d; 0xbebed967; 0x39394b72; 0x4a4ade94; 0x4c4cd498; 0x5858e8b0; 0xcfcf4a85;
    0xd0d06bbb; 0xefef2ac5; 0xaaaae54f; 0xfbfb16ed; 0x4343c586; 0x4d4dd79a; 0x33335566; 0x85859411;
    0x4545cf8a; 0xf9f910e9; 0x02020604; 0x7f7f81fe; 0x5050f0a0; 0x3c3c4478; 0x9f9fba25; 0xa8a8e34b;
    0x5151f3a2; 0xa3a3fe5d; 0x4040c080; 0x8f8f8a05; 0x9292ad3f; 0x9d9dbc21; 0x38384870; 0xf5f504f1;
    0xbcbcdf63; 0xb6b6c177; 0xdada75af; 0x21216342; 0x10103020; 0xffff1ae5; 0xf3f30efd; 0xd2d26dbf;
    0xcdcd4c81; 0x0c0c1418; 0x13133526; 0xecec2fc3; 0x5f5fe1be; 0x9797a235; 0x4444cc88; 0x1717392e;
    0xc4c45793; 0xa7a7f255; 0x7e7e82fc; 0x3d3d477a; 0x6464acc8; 0x5d5de7ba; 0x19192b32; 0x737395e6;
    0x6060a0c0; 0x81819819; 0x4f4fd19e; 0xdcdc7fa3; 0x22226644; 0x2a2a7e54; 0x9090ab3b; 0x8888830b;
    0x4646ca8c; 0xeeee29c7; 0xb8b8d36b; 0x14143c28; 0xdede79a7; 0x5e5ee2bc; 0x0b0b1d16; 0xdbdb76ad;
    0xe0e03bdb; 0x32325664; 0x3a3a4e74; 0x0a0a1e14; 0x4949db92; 0x06060a0c; 0x24246c48; 0x5c5ce4b8;
    0xc2c25d9f; 0xd3d36ebd; 0xacacef43; 0x6262a6c4; 0x9191a839; 0x9595a431; 0xe4e437d3; 0x79798bf2;
    0xe7e732d5; 0xc8c8438b; 0x3737596e; 0x6d6db7da; 0x8d8d8c01; 0xd5d564b1; 0x4e4ed29c; 0xa9a9e049;
    0x6c6cb4d8; 0x5656faac; 0xf4f407f3; 0xeaea25cf; 0x6565afca; 0x7a7a8ef4; 0xaeaee947; 0x08081810;
    0xbabad56f; 0x787888f0; 0x25256f4a; 0x2e2e725c; 0x1c1c2438; 0xa6a6f157; 0xb4b4c773; 0xc6c65197;
    0xe8e823cb; 0xdddd7ca1; 0x74749ce8; 0x1f1f213e; 0x4b4bdd96; 0xbdbddc61; 0x8b8b860d; 0x8a8a850f;
    0x707090e0; 0x3e3e427c; 0xb5b5c471; 0x6666aacc; 0x4848d890; 0x03030506; 0xf6f601f7; 0x0e0e121c;
    0x6161a3c2; 0x35355f6a; 0x5757f9ae; 0xb9b9d069; 0x86869117; 0xc1c15899; 0x1d1d273a; 0x9e9eb927;
    0xe1e138d9; 0xf8f813eb; 0x9898b32b; 0x11113322; 0x6969bbd2; 0xd9d970a9; 0x8e8e8907; 0x9494a733;
    0x9b9bb62d; 0x1e1e223c; 0x87879215; 0xe9e920c9; 0xcece4987; 0x5555ffaa; 0x28287850; 0xdfdf7aa5;
    0x8c8c8f03; 0xa1a1f859; 0x89898009; 0x0d0d171a; 0xbfbfda65; 0xe6e631d7; 0x4242c684; 0x6868b8d0;
    0x4141c382; 0x9999b029; 0x2d2d775a; 0x0f0f111e; 0xb0b0cb7b; 0x5454fca8; 0xbbbbd66d; 0x16163a2c
  ]%Z.

(** [int.from_bytes(b, "big")] *)
Definition from_bytes_be (b : bytes) : Z :=
  fold_left (fun acc x => acc * 256 + x) b 0.

(** [value.to_bytes(4, "big")] *)
Definition to_bytes4_be (value : Z) : res bytes :=
  if (0 <=? value) && (value <? 2 ^ 32)
  then Ok [Z.land (Z.shiftr value 24) 0xFF; Z.land (Z.shiftr value 16) 0xFF;
           Z.land (Z.shiftr value 8) 0xFF; Z.land value 0xFF]
  else Raise OverflowError.

Definition _read_uint32_be (block : bytes) (offset : Z) : Z :=
  from_bytes_be (slice block offset (offset + 4)).

Definition _write_uint32_be (block : bytes) (offset : Z) (value : Z)
  : res bytes :=
  b <- to_bytes4_be value ;;
  Ok (slice_set block offset (offset + 4) b).

Module _AESRound.

Record t : Type := { aes10_key : list Z; aes4_key : list Z }.

Definition __init__ (key : bytes) : t :=
  let words := map (fun i => _read_uint32_be key (4 * Z.of_nat i)) (seq 0 12) in
  let aes10_key := repeat 0 (4 * 10) in
  let aes4_key := repeat 0 (4 * 4) in
  let aes10_key := slice_set aes10_key 0 12 words in
  let aes10_key := slice_set aes10_key 12 24 words in
  let aes10_key := slice_set aes10_key 24 36 words in
  let aes10_key := slice_set aes10_key 36 40 (slice words 0 4) in
  let aes4_key := slice_set aes4_key 0 4 (slice words 4 8) in
  let aes4_key := slice_set aes4_key 4 8 (slice words 0 4) in
  let aes4_key := slice_set aes4_key 8 12 (slice words 8 12) in
  {| aes10_key := aes10_key; aes4_key := aes4_key |}.

Definition reset (self : t) : t :=
  {| aes10_key := repeat 0 (length (aes10_key self));
     aes4_key := repeat 0 (length (aes4_key self)) |}.

Definition te (a b c d k : Z) : Z :=
  Z.lxor
    (Z.lxor
       (Z.lxor
          (Z.lxor (table_get TE0 (_uint8 (Z.shiftr a 24)))
                  (table_get TE1 (_uint8 (Z.shiftr b 16))))
          (table_get TE2 (_uint8 (Z.shiftr c 8))))
       (table_get TE3 (_uint8 d)))
    k.

(** One turn of [for r in range(rounds)]. *)
Definition round (keys : list Z) (r : Z) (s : Z * Z * Z * Z)
  : res (Z * Z * Z * Z) :=
  let '(s0, s1, s2, s3) := s in
  let rk_off := r * 4 in
  k0 <- getitem keys rk_off ;;
  let t0 := te s0 s1 s2 s3 k0 in
  k1 <- getitem keys (rk_off + 1) ;;
  let t1 := te s1 s2 s3 s0 k1 in
  k2 <- getitem keys (rk_off + 2) ;;
  let t2 := te s2 s3 s0 s1 k2 in
  k3 <- getitem keys (rk_off + 3) ;;
  let t3 := te s3 s0 s1 s2 k3 in
  Ok (_uint32 t0, _uint32 t1, _uint32 t2, _uint32 t3).

Definition rounds (self : t) (block : bytes) (rounds : Z) : res bytes :=
  let keys := if rounds =? 4 then aes4_key self else aes10_key self in
  let s0 := _read_uint32_be block 0 in
  let s1 := _read_uint32_be block 4 in
  let s2 := _read_uint32_be block 8 in
  let s3 := _read_uint32_be block 12 in
  s <- for_range (Z.to_nat rounds) 0 (round keys) (s0, s1, s2, s3) ;;
  let '(s0, s1, s2, s3) := s in
  block <- _write_uint32_be block 0 s0 ;;
  block <- _write_uint32_be block 4 s1 ;;
  block <- _write_uint32_be block 8 s2 ;;
  _write_uint32_be block 12 s3.

Definition AES4 (self : t) (j i_vec l_vec src dst : bytes) : res bytes :=
  dst <- _xor_bytes4x16 j i_vec l_vec src dst ;;
  rounds self dst 4.

Definition AES10 (self : t) (l_vec src dst : bytes) : res bytes :=
  dst <- _xor_bytes1x16 src l_vec dst ;;
  rounds self dst 10.

End _AESRound.

(** ** The hash library

    [hashlib] is not part of the repository: BLAKE2b and scrypt are taken
    as an interface.  [blake2b data n] is
    [hashlib.blake2b(data, digest_size=n).digest()], which is [n] bytes
    long; [scrypt] is [hashlib.scrypt], [None] when it raises. *)
Class Hashlib : Type := {
  blake2b : bytes -> Z -> bytes;
  blake2b_length : forall data n, 0 <= n -> len (blake2b data n) = n;
  scrypt : forall (password salt : bytes) (n r p dklen maxmem : Z), option bytes
}.

Definition _extract_key `{Hashlib} (key : bytes) : bytes :=
  if len key =? EXTRACTED_KEY_SIZE then key
  else blake2b key EXTRACTED_KEY_SIZE.

(** ** AEZ state *)

(** [blocks[i]] for the block lists [I], [J] and [L] of the state, which
    [__init__] creates with 2, 3 and 8 blocks and nothing resizes; the
    empty default cannot be used as a block without an [IndexError]. *)
Definition blk (blocks : list bytes) (i : Z) : bytes :=
  nth (Z.to_nat i) blocks [].

Module _AEZState.

Record t : Type := {
  I : list bytes;
  J : list bytes;
  L : list bytes;
  aes : option _AESRound.t
}.

Definition __init__ : t :=
  {| I := [_mk_block BLOCK_SIZE; _mk_block BLOCK_SIZE];
     J := [_mk_block BLOCK_SIZE; _mk_block BLOCK_SIZE; _mk_block BLOCK_SIZE];
     L := repeat (_mk_block BLOCK_SIZE) 8;
     aes := None |}.

Definition reset (self : t) : t :=
  let wipe := map (fun buf : bytes => repeat 0 (length buf)) in
  {| I := wipe (I self); J := wipe (J self); L := wipe (L self);
     aes := option_map _AESRound.reset (aes self) |}.

(** [assert self.aes is not None] *)
Definition the_aes (self : t) : res _AESRound.t :=
  match aes self with
  | Some a => Ok a
  | None => Raise AssertionError
  end.

Definition init `{Hashlib} (self : t) (key : bytes) : res t :=
  let extracted := _extract_key key in
  let I0 := slice_set (blk (I self) 0) 0 (len (blk (I self) 0)) (slice extracted 0 16) in
  I1 <- _mult_block 2 I0 (blk (I self) 1) ;;
  let J0 := slice_set (blk (J self) 0) 0 (len (blk (J self) 0)) (slice extracted 16 32) in
  J1 <- _mult_block 2 J0 (blk (J self) 1) ;;
  J2 <- _mult_block 2 J1 (blk (J self) 2) ;;
  let L1 := slice_set (blk (L self) 1) 0 (len (blk (L self) 1)) (slice extracted 32 48) in
  L2 <- _mult_block 2 L1 (blk (L self) 2) ;;
  L3 <- _xor_bytes1x16 L2 L1 (blk (L self) 3) ;;
  L4 <- _mult_block 2 L2 (blk (L self) 4) ;;
  L5 <- _xor_bytes1x16 L4 L1 (blk (L self) 5) ;;
  L6 <- _mult_block 2 L3 (blk (L self) 6) ;;
  L7 <- _xor_bytes1x16 L6 L1 (blk (L self) 7) ;;
  Ok {| I := <[1%nat := I1]> (<[0%nat := I0]> (I self));
        J := <[2%nat := J2]> (<[1%nat := J1]> (<[0%nat := J0]> (J self)));
        L := <[7%nat := L7]> (<[6%nat := L6]> (<[5%nat := L5]> (<[4%nat := L4]>
               (<[3%nat := L3]> (<[2%nat := L2]> (<[1%nat := L1]> (L self)))))));
        aes := Some (_AESRound.__init__ extracted) |}.

(** The block walk shared by the nonce and by every associated-data
    string of [aez_hash]:
    [while n_bytes >= BLOCK_SIZE: ...], with [Jb] the J block of the
    walk.  The state is [(n_bytes, offset, I_tmp, buf, sum_block)]. *)
Fixpoint absorb (fuel : nat) (self : t) (a : _AESRound.t) (Jb data : bytes)
    (n_bytes offset i : Z) (I_tmp buf sum_block : bytes) {struct fuel}
  : res (Z * Z * bytes * bytes * bytes) :=
  if n_bytes <? BLOCK_SIZE then Ok (n_bytes, offset, I_tmp, buf, sum_block)
  else match fuel with
       | O => Raise OutOfFuel
       | S fuel' =>
           let block := slice data offset (offset + BLOCK_SIZE) in
           let tmp := _mk_block BLOCK_SIZE in
           let tmp := slice_set tmp 0 BLOCK_SIZE block in
           buf <- _AESRound.AES4 a Jb I_tmp (blk (L self) (i mod 8)) tmp buf ;;
           sum_block <- _xor_bytes1x16 sum_block buf sum_block ;;
           let offset := offset + BLOCK_SIZE in
           let n_bytes := n_bytes - BLOCK_SIZE in
           I_tmp <- (if i mod 8 =? 0 then _double_block I_tmp else Ok I_tmp) ;;
           absorb fuel' self a Jb data n_bytes offset (i + 1) I_tmp buf sum_block
       end.

(** The padded last block of a walk:
    [if n_bytes > 0 or empty: ...]; [present] is the guard of the copy
    ([not empty_nonce and nonce is not None], [not empty_piece and piece]). *)
Definition absorb_last (self : t) (a : _AESRound.t) (Jb data : bytes)
    (empty present : bool) (n_bytes offset : Z) (buf sum_block : bytes)
  : res (bytes * bytes) :=
  if (0 <? n_bytes) || empty then
    let buf := slice_set buf 0 (len buf) (repeat 0 (Z.to_nat BLOCK_SIZE)) in
    let buf := if present
               then slice_set buf 0 n_bytes (slice data offset (offset + n_bytes))
               else buf in
    buf <- setitem buf n_bytes 0x80 ;;
    buf <- _AESRound.AES4 a Jb (blk (I self) 0) (blk (L self) 0) buf buf ;;
    sum_block <- _xor_bytes1x16 sum_block buf sum_block ;;
    Ok (buf, sum_block)
  else Ok (buf, sum_block).

(** [for k, piece in enumerate(ad): ...] *)
Fixpoint absorb_ad (self : t) (a : _AESRound.t) (ad : list bytes) (k : Z)
    (I_tmp buf sum_block : bytes) : res bytes :=
  match ad with
  | [] => Ok sum_block
  | piece :: ad' =>
      let empty_piece := len piece =? 0 in
      let bytes_left := if empty_piece then 0 else len piece in
      let I_tmp := slice_set I_tmp 0 (len I_tmp) (blk (I self) 1) in
      let J_tmp2 := _mk_block BLOCK_SIZE in
      J_tmp2 <- _mult_block (5 + k) (blk (J self) 0) J_tmp2 ;;
      r <- absorb (length piece) self a J_tmp2 piece bytes_left 0 1
             I_tmp buf sum_block ;;
      let '(bytes_left, offset, I_tmp, buf, sum_block) := r in
      r <- absorb_last self a J_tmp2 piece empty_piece (negb empty_piece)
             bytes_left offset buf sum_block ;;
      let '(buf, sum_block) := r in
      absorb_ad self a ad' (k + 1) I_tmp buf sum_block
  end.

Definition aez_hash (self : t) (nonce : option bytes) (ad : list bytes)
    (tau : Z) : res bytes :=
  a <- the_aes self ;;
  let buf := _mk_block BLOCK_SIZE in
  let sum_block := _mk_block BLOCK_SIZE in
  let I_tmp := _mk_block BLOCK_SIZE in
  let J_tmp := _mk_block BLOCK_SIZE in
  tau_bytes <- to_bytes4_be (_uint32 tau) ;;
  let buf := slice_set buf 12 16 tau_bytes in
  J_tmp <- _xor_bytes1x16 (blk (J self) 0) (blk (J self) 1) J_tmp ;;
  sum_block <- _AESRound.AES4 a J_tmp (blk (I self) 1) (blk (L self) 1) buf sum_block ;;
  let data := default [] nonce in
  let empty_nonce := len data =? 0 in
  let n_bytes := if empty_nonce then 0 else len data in
  let I_tmp := slice_set I_tmp 0 (len I_tmp) (blk (I self) 1) in
  r <- absorb (length data) self a (blk (J self) 2) data n_bytes 0 1
         I_tmp buf sum_block ;;
  let '(n_bytes, offset, I_tmp, buf, sum_block) := r in
  r <- absorb_last self a (blk (J self) 2) data empty_nonce (negb empty_nonce)
         n_bytes offset buf sum_block ;;
  let '(buf, sum_block) := r in
  absorb_ad self a ad 0 I_tmp buf sum_block.

(** [for idx in range(15, -1, -1)] of [aez_prf], with its [break];
    [n] is [idx + 1]. *)
Fixpoint ctr_incr (n : nat) (ctr : bytes) : res bytes :=
  match n with
  | O => Ok ctr
  | S idx =>
      c <- getitem ctr (Z.of_nat idx) ;;
      ctr <- setitem ctr (Z.of_nat idx) (Z.land (c + 1) 0xFF) ;;
      c <- getitem ctr (Z.of_nat idx) ;;
      if c =? 0 then ctr_incr idx ctr else Ok ctr
  end.

(** [while remaining >= BLOCK_SIZE: ...] of [aez_prf]; the state is
    [(off, remaining, buf, ctr, dst)]. *)
Fixpoint prf_loop (fuel : nat) (self : t) (a : _AESRound.t) (delta : bytes)
    (off remaining : Z) (buf ctr dst : bytes) {struct fuel}
  : res (Z * Z * bytes * bytes * bytes) :=
  if remaining <? BLOCK_SIZE then Ok (off, remaining, buf, ctr, dst)
  else match fuel with
       | O => Raise OutOfFuel
       | S fuel' =>
           buf <- _xor_bytes1x16 delta ctr buf ;;
           buf <- _AESRound.AES10 a (blk (L self) 3) buf buf ;;
           let dst := slice_set dst off (off + BLOCK_SIZE) buf in
           ctr <- ctr_incr 16 ctr ;;
           prf_loop fuel' self a delta (off + BLOCK_SIZE)
             (remaining - BLOCK_SIZE) buf ctr dst
       end.

Definition aez_prf (self : t) (delta : bytes) (tau : Z) (dst : bytes)
  : res bytes :=
  a <- the_aes self ;;
  let buf := _mk_block BLOCK_SIZE in
  let ctr := _mk_block BLOCK_SIZE in
  r <- prf_loop (Z.to_nat tau) self a delta 0 tau buf ctr dst ;;
  let '(off, remaining, buf, ctr, dst) := r in
  if 0 <? remaining then
    buf <- _xor_bytes1x16 delta ctr buf ;;
    buf <- _AESRound.AES10 a (blk (L self) 3) buf buf ;;
    Ok (slice_set dst off (off + remaining) (slice_to buf remaining))
  else Ok dst.

(** [for k in range(n + i - 1, i - 1, -1)]: [n] turns, downwards, the
    last one at [i]. *)
Fixpoint for_down {S : Type} (n : nat) (i : Z) (body : Z -> S -> res S)
    (s : S) : res S :=
  match n with
  | O => Ok s
  | S n' => s' <- body (i + Z.of_nat n') s ;; for_down n' i body s'
  end.

(** The two [memoryview] arguments [buf_view[:BLOCK_SIZE]] of aez-tiny
    are views of the first block of [buf]: what is written through the
    view is written to [buf]. *)
Definition view (buf : bytes) : bytes := slice buf 0 BLOCK_SIZE.
Definition view_set (buf v : bytes) : bytes := slice_set buf 0 BLOCK_SIZE v.

(** The whitening bit of aez-tiny for messages shorter than a block:
    [buf[0] |= 0x80] up to the [AES4] call under [L[3]]. *)
Definition tiny_sign (self : t) (a : _AESRound.t) (delta buf tmp : bytes)
  : res (bytes * bytes) :=
  b0 <- getitem buf 0 ;;
  buf <- setitem buf 0 (Z.lor b0 0x80) ;;
  v <- _xor_bytes1x16 delta (view buf) (view buf) ;;
  let buf := view_set buf v in
  tmp <- _AESRound.AES4 a ZERO_BLOCK (blk (I self) 1) (blk (L self) 3)
           (view buf) tmp ;;
  Ok (buf, tmp).

(** One half round of aez-tiny: [buf] is rebuilt from the first
    [left_len] bytes of [src], padded, masked with [delta] and the round
    number [j], enciphered into [tmp] and added to [acc]. *)
Definition tiny_half (self : t) (a : _AESRound.t) (delta : bytes)
    (in_bytes left_len mask pad idx_param j : Z) (src acc buf tmp : bytes)
  : res (bytes * bytes * bytes) :=
  let buf := slice_set buf 0 BLOCK_SIZE (repeat 0 (Z.to_nat BLOCK_SIZE)) in
  let buf := slice_set buf 0 left_len (slice_to src left_len) in
  let mid_index := in_bytes / 2 in
  m <- getitem buf mid_index ;;
  buf <- setitem buf mid_index (Z.lor (Z.land m mask) pad) ;;
  v <- _xor_bytes1x16 (view buf) delta (view buf) ;;
  let buf := view_set buf v in
  b15 <- getitem buf 15 ;;
  buf <- setitem buf 15 (Z.lxor b15 (Z.land j 0xFF)) ;;
  tmp <- _AESRound.AES4 a ZERO_BLOCK (blk (I self) 1) (blk (L self) idx_param)
           (view buf) tmp ;;
  acc <- _xor_bytes1x16 acc tmp acc ;;
  Ok (acc, buf, tmp).

Definition aez_tiny (self : t) (delta data : bytes) (direction : Z)
    (dst : bytes) : res bytes :=
  a <- the_aes self ;;
  let in_bytes := len data in
  let buf := _mk_block (2 * BLOCK_SIZE) in
  let L := _mk_block BLOCK_SIZE in
  let R := _mk_block BLOCK_SIZE in
  let tmp := _mk_block BLOCK_SIZE in
  let '(idx_param, rounds) :=
    if in_bytes =? 1 then (7, 24)
    else if in_bytes =? 2 then (7, 16)
    else if in_bytes <? BLOCK_SIZE then (7, 10)
    else (6, 8) in
  let left_len := (in_bytes + 1) / 2 in
  let right_start := in_bytes / 2 in
  let L := slice_set L 0 left_len (slice_to data left_len) in
  let R := slice_set R 0 left_len
             (slice data right_start (right_start + left_len)) in
  r <- (if Z.land in_bytes 1 =? 0 then Ok (R, 0x80, 0x00)
        else
          let half := in_bytes / 2 in
          R <- for_range (Z.to_nat half) 0
                 (fun k R =>
                    x <- getitem R k ;;
                    y <- getitem R (k + 1) ;;
                    setitem R k (Z.land (Z.lor (Z.shiftl x 4) (Z.shiftr y 4)) 0xFF))
                 R ;;
          x <- getitem R half ;;
          R <- setitem R half (Z.land (Z.shiftl x 4) 0xFF) ;;
          Ok (R, 0x08, 0xF0)) ;;
  let '(R, pad, mask) := r in
  r <- (if direction =? 0 then Ok (buf, L, tmp, 0, 1)
        else
          r <- (if in_bytes <? BLOCK_SIZE then
                  let buf := slice_set buf 0 BLOCK_SIZE
                               (repeat 0 (Z.to_nat BLOCK_SIZE)) in
                  let buf := slice_set buf 0 in_bytes data in
                  r <- tiny_sign self a delta buf tmp ;;
                  let '(buf, tmp) := r in
                  l0 <- getitem L 0 ;;
                  t0 <- getitem tmp 0 ;;
                  L <- setitem L 0 (Z.lxor l0 (Z.land t0 0x80)) ;;
                  Ok (buf, L, tmp)
                else Ok (buf, L, tmp)) ;;
          let '(buf, L, tmp) := r in
          Ok (buf, L, tmp, rounds - 1, -1)) ;;
  let '(buf, L, tmp, j, step) := r in
  r <- for_range (Z.to_nat (rounds / 2)) 0
         (fun _ s =>
            let '(buf, L, R, tmp, j) := s in
            r <- tiny_half self a delta in_bytes left_len mask pad idx_param
                   j R L buf tmp ;;
            let '(L, buf, tmp) := r in
            r <- tiny_half self a delta in_bytes left_len mask pad idx_param
                   (j + step) L R buf tmp ;;
            let '(R, buf, tmp) := r in
            Ok (buf, L, R, tmp, j + step * 2))
         (buf, L, R, tmp, j) ;;
  let '(buf, L, R, tmp, j) := r in
  let half := in_bytes / 2 in
  let buf := slice_set buf 0 half (slice_to R half) in
  let buf := slice_set buf half (half + left_len) (slice_to L left_len) in
  buf <- (if Z.land in_bytes 1 =? 0 then Ok buf
          else
            buf <- for_down (Z.to_nat (in_bytes - 1 - half)) (half + 1)
                     (fun k buf =>
                        x <- getitem buf k ;;
                        y <- getitem buf (k - 1) ;;
                        setitem buf k
                          (Z.land (Z.lor (Z.shiftr x 4) (Z.shiftl y 4)) 0xFF))
                     buf ;;
            l0 <- getitem L 0 ;;
            rh <- getitem R half ;;
            setitem buf half
              (Z.lor (Z.land (Z.shiftr l0 4) 0x0F) (Z.land rh 0xF0))) ;;
  let dst := slice_set dst 0 in_bytes (slice_to buf in_bytes) in
  if (in_bytes <? BLOCK_SIZE) && (direction =? 0) then
    let buf := slice_set buf in_bytes BLOCK_SIZE
                 (repeat 0 (Z.to_nat (BLOCK_SIZE - in_bytes))) in
    r <- tiny_sign self a delta buf tmp ;;
    let '(buf, tmp) := r in
    d0 <- getitem dst 0 ;;
    t0 <- getitem tmp 0 ;;
    setitem dst 0 (Z.lxor d0 (Z.land t0 0x80))
  else Ok dst.

(** [while remaining >= 64: ...] of [aez_core_pass1]. *)
Fixpoint pass1_loop (fuel : nat) (self : t) (a : _AESRound.t)
    (input_bytes : bytes) (offset remaining i : Z)
    (tmp I_tmp output X : bytes) {struct fuel} : res (bytes * bytes) :=
  if remaining <? 64 then Ok (output, X)
  else match fuel with
       | O => Raise OutOfFuel
       | S fuel' =>
           let block1 := slice input_bytes (offset + BLOCK_SIZE)
                           (offset + BLOCK_SIZE * 2) in
           tmp <- _AESRound.AES4 a (blk (J self) 0) I_tmp
                    (blk (L self) (i mod 8)) block1 tmp ;;
           let first_out := slice input_bytes offset (offset + BLOCK_SIZE) in
           first_out <- _xor_bytes1x16 first_out tmp first_out ;;
           let output := slice_set output offset (offset + BLOCK_SIZE)
                           first_out in
           tmp <- _AESRound.AES4 a ZERO_BLOCK (blk (I self) 0) (blk (L self) 0)
                    first_out tmp ;;
           let second_out := slice input_bytes (offset + BLOCK_SIZE)
                               (offset + BLOCK_SIZE * 2) in
           second_out <- _xor_bytes1x16 second_out tmp second_out ;;
           let output := slice_set output (offset + BLOCK_SIZE)
                           (offset + BLOCK_SIZE * 2) second_out in
           X <- _xor_bytes1x16 second_out X X ;;
           let offset := offset + 32 in
           let remaining := remaining - 32 in
           let i := i + 1 in
           I_tmp <- (if i mod 8 =? 0 then _double_block I_tmp else Ok I_tmp) ;;
           pass1_loop fuel' self a input_bytes offset remaining i
             tmp I_tmp output X
       end.

(** The new contents of [output] and of [X]. *)
Definition aez_core_pass1 (self : t) (input_bytes output X : bytes)
  : res (bytes * bytes) :=
  a <- the_aes self ;;
  let tmp := _mk_block BLOCK_SIZE in
  let I_tmp := _mk_block BLOCK_SIZE in
  let I_tmp := slice_set I_tmp 0 (len I_tmp) (blk (I self) 1) in
  pass1_loop (length input_bytes) self a input_bytes 0 (len input_bytes) 1
    tmp I_tmp output X.

(** [while remaining >= 64: ...] of [aez_core_pass2]. *)
Fixpoint pass2_loop (fuel : nat) (self : t) (a : _AESRound.t)
    (offset remaining i : Z) (tmp I_tmp output Y S : bytes) {struct fuel}
  : res (bytes * bytes) :=
  if remaining <? 64 then Ok (output, Y)
  else match fuel with
       | O => Raise OutOfFuel
       | S fuel' =>
           let first_out := slice output offset (offset + BLOCK_SIZE) in
           let second_out := slice output (offset + BLOCK_SIZE)
                               (offset + BLOCK_SIZE * 2) in
           tmp <- _AESRound.AES4 a (blk (J self) 1) I_tmp
                    (blk (L self) (i mod 8)) S tmp ;;
           first_out <- _xor_bytes1x16 first_out tmp first_out ;;
           second_out <- _xor_bytes1x16 second_out tmp second_out ;;
           Y <- _xor_bytes1x16 first_out Y Y ;;
           tmp <- _AESRound.AES4 a ZERO_BLOCK (blk (I self) 0) (blk (L self) 0)
                    second_out tmp ;;
           first_out <- _xor_bytes1x16 first_out tmp first_out ;;
           tmp <- _AESRound.AES4 a (blk (J self) 0) I_tmp
                    (blk (L self) (i mod 8)) first_out tmp ;;
           second_out <- _xor_bytes1x16 second_out tmp second_out ;;
           let temp := first_out in
           let first_out := slice_set first_out 0 (len first_out) second_out in
           let second_out := slice_set second_out 0 (len second_out) temp in
           let output := slice_set output offset (offset + BLOCK_SIZE)
                           first_out in
           let output := slice_set output (offset + BLOCK_SIZE)
                           (offset + BLOCK_SIZE * 2) second_out in
           let offset := offset + 32 in
           let remaining := remaining - 32 in
           let i := i + 1 in
           I_tmp <- (if i mod 8 =? 0 then _double_block I_tmp else Ok I_tmp) ;;
           pass2_loop fuel' self a offset remaining i tmp I_tmp output Y S
       end.

(** The new contents of [output] and of [Y]. *)
Definition aez_core_pass2 (self : t) (input_bytes output Y S : bytes)
  : res (bytes * bytes) :=
  a <- the_aes self ;;
  let tmp := _mk_block BLOCK_SIZE in
  let I_tmp := _mk_block BLOCK_SIZE in
  let I_tmp := slice_set I_tmp 0 (len I_tmp) (blk (I self) 1) in
  pass2_loop (length input_bytes) self a 0 (len input_bytes) 1
    tmp I_tmp output Y S.

(** [dst[a:b]] of a bytearray is a copy: [dst_tail] and [dst_fragment]
    are locals, and what is stored in them stays there. *)
Definition aez_core (self : t) (delta data : bytes) (direction : Z)
    (dst : bytes) : res bytes :=
  a <- the_aes self ;;
  let in_bytes := len data in
  let frag_bytes := in_bytes mod 32 in
  let initial_bytes := in_bytes - frag_bytes - 32 in
  let tmp := _mk_block BLOCK_SIZE in
  let X := _mk_block BLOCK_SIZE in
  let Y := _mk_block BLOCK_SIZE in
  let S := _mk_block BLOCK_SIZE in
  let input_bytes := data in
  r <- (if 64 <=? in_bytes then aez_core_pass1 self input_bytes dst X
        else Ok (dst, X)) ;;
  let '(dst, X) := r in
  let tail := slice_from input_bytes initial_bytes in
  r <- (if BLOCK_SIZE <=? frag_bytes then
          let buf := _mk_block BLOCK_SIZE in
          let buf := slice_set buf 0 BLOCK_SIZE
                       (slice tail BLOCK_SIZE (BLOCK_SIZE * 2)) in
          tmp <- _AESRound.AES4 a ZERO_BLOCK (blk (I self) 1) (blk (L self) 4)
                   buf tmp ;;
          X <- _xor_bytes1x16 X tmp X ;;
          let padded := _mk_block BLOCK_SIZE in
          padded <- _one_zero_pad (slice_from tail BLOCK_SIZE)
                      (frag_bytes - BLOCK_SIZE) padded ;;
          tmp <- _AESRound.AES4 a ZERO_BLOCK (blk (I self) 1) (blk (L self) 5)
                   padded tmp ;;
          X <- _xor_bytes1x16 X tmp X ;;
          Ok (tmp, X)
        else if 0 <? frag_bytes then
          let padded := _mk_block BLOCK_SIZE in
          padded <- _one_zero_pad tail frag_bytes padded ;;
          tmp <- _AESRound.AES4 a ZERO_BLOCK (blk (I self) 1) (blk (L self) 4)
                   padded tmp ;;
          X <- _xor_bytes1x16 X tmp X ;;
          Ok (tmp, X)
        else Ok (tmp, X)) ;;
  let '(tmp, X) := r in
  let dst_tail := slice dst (in_bytes - 32) in_bytes in
  let input_tail := slice input_bytes (in_bytes - 32) in_bytes in
  let block1 := _mk_block BLOCK_SIZE in
  let block1 := slice_set block1 0 BLOCK_SIZE (slice_to input_tail BLOCK_SIZE) in
  let block2 := _mk_block BLOCK_SIZE in
  let block2 := slice_set block2 0 BLOCK_SIZE
                  (slice input_tail BLOCK_SIZE (BLOCK_SIZE * 2)) in
  tmp <- _AESRound.AES4 a ZERO_BLOCK (blk (I self) 1)
           (blk (L self) ((1 + direction) mod 8)) block2 tmp ;;
  let first_dst := _mk_block BLOCK_SIZE in
  first_dst <- _xor_bytes4x16 X block1 delta tmp first_dst ;;
  let dst_tail := slice_set dst_tail 0 BLOCK_SIZE first_dst in
  let tmp2 := _mk_block BLOCK_SIZE in
  tmp2 <- _AESRound.AES10 a (blk (L self) ((1 + direction) mod 8))
            first_dst tmp2 ;;
  let second_dst := block2 in
  second_dst <- _xor_bytes1x16 second_dst tmp2 second_dst ;;
  let dst_tail := slice_set dst_tail BLOCK_SIZE (BLOCK_SIZE * 2) second_dst in
  S <- _xor_bytes1x16 first_dst second_dst S ;;
  r <- (if 64 <=? in_bytes then aez_core_pass2 self input_bytes dst Y S
        else Ok (dst, Y)) ;;
  let '(dst, Y) := r in
  let dst_fragment := slice_from dst initial_bytes in
  let input_fragment := slice_from input_bytes initial_bytes in
  r <- (if BLOCK_SIZE <=? frag_bytes then
          let tmp_block := _mk_block BLOCK_SIZE in
          tmp_block <- _AESRound.AES10 a (blk (L self) 4) S tmp_block ;;
          let block := slice_to input_fragment BLOCK_SIZE in
          block <- _xor_bytes1x16 block tmp_block block ;;
          let dst_fragment := slice_set dst_fragment 0 BLOCK_SIZE block in
          tmp <- _AESRound.AES4 a ZERO_BLOCK (blk (I self) 1) (blk (L self) 4)
                   block tmp ;;
          Y <- _xor_bytes1x16 Y tmp Y ;;
          let remaining := frag_bytes - BLOCK_SIZE in
          let tmp_block := _mk_block BLOCK_SIZE in
          tmp_block <- _AESRound.AES10 a (blk (L self) 5) S tmp_block ;;
          let buf := tmp_block in
          let fragment := slice input_fragment BLOCK_SIZE
                            (BLOCK_SIZE + remaining) in
          buf <- for_range (Z.to_nat remaining) 0
                   (fun idx buf =>
                      x <- getitem buf idx ;;
                      y <- getitem fragment idx ;;
                      setitem buf idx (Z.lxor x y))
                   buf ;;
          let dst_fragment := slice_set dst_fragment BLOCK_SIZE
                                (BLOCK_SIZE + remaining)
                                (slice_to buf remaining) in
          let buf := slice_set buf 0 (len buf) (repeat 0 (Z.to_nat BLOCK_SIZE)) in
          let buf := slice_set buf 0 remaining
                       (slice dst_fragment BLOCK_SIZE (BLOCK_SIZE + remaining)) in
          buf <- setitem buf remaining 0x80 ;;
          tmp <- _AESRound.AES4 a ZERO_BLOCK (blk (I self) 1) (blk (L self) 5)
                   buf tmp ;;
          Y <- _xor_bytes1x16 Y tmp Y ;;
          Ok (tmp, Y)
        else if 0 <? frag_bytes then
          let tmp_block := _mk_block BLOCK_SIZE in
          tmp_block <- _AESRound.AES10 a (blk (L self) 4) S tmp_block ;;
          let buf := tmp_block in
          let fragment := slice_to input_fragment frag_bytes in
          buf <- for_range (Z.to_nat frag_bytes) 0
                   (fun idx buf =>
                      x <- getitem buf idx ;;
                      y <- getitem fragment idx ;;
                      setitem buf idx (Z.lxor x y))
                   buf ;;
          let dst_fragment := slice_set dst_fragment 0 frag_bytes
                                (slice_to buf frag_bytes) in
          let buf := slice_set buf 0 (len buf) (repeat 0 (Z.to_nat BLOCK_SIZE)) in
          let buf := slice_set buf 0 frag_bytes
                       (slice_to dst_fragment frag_bytes) in
          buf <- setitem buf frag_bytes 0x80 ;;
          tmp <- _AESRound.AES4 a ZERO_BLOCK (blk (I self) 1) (blk (L self) 4)
                   buf tmp ;;
          Y <- _xor_bytes1x16 Y tmp Y ;;
          Ok (tmp, Y)
        else Ok (tmp, Y)) ;;
  let '(tmp, Y) := r in
  let dst_tail := slice dst (in_bytes - 32) in_bytes in
  let second_half := slice dst_tail BLOCK_SIZE (BLOCK_SIZE * 2) in
  let tmp_block := _mk_block BLOCK_SIZE in
  tmp_block <- _AESRound.AES10 a (blk (L self) ((2 - direction) mod 8))
                 second_half tmp_block ;;
  let first_half := slice_to dst_tail BLOCK_SIZE in
  first_half <- _xor_bytes1x16 first_half tmp_block first_half ;;
  let dst_tail := slice_set dst_tail 0 BLOCK_SIZE first_half in
  tmp <- _AESRound.AES4 a ZERO_BLOCK (blk (I self) 1)
           (blk (L self) ((2 - direction) mod 8)) first_half tmp ;;
  let combined := _mk_block BLOCK_SIZE in
  combined <- _xor_bytes4x16 tmp (slice dst_tail BLOCK_SIZE (BLOCK_SIZE * 2))
                delta Y combined ;;
  let dst_tail := slice_set dst_tail BLOCK_SIZE (BLOCK_SIZE * 2) combined in
  let tmp_copy := slice_to dst_tail BLOCK_SIZE in
  let dst_tail := slice_set dst_tail 0 BLOCK_SIZE combined in
  let dst_tail := slice_set dst_tail BLOCK_SIZE (BLOCK_SIZE * 2) tmp_copy in
  Ok dst.

Definition encipher (self : t) (delta data dst : bytes) : res bytes :=
  if len data =? 0 then Ok dst
  else if len data <? 32 then aez_tiny self delta data 0 dst
  else aez_core self delta data 0 dst.

Definition decipher (self : t) (delta data dst : bytes) : res bytes :=
  if len data =? 0 then Ok dst
  else if len data <? 32 then aez_tiny self delta data 1 dst
  else aez_core self delta data 1 dst.

End _AEZState.

(** ** Decrypt driver *)

(** The two [for i in range(tau)] loops that OR the tag bytes together. *)
Definition prf_mismatch (tau : Z) (x ciphertext : bytes) : res Z :=
  for_range (Z.to_nat tau) 0
    (fun i mismatch =>
       xi <- getitem x i ;;
       ci <- getitem ciphertext i ;;
       Ok (Z.lor mismatch (Z.lxor xi ci)))
    0.

Definition tag_mismatch (tau : Z) (x ciphertext : bytes) : res Z :=
  for_range (Z.to_nat tau) 0
    (fun i mismatch =>
       xi <- getitem x (len ciphertext - tau + i) ;;
       Ok (Z.lor mismatch xi))
    0.

Definition _aez_decrypt `{Hashlib} (key : bytes) (ad_list : list bytes)
    (tau : Z) (ciphertext : bytes) : res (option bytes) :=
  let state := _AEZState.__init__ in
  let state := _AEZState.reset state in
  state <- _AEZState.init state key ;;
  delta <- _AEZState.aez_hash state None ad_list (tau * 8) ;;
  let x := repeat 0 (length ciphertext) in
  if len ciphertext =? tau then
    x <- _AEZState.aez_prf state delta tau x ;;
    mismatch <- prf_mismatch tau x ciphertext ;;
    if mismatch =? 0 then Ok (Some []) else Ok None
  else
    x <- _AEZState.decipher state delta ciphertext x ;;
    mismatch <- tag_mismatch tau x ciphertext ;;
    if mismatch =? 0 then Ok (Some (slice_to x (len ciphertext - tau)))
    else Ok None.

(** ** Mnemonic codec *)

(** A Python [str] is represented by its text, a Rocq [string], whose
    characters are the bytes of its UTF-8 encoding. *)
Definition encode_utf8 (s : string) : bytes :=
  map (fun c => Z.of_N (Ascii.N_of_ascii c)) (String.list_ascii_of_string s).

(** [while bit_len >= 8: ...] of [mnemonic_to_bytes]; the state is
    [(bits, bit_len, out, pos)]. *)
Fixpoint emit (fuel : nat) (bits bit_len : Z) (out : bytes) (pos : Z)
    {struct fuel} : res (Z * Z * bytes * Z) :=
  if bit_len <? 8 then Ok (bits, bit_len, out, pos)
  else match fuel with
       | O => Raise OutOfFuel
       | S fuel' =>
           let bit_len := bit_len - 8 in
           out <- setitem out pos (Z.land (Z.shiftr bits bit_len) 0xFF) ;;
           let bits := Z.land bits (if bit_len =? 0 then 0
                                    else Z.shiftl 1 bit_len - 1) in
           emit fuel' bits bit_len out (pos + 1)
       end.

(** [for word in words: ...] of [mnemonic_to_bytes]. *)
Fixpoint pack (words : list string) (word_to_index : gmap string Z)
    (bits bit_len : Z) (out : bytes) (pos : Z) : result error bytes :=
  match words with
  | [] => Ok out
  | word :: words' =>
      match word_to_index !! word with
      | None => Raise (InvalidMnemonicError (String.append "unknown word: " word))
      | Some idx =>
          let bits := Z.lor (Z.shiftl bits BitsPerWord) idx in
          let bit_len := bit_len + BitsPerWord in
          r <- lift (emit (Z.to_nat bit_len) bits bit_len out pos) ;;
          let '(bits, bit_len, out, pos) := r in
          pack words' word_to_index bits bit_len out pos
      end
  end.

Definition mnemonic_to_bytes (words : list string)
    (word_to_index : gmap string Z) : result error bytes :=
  if negb (len words =? 24)
  then Raise (InvalidMnemonicError "aezeed mnemonics must have 24 words")
  else pack words word_to_index 0 0
         (repeat 0 (Z.to_nat EncipheredCipherSeedSize)) 0.

Definition validate_mnemonic (words : list string)
    (word_to_index : gmap string Z) : result error bool :=
  match mnemonic_to_bytes words word_to_index with
  | Raise (InvalidMnemonicError _) => Ok false
  | Raise e => Raise e
  | Ok cipher_bytes =>
      b0 <- lift (getitem cipher_bytes 0) ;;
      if negb (b0 =? CipherSeedVersion) then Ok false
      else
        let expected := from_bytes_be (slice_from cipher_bytes (-4)) in
        let computed :=
          _crc32c (slice_to cipher_bytes (EncipheredCipherSeedSize - 4)) in
        Ok (expected =? computed)
  end.

Definition _encode_ad (version : Z) (salt : bytes) : bytes := [version] ++ salt.

Record DecipheredCipherSeed : Type := {
  entropy : bytes;
  salt : bytes;
  internal_version : Z;
  birthday : Z
}.

(** [decode_mnemonic] calls the key derivation and then the cipher; a run
    of it is the list of these calls, in order, with its result. *)
Inductive event : Type :=
| CallScrypt (password salt : bytes) (n r p dklen maxmem : Z)
| CallAezDecrypt (key : bytes) (ad_list : list bytes) (tau : Z)
    (ciphertext : bytes).

Definition run (A : Type) : Type := (list event * result error A)%type.

Definition quiet {A : Type} (m : result error A) : run A := ([], m).

Definition then_run {A B : Type} (m : run A) (k : A -> run B) : run B :=
  match m with
  | (tr, Ok a) => let '(tr', r) := k a in (tr ++ tr', r)
  | (tr, Raise e) => (tr, Raise e)
  end.

Notation "x <~ m ;; k" := (then_run m (fun x => k))
  (at level 100, m at next level, right associativity).

Definition call_scrypt `{Hashlib} (password salt : bytes)
    (n r p dklen maxmem : Z) : run bytes :=
  ([CallScrypt password salt n r p dklen maxmem],
   match scrypt password salt n r p dklen maxmem with
   | Some key => Ok key
   | None => Raise HashlibError
   end).

Definition call_aez_decrypt `{Hashlib} (key : bytes) (ad_list : list bytes)
    (tau : Z) (ciphertext : bytes) : run (option bytes) :=
  ([CallAezDecrypt key ad_list tau ciphertext],
   lift (_aez_decrypt key ad_list tau ciphertext)).

Definition decode_mnemonic `{Hashlib} (words : list string)
    (passphrase : option string) (word_to_index : gmap string Z)
  : run DecipheredCipherSeed :=
  cipher_bytes <~ quiet (mnemonic_to_bytes words word_to_index) ;;
  version <~ quiet (lift (getitem cipher_bytes 0)) ;;
  if negb (version =? CipherSeedVersion)
  then quiet (Raise (InvalidMnemonicError "unsupported aezeed version"))
  else
    let checksum := from_bytes_be (slice_from cipher_bytes (-4)) in
    let computed :=
      _crc32c (slice_to cipher_bytes (EncipheredCipherSeedSize - 4)) in
    if negb (checksum =? computed)
    then quiet (Raise (InvalidMnemonicError "checksum mismatch"))
    else
      let salt := slice cipher_bytes (EncipheredCipherSeedSize - 4 - SaltSize)
                    (EncipheredCipherSeedSize - 4) in
      let ciphertext :=
        slice cipher_bytes 1 (EncipheredCipherSeedSize - 4 - SaltSize) in
      let pass_bytes :=
        encode_utf8 (String.append DEFAULT_PASSPHRASE (default ""%string passphrase)) in
      key <~ call_scrypt pass_bytes salt 32768 8 1 32 2000000000 ;;
      let ad := _encode_ad version salt in
      plaintext <~ call_aez_decrypt key [ad] CipherTextExpansion ciphertext ;;
      match plaintext with
      | None => quiet (Raise (InvalidPassphraseError "invalid passphrase"))
      | Some plaintext =>
          if negb (len plaintext =? DecipheredCipherSeedSize)
          then quiet (Raise (InvalidPassphraseError "invalid passphrase"))
          else
            internal_version <~ quiet (lift (getitem plaintext 0)) ;;
            let birthday := from_bytes_be (slice plaintext 1 3) in
            let entropy := slice_from plaintext 3 in
            quiet (Ok {| entropy := entropy; salt := salt;
                         internal_version := internal_version;
                         birthday := birthday |})
      end.

(** * Proofs *)

(** ** Total correctness of monadic code

    [returns m Q]: [m] raises nothing and its value satisfies [Q]. *)

Definition returns {E A : Type} (m : result E A) (Q : A -> Prop) : Prop :=
  match m with Ok a => Q a | Raise _ => False end.

Lemma returns_bind {E A B} (m : result E A) (k : A -> result E B) P Q :
  returns m P -> (forall a, P a -> returns (k a) Q) -> returns (bind m k) Q.
Proof. destruct m; simpl; auto. Qed.

Lemma returns_mono {E A} (m : result E A) (P Q : A -> Prop) :
  returns m P -> (forall a, P a -> Q a) -> returns m Q.
Proof. destruct m; simpl; auto. Qed.

Lemma returns_inv {E A} (m : result E A) Q :
  returns m Q -> exists a, m = Ok a /\ Q a.
Proof. destruct m; simpl; [eauto | contradiction]. Qed.

Lemma returns_eq {E A} (m : result E A) a Q : m = Ok a -> Q a -> returns m Q.
Proof. intros ->. auto. Qed.

Tactic Notation "step" open_constr(lem) :=
  eapply returns_bind; [ eapply lem | cbv beta; intros ].
Tactic Notation "step" open_constr(lem) "as" simple_intropattern(x) simple_intropattern(H) :=
  eapply returns_bind; [ eapply lem | cbv beta; intros x H ].
Ltac finish lem := eapply returns_mono; [ eapply lem | cbv beta; intros ].

(** ** Python sequences *)

Create Rewrite HintDb pylen.
#[local] Hint Rewrite @length_app @length_firstn @length_skipn @repeat_length
  @length_map @length_insert @length_seq @length_zip_with : pylen.

Ltac zlen :=
  unfold len, ZERO_BLOCK, _mk_block, BLOCK_SIZE in *;
  autorewrite with pylen in *; lia.

Ltac len_solve :=
  unfold slice_from, slice_to, slice, slice_set, len, clamp, _mk_block,
    ZERO_BLOCK, BLOCK_SIZE in *;
  repeat match goal with
         | |- context [if ?a <? ?b then _ else _] => destruct (Z.ltb_spec a b)
         end;
  autorewrite with pylen in *; try lia.

Lemma slice_len {A} (l : list A) i j :
  0 <= i <= j -> j <= len l -> len (slice l i j) = j - i.
Proof. intros. len_solve. Qed.

Lemma slice_from_len {A} (l : list A) i :
  0 <= i <= len l -> len (slice_from l i) = len l - i.
Proof. intros. len_solve. Qed.

Lemma slice_set_len {A} (l v : list A) i j :
  0 <= i <= j -> j <= len l -> len v = j - i -> len (slice_set l i j v) = len l.
Proof. intros. len_solve. Qed.

Lemma slice_set_all {A} (l v : list A) : slice_set l 0 (len l) v = v.
Proof.
  unfold slice_set, clamp. change (0 <? 0) with false. cbv iota.
  destruct (Z.ltb_spec (len l) 0); [zlen|].
  rewrite Z.min_id. replace (Z.min 0 (len l)) with 0 by zlen.
  rewrite Z.max_r by zlen. unfold len. rewrite Nat2Z.id, skipn_all.
  simpl. apply app_nil_r.
Qed.

Lemma slice_set_block (l v : bytes) :
  len l = 16 -> len v = 16 -> slice_set l 0 BLOCK_SIZE v = v.
Proof. intros Hl Hv. replace BLOCK_SIZE with (len l) by zlen. apply slice_set_all. Qed.

Lemma slice_full {A} (l : list A) n : n = len l -> slice l 0 n = l.
Proof.
  intros ->. unfold slice, clamp. change (0 <? 0) with false. cbv iota.
  destruct (Z.ltb_spec (len l) 0); [zlen|].
  rewrite Z.min_id. replace (Z.min 0 (len l)) with 0 by zlen.
  rewrite Z.sub_0_r. unfold len. rewrite Nat2Z.id. simpl. apply firstn_all.
Qed.

Lemma mk_block_len n : 0 <= n -> len (_mk_block n) = n.
Proof. intros. len_solve. Qed.

Lemma getitem_returns l i :
  0 <= i < len l -> returns (getitem l i) (fun x => l !! Z.to_nat i = Some x).
Proof.
  intros Hi. unfold getitem, resolve.
  destruct (Z.ltb_spec i 0); [lia|].
  destruct (Z.leb_spec 0 i); [|lia]. destruct (Z.ltb_spec i (len l)); [|lia].
  simpl. destruct (l !! Z.to_nat i) eqn:E; simpl; auto.
  apply lookup_ge_None in E. unfold len in *. lia.
Qed.

Lemma setitem_eq l i v :
  0 <= i < len l -> setitem l i v = Ok (<[Z.to_nat i := v]> l).
Proof.
  intros Hi. unfold setitem, resolve.
  destruct (Z.ltb_spec i 0); [lia|].
  destruct (Z.leb_spec 0 i); [|lia]. destruct (Z.ltb_spec i (len l)); [|lia].
  reflexivity.
Qed.

Lemma setitem_returns l i v :
  0 <= i < len l ->
  returns (setitem l i v) (fun r => r = <[Z.to_nat i := v]> l /\ length r = length l).
Proof. intros. rewrite setitem_eq by auto. simpl. rewrite length_insert. auto. Qed.

Lemma for_range_returns {St} (Inv : Z -> St -> Prop) n i body (s : St) :
  Inv i s ->
  (forall k s, i <= k < i + Z.of_nat n -> Inv k s ->
               returns (E:=builtin_error) (body k s) (Inv (k + 1))) ->
  returns (for_range n i body s) (Inv (i + Z.of_nat n)).
Proof.
  revert i s. induction n as [|n IH]; intros i s H0 Hb; cbn [for_range].
  - change (Z.of_nat 0) with 0. rewrite Z.add_0_r. exact H0.
  - eapply returns_bind. { apply Hb; [lia | exact H0]. }
    intros s' Hs'. replace (i + Z.of_nat (S n)) with ((i + 1) + Z.of_nat n) by lia.
    apply IH; auto. intros. apply Hb; auto. lia.
Qed.

(** ** Block primitives never fail on blocks *)

Lemma xor1_returns a b dst :
  16 <= len a -> 16 <= len b -> 16 <= len dst ->
  returns (_xor_bytes1x16 a b dst) (fun r => length r = length dst).
Proof.
  intros. unfold _xor_bytes1x16.
  finish (for_range_returns (fun (_ : Z) (r : bytes) => length r = length dst)); auto.
  intros k s Hk Hs.
  do 2 (step getitem_returns; [zlen|]).
  finish setitem_returns; [zlen|]. intuition congruence.
Qed.

Lemma xor4_returns a b c d dst :
  16 <= len a -> 16 <= len b -> 16 <= len c -> 16 <= len d -> 16 <= len dst ->
  returns (_xor_bytes4x16 a b c d dst) (fun r => length r = length dst).
Proof.
  intros. unfold _xor_bytes4x16.
  finish (for_range_returns (fun (_ : Z) (r : bytes) => length r = length dst)); auto.
  intros k s Hk Hs.
  do 4 (step getitem_returns; [zlen|]).
  finish setitem_returns; [zlen|]. intuition congruence.
Qed.

Lemma double_returns p :
  16 <= len p -> returns (_double_block p) (fun r => length r = length p).
Proof.
  intros. unfold _double_block.
  step getitem_returns; [zlen|].
  step (for_range_returns (fun (_ : Z) (r : bytes) => length r = length p)); auto.
  { intros k s Hk Hs.
    do 2 (step getitem_returns; [zlen|]).
    finish setitem_returns; [zlen|]. intuition congruence. }
  step getitem_returns; [zlen|].
  finish setitem_returns; [zlen|]. intuition congruence.
Qed.

Lemma mult_loop_returns fuel : forall x t r,
  0 <= x < 2 ^ Z.of_nat fuel -> len t = 16 -> len r = 16 ->
  returns (mult_loop fuel x t r) (fun r' => len r' = 16).
Proof.
  induction fuel as [|fuel IH]; intros x t r Hx Ht Hr; cbn [mult_loop].
  - change (2 ^ Z.of_nat 0) with 1 in Hx. replace x with 0 by lia. simpl. auto.
  - destruct (Z.eqb_spec x 0); [simpl; auto|].
    eapply returns_bind with (P := fun r' : bytes => len r' = 16).
    { destruct (Z.land x 1 =? 0); [simpl; auto|].
      finish xor1_returns; zlen. }
    intros r' Hr'. step double_returns; [zlen|].
    apply IH; try zlen.
    rewrite Z.shiftr_div_pow2 by lia. change (2 ^ 1) with 2.
    rewrite Nat2Z.inj_succ, Z.pow_succ_r in Hx by lia.
    split; [apply Z.div_pos; lia | apply Z.div_lt_upper_bound; lia].
Qed.

Lemma mult_block_returns x src dst :
  0 <= x -> len src = 16 ->
  returns (_mult_block x src dst) (fun r => len r = 16).
Proof.
  intros Hx Hs. unfold _mult_block. cbv zeta.
  rewrite slice_set_all.
  step mult_loop_returns as r Hr.
  - rewrite Z2Nat.id by lia. split; [lia|]. apply Z.pow_gt_lin_r; lia.
  - exact Hs.
  - reflexivity.
  - simpl. rewrite slice_set_all. auto.
Qed.

Lemma one_zero_pad_returns src size dst :
  0 <= size < len dst -> size <= len src ->
  returns (_one_zero_pad src size dst) (fun r => len r = len dst).
Proof.
  intros Hs Hsrc. unfold _one_zero_pad. cbv zeta.
  rewrite slice_set_all.
  assert (H0 : len (repeat 0 (length dst)) = len dst)
    by (unfold len; now rewrite repeat_length).
  destruct (Z.eqb_spec size 0).
  - finish setitem_returns; [lia|]. destruct H as [_ H]. zlen.
  - assert (H1 : len (slice_set (repeat 0 (length dst)) 0 size (slice_to src size))
                 = len dst).
    { rewrite slice_set_len; auto; try lia. apply slice_len; lia. }
    finish setitem_returns; [lia|]. destruct H as [_ H]. zlen.
Qed.

(** ** The AES round core never fails on blocks *)

Definition wf_aes (a : _AESRound.t) : Prop :=
  len (_AESRound.aes10_key a) = 40 /\ len (_AESRound.aes4_key a) = 16.

Lemma uint32_range x : 0 <= _uint32 x < 2 ^ 32.
Proof.
  unfold _uint32. change 0xFFFFFFFF with (Z.ones 32).
  rewrite Z.land_ones by lia. apply Z.mod_pos_bound. lia.
Qed.

Lemma to_bytes4_returns v :
  0 <= v < 2 ^ 32 -> returns (to_bytes4_be v) (fun b => len b = 4).
Proof.
  intros Hv. unfold to_bytes4_be.
  destruct (Z.leb_spec 0 v); [|lia]. destruct (Z.ltb_spec v (2 ^ 32)); [|lia].
  reflexivity.
Qed.

Lemma write_uint32_returns block off v :
  0 <= v < 2 ^ 32 -> 0 <= off -> off + 4 <= len block ->
  returns (_write_uint32_be block off v) (fun r => len r = len block).
Proof.
  intros. unfold _write_uint32_be. step to_bytes4_returns; auto.
  simpl. apply slice_set_len; lia.
Qed.

Definition u32x4 (s : Z * Z * Z * Z) : Prop :=
  let '(a, b, c, d) := s in
  0 <= a < 2 ^ 32 /\ 0 <= b < 2 ^ 32 /\ 0 <= c < 2 ^ 32 /\ 0 <= d < 2 ^ 32.

Lemma round_returns keys r s :
  0 <= r -> 4 * r + 3 < len keys -> returns (_AESRound.round keys r s) u32x4.
Proof.
  intros. unfold _AESRound.round. destruct s as [[[s0 s1] s2] s3].
  do 4 (step getitem_returns; [lia|]).
  simpl. repeat split; apply uint32_range.
Qed.

Lemma rounds_returns a block n :
  wf_aes a -> n = 4 \/ n = 10 -> 16 <= len block ->
  returns (_AESRound.rounds a block n) (fun r => len r = len block).
Proof.
  intros [H10 H4] Hn Hb. unfold _AESRound.rounds.
  eapply returns_bind.
  { apply (for_range_returns (fun k s => 0 < k -> u32x4 s)); [lia|].
    intros k s Hk _. finish round_returns; auto; try lia.
    destruct Hn; subst n; simpl in *; lia. }
  cbv beta. intros [[[s0 s1] s2] s3] Hs.
  assert (Hs' : u32x4 (s0, s1, s2, s3)) by (apply Hs; destruct Hn; subst n; simpl; lia).
  destruct Hs' as (? & ? & ? & ?).
  step write_uint32_returns; auto; try lia.
  step write_uint32_returns; auto; try lia.
  step write_uint32_returns; auto; try lia.
  finish write_uint32_returns; auto; try lia.
Qed.

Lemma AES4_returns a j i l src dst :
  wf_aes a -> 16 <= len j -> 16 <= len i -> 16 <= len l -> 16 <= len src ->
  16 <= len dst ->
  returns (_AESRound.AES4 a j i l src dst) (fun r => len r = len dst).
Proof.
  intros. unfold _AESRound.AES4. step xor4_returns; auto.
  finish rounds_returns; auto; zlen.
Qed.

Lemma AES10_returns a l src dst :
  wf_aes a -> 16 <= len l -> 16 <= len src -> 16 <= len dst ->
  returns (_AESRound.AES10 a l src dst) (fun r => len r = len dst).
Proof.
  intros. unfold _AESRound.AES10. step xor1_returns; auto.
  finish rounds_returns; auto; zlen.
Qed.

Lemma aes_init_wf key : wf_aes (_AESRound.__init__ key).
Proof. split; reflexivity. Qed.

(** ** Well-formed AEZ states *)

Definition blocks_ok (n : Z) (l : list bytes) : Prop :=
  len l = n /\ Forall (fun b : bytes => len b = 16) l.

Record wf_state (st : _AEZState.t) : Prop := {
  wf_I : blocks_ok 2 (_AEZState.I st);
  wf_J : blocks_ok 3 (_AEZState.J st);
  wf_L : blocks_ok 8 (_AEZState.L st);
  wf_a : exists a, _AEZState.aes st = Some a /\ wf_aes a
}.

Lemma blk_len l n i : blocks_ok n l -> 0 <= i < n -> len (blk l i) = 16.
Proof.
  intros [Hn Hall] Hi. unfold blk.
  rewrite Forall_forall in Hall. apply Hall.
  apply list_elem_of_In, nth_In. zlen.
Qed.

Lemma the_aes_returns st :
  wf_state st -> returns (_AEZState.the_aes st) wf_aes.
Proof.
  intros [_ _ _ (a & Ha & Hwf)]. unfold _AEZState.the_aes. now rewrite Ha.
Qed.

(** ** Closed forms on 16-byte blocks *)

(** [xor16(a, b)] of the specification: bytewise XOR. *)
Definition xor_block (a b : bytes) : bytes := zip_with Z.lxor a b.

Ltac destruct_block a H :=
  do 17 (destruct a as [|? a]; try discriminate H); clear H.

Lemma xor16_eq a b dst :
  length a = 16%nat -> length b = 16%nat -> length dst = 16%nat ->
  _xor_bytes1x16 a b dst = Ok (xor_block a b).
Proof.
  intros Ha Hb Hd.
  destruct_block a Ha. destruct_block b Hb. destruct_block dst Hd.
  reflexivity.
Qed.

Lemma xor_block_zero_l (d : bytes) n :
  length d = n -> xor_block (repeat 0 n) d = d.
Proof.
  revert n. induction d as [|x d IH]; intros [|n] H; try discriminate; auto.
  simpl. f_equal. apply IH. simpl in H. lia.
Qed.

Lemma xor_block_len a b :
  len a = 16 -> len b = 16 -> len (xor_block a b) = 16.
Proof. intros. unfold xor_block, len in *. rewrite length_zip_with. lia. Qed.

Lemma mult2_double src dst d :
  len src = 16 -> _double_block src = Ok d -> _mult_block 2 src dst = Ok d.
Proof.
  intros Hs Hd.
  assert (Hlen : len d = 16).
  { pose proof (double_returns src ltac:(lia)) as H. rewrite Hd in H. simpl in H. zlen. }
  unfold _mult_block. cbv zeta. rewrite slice_set_all.
  change (Z.to_nat 2) with 2%nat. cbn [mult_loop].
  change (2 =? 0) with false. change (Z.land 2 1 =? 0) with true. cbv iota.
  cbn [bind]. rewrite Hd. cbn [bind]. change (Z.shiftr 2 1) with 1.
  change (1 =? 0) with false. change (Z.land 1 1 =? 0) with false. cbv iota.
  rewrite xor16_eq by (auto; zlen). cbn [bind].
  change (_mk_block BLOCK_SIZE) with (repeat 0 16).
  rewrite xor_block_zero_l by zlen.
  destruct (returns_inv _ _ (double_returns d ltac:(lia))) as (d' & -> & _).
  cbn [bind]. change (Z.shiftr 1 1) with 0. change (0 =? 0) with true. cbv iota.
  cbn [bind]. now rewrite slice_set_all.
Qed.

(** ** The key schedule *)

(** The invariants of the AEZ state after [init], over the extracted key. *)
Definition key_schedule (extracted : bytes) (st : _AEZState.t) : Prop :=
  exists I0 I1 J0 J1 J2 L1 L2 L3 L4 L5 L6 L7,
    _AEZState.I st = [I0; I1] /\
    _AEZState.J st = [J0; J1; J2] /\
    _AEZState.L st = [repeat 0 16; L1; L2; L3; L4; L5; L6; L7] /\
    I0 = slice extracted 0 16 /\ _double_block I0 = Ok I1 /\
    J0 = slice extracted 16 32 /\ _double_block J0 = Ok J1 /\
    _double_block J1 = Ok J2 /\
    L1 = slice extracted 32 48 /\ _double_block L1 = Ok L2 /\
    L3 = xor_block L2 L1 /\ _double_block L2 = Ok L4 /\
    L5 = xor_block L4 L1 /\ _double_block L3 = Ok L6 /\
    L7 = xor_block L6 L1.

Lemma extract_key_len `{Hashlib} key : len (_extract_key key) = 48.
Proof.
  unfold _extract_key, EXTRACTED_KEY_SIZE, BLOCK_SIZE.
  destruct (Z.eqb_spec (len key) (3 * 16)); [lia|].
  apply blake2b_length. lia.
Qed.

Lemma double_inv p :
  len p = 16 -> exists d, _double_block p = Ok d /\ len d = 16.
Proof.
  intros Hp. destruct (returns_inv _ _ (double_returns p ltac:(lia))) as (d & Hd & Hl).
  exists d. split; auto. zlen.
Qed.

Lemma init_schedule `{Hashlib} key :
  exists st, _AEZState.init _AEZState.__init__ key = Ok st /\
             key_schedule (_extract_key key) st /\ wf_state st.
Proof.
  pose proof (extract_key_len key) as He.
  set (e := _extract_key key) in *.
  assert (HI0 : len (slice e 0 16) = 16) by (apply slice_len; lia).
  assert (HJ0 : len (slice e 16 32) = 16) by (rewrite slice_len; lia).
  assert (HL1 : len (slice e 32 48) = 16) by (rewrite slice_len; lia).
  destruct (double_inv _ HI0) as (I1 & HI1 & HI1l).
  destruct (double_inv _ HJ0) as (J1 & HJ1 & HJ1l).
  destruct (double_inv _ HJ1l) as (J2 & HJ2 & HJ2l).
  destruct (double_inv _ HL1) as (L2 & HL2 & HL2l).
  destruct (double_inv _ HL2l) as (L4 & HL4 & HL4l).
  pose proof (xor_block_len _ _ HL2l HL1) as HL3l.
  destruct (double_inv _ HL3l) as (L6 & HL6 & HL6l).
  pose proof (xor_block_len _ _ HL4l HL1) as HL5l.
  pose proof (xor_block_len _ _ HL6l HL1) as HL7l.
  eexists. split; [|split].
  - unfold _AEZState.init. cbv zeta. fold e.
    cbn [_AEZState.__init__ _AEZState.I _AEZState.J _AEZState.L blk nth Z.to_nat
         Pos.to_nat Pos.iter_op Nat.add repeat].
    change (Z.to_nat 0) with 0%nat. change (Z.to_nat 1) with 1%nat.
    cbn [nth]. rewrite !slice_set_all.
    rewrite (mult2_double _ _ _ HI0 HI1). cbn [bind].
    rewrite (mult2_double _ _ _ HJ0 HJ1). cbn [bind].
    rewrite (mult2_double _ _ _ HJ1l HJ2). cbn [bind].
    rewrite (mult2_double _ _ _ HL1 HL2). cbn [bind].
    rewrite xor16_eq by (try reflexivity; zlen). cbn [bind].
    rewrite (mult2_double _ _ _ HL2l HL4). cbn [bind].
    rewrite xor16_eq by (try reflexivity; zlen). cbn [bind].
    rewrite (mult2_double _ _ _ HL3l HL6). cbn [bind].
    rewrite xor16_eq by (try reflexivity; zlen). cbn [bind].
    reflexivity.
  - exists (slice e 0 16), I1, (slice e 16 32), J1, J2, (slice e 32 48), L2,
      (xor_block L2 (slice e 32 48)), L4, (xor_block L4 (slice e 32 48)), L6,
      (xor_block L6 (slice e 32 48)).
    repeat split; auto.
  - split; cbn.
    + split; [reflexivity|]. repeat constructor; auto.
    + split; [reflexivity|]. repeat constructor; auto.
    + split; [reflexivity|]. repeat constructor; auto.
    + eexists. split; [reflexivity|]. apply aes_init_wf.
Qed.

(** ** AEZ-hash and AEZ-PRF never fail *)

Ltac wf_blk st Hwf :=
  first [ apply (blk_len _ _ _ (wf_I st Hwf))
        | apply (blk_len _ _ _ (wf_J st Hwf))
        | apply (blk_len _ _ _ (wf_L st Hwf)) ].

(** Side conditions of the stepping lemmas: the length of a block. *)
Ltac blk_len16 st Hwf :=
  match goal with
  | |- 16 <= len _ => cut_len st Hwf
  | |- len _ = 16 => cut_len st Hwf
  end
with cut_len st Hwf :=
  first
    [ lia
    | zlen
    | match goal with
      | |- context [len (blk ?l ?i)] =>
          let H := fresh in
          assert (H : len (blk l i) = 16)
            by (wf_blk st Hwf; first [lia | apply Z.mod_pos_bound; lia]);
          lia
      end
    | match goal with
      | |- context [len (_mk_block ?n)] =>
          rewrite (mk_block_len n) by (unfold BLOCK_SIZE; lia);
          unfold BLOCK_SIZE; lia
      end ].

Lemma absorb_returns st a Jb data (Hwf : wf_state st) (Ha : wf_aes a) :
  len Jb = 16 ->
  forall fuel n_bytes offset i I_tmp buf sum_block,
    0 <= n_bytes <= Z.of_nat fuel -> 0 <= offset -> offset + n_bytes <= len data ->
    len I_tmp = 16 -> len buf = 16 -> len sum_block = 16 ->
    returns (_AEZState.absorb fuel st a Jb data n_bytes offset i I_tmp buf sum_block)
      (fun '(n', off', I', buf', sum') =>
         0 <= n' < 16 /\ 0 <= off' /\ off' + n' = offset + n_bytes /\
         len I' = 16 /\ len buf' = 16 /\ len sum' = 16).
Proof.
  intros HJ. induction fuel as [|fuel IH];
    intros n_bytes offset i I_tmp buf sum_block Hn Ho Hd HI Hb Hs;
    cbn [_AEZState.absorb]; unfold BLOCK_SIZE.
  - destruct (Z.ltb_spec n_bytes 16); [|lia]. simpl. lia.
  - destruct (Z.ltb_spec n_bytes 16); [simpl; lia|]. cbv zeta.
    assert (Hblock : len (slice data offset (offset + 16)) = 16)
      by (rewrite slice_len; lia).
    rewrite (slice_set_block (_mk_block 16)) by (auto; apply mk_block_len; lia).
    step AES4_returns; auto; try blk_len16 st Hwf.
    step xor1_returns; try blk_len16 st Hwf.
    eapply returns_bind with (P := fun I' : bytes => len I' = 16).
    { destruct (i mod 8 =? 0); [|simpl; auto].
      finish double_returns; zlen. }
    intros I' HI'. eapply returns_mono; [apply IH; zlen|].
    intros [[[[n' off'] I''] buf'] sum']. lia.
Qed.

Lemma absorb_last_returns st a Jb data empty present n_bytes offset buf sum_block
    (Hwf : wf_state st) (Ha : wf_aes a) :
  len Jb = 16 -> 0 <= n_bytes < 16 -> 0 <= offset ->
  (present = true -> offset + n_bytes <= len data) ->
  len buf = 16 -> len sum_block = 16 ->
  returns (_AEZState.absorb_last st a Jb data empty present n_bytes offset
             buf sum_block)
    (fun '(buf', sum') => len buf' = 16 /\ len sum' = 16).
Proof.
  intros HJ Hn Ho Hp Hb Hs. unfold _AEZState.absorb_last.
  destruct ((0 <? n_bytes) || empty); [|simpl; auto]. cbv zeta.
  rewrite slice_set_all.
  set (buf0 := if present then _ else _).
  assert (Hbuf0 : len buf0 = 16).
  { subst buf0. unfold BLOCK_SIZE. destruct present; [|reflexivity].
    assert (Hz : len (repeat 0 (Z.to_nat 16)) = 16) by reflexivity.
    rewrite slice_set_len; auto; try lia.
    rewrite slice_len; lia. }
  step setitem_returns; [lia|]. destruct H as [_ H].
  step AES4_returns; auto; try blk_len16 st Hwf.
  step xor1_returns; try blk_len16 st Hwf.
  simpl. zlen.
Qed.

Lemma absorb_ad_returns st a (Hwf : wf_state st) (Ha : wf_aes a) :
  forall ad k I_tmp buf sum_block,
    0 <= k -> len buf = 16 -> len sum_block = 16 ->
    returns (_AEZState.absorb_ad st a ad k I_tmp buf sum_block)
      (fun r => len r = 16).
Proof.
  induction ad as [|piece ad IH]; intros k I_tmp buf sum_block Hk Hb Hs;
    cbn [_AEZState.absorb_ad]; [exact Hs|]. cbv zeta.
  rewrite slice_set_all.
  step mult_block_returns as J2 HJ2; try lia; try blk_len16 st Hwf.
  assert (Hbl : (if len piece =? 0 then 0 else len piece) = len piece)
    by (destruct (Z.eqb_spec (len piece) 0); lia).
  rewrite Hbl.
  step absorb_returns as [[[[n' off'] I'] buf'] sum'] (? & ? & ? & ? & ? & ?);
    auto; try zlen; try blk_len16 st Hwf.
  step absorb_last_returns as [buf'' sum''] [? ?]; auto; try lia.
  apply IH; auto. lia.
Qed.

Lemma aez_hash_returns st nonce ad tau :
  wf_state st ->
  returns (_AEZState.aez_hash st nonce ad tau) (fun delta => len delta = 16).
Proof.
  intros Hwf. unfold _AEZState.aez_hash.
  step the_aes_returns as a Ha; auto. cbv zeta.
  step to_bytes4_returns as tb Htb; [apply uint32_range|].
  step xor1_returns as Jt HJt; try blk_len16 st Hwf.
  assert (Hbuf : len (slice_set (_mk_block BLOCK_SIZE) 12 16 tb) = 16).
  { assert (Hz : len (_mk_block BLOCK_SIZE) = 16) by reflexivity.
    rewrite slice_set_len; lia. }
  step AES4_returns as sum0 Hsum0; auto; try blk_len16 st Hwf.
  rewrite slice_set_all.
  set (data := default [] nonce).
  assert (Hbl : (if len data =? 0 then 0 else len data) = len data)
    by (destruct (Z.eqb_spec (len data) 0); lia).
  rewrite Hbl.
  step absorb_returns as [[[[n' off'] I'] buf'] sum'] (? & ? & ? & ? & ? & ?);
    auto; try zlen; try blk_len16 st Hwf.
  step absorb_last_returns as [buf'' sum''] [? ?]; auto; try lia;
    try blk_len16 st Hwf.
  apply absorb_ad_returns; auto. lia.
Qed.

Lemma ctr_incr_returns n : forall ctr,
  (n <= 16)%nat -> len ctr = 16 ->
  returns (_AEZState.ctr_incr n ctr) (fun r => len r = 16).
Proof.
  induction n as [|n IH]; intros ctr Hn Hc; cbn [_AEZState.ctr_incr]; auto.
  step getitem_returns as c Hc'; [lia|].
  step setitem_returns as ctr' [_ Hctr']; [lia|].
  step getitem_returns as c' Hc''; [zlen|].
  destruct (c' =? 0); [apply IH; zlen | simpl; zlen].
Qed.

Lemma prf_loop_returns st a delta (Hwf : wf_state st) (Ha : wf_aes a) :
  16 <= len delta ->
  forall fuel off remaining buf ctr dst,
    0 <= remaining <= Z.of_nat fuel -> 0 <= off -> off + remaining <= len dst ->
    len buf = 16 -> len ctr = 16 ->
    returns (_AEZState.prf_loop fuel st a delta off remaining buf ctr dst)
      (fun '(off', rem', buf', ctr', dst') =>
         0 <= rem' < 16 /\ 0 <= off' /\ off' + rem' = off + remaining /\
         len buf' = 16 /\ len ctr' = 16 /\ len dst' = len dst).
Proof.
  intros Hd. induction fuel as [|fuel IH];
    intros off remaining buf ctr dst Hr Ho Hl Hb Hc;
    cbn [_AEZState.prf_loop]; unfold BLOCK_SIZE.
  - destruct (Z.ltb_spec remaining 16); [|lia]. simpl. lia.
  - destruct (Z.ltb_spec remaining 16); [simpl; lia|].
    step xor1_returns as b1 Hb1; try lia.
    step AES10_returns as b2 Hb2; auto; try blk_len16 st Hwf.
    cbv zeta.
    step ctr_incr_returns as c1 Hc1; auto.
    assert (Hdst : len (slice_set dst off (off + 16) b2) = len dst)
      by (rewrite slice_set_len; zlen).
    eapply returns_mono; [apply IH; zlen|].
    intros [[[[off' rem'] buf'] ctr'] dst']. lia.
Qed.

Lemma aez_prf_returns st delta tau dst :
  wf_state st -> 16 <= len delta -> 0 <= tau <= len dst ->
  returns (_AEZState.aez_prf st delta tau dst) (fun r => len r = len dst).
Proof.
  intros Hwf Hd Ht. unfold _AEZState.aez_prf.
  step the_aes_returns as a Ha; auto. cbv zeta.
  step prf_loop_returns as [[[[off rem] buf] ctr] dst'] (? & ? & ? & ? & ? & ?);
    auto; try lia; try (apply mk_block_len; unfold BLOCK_SIZE; lia).
  destruct (Z.ltb_spec 0 rem); [|simpl; auto].
  step xor1_returns as b1 Hb1; try lia.
  step AES10_returns as b2 Hb2; auto; try blk_len16 st Hwf.
  simpl. rewrite slice_set_len; try lia. unfold slice_to. rewrite slice_len; zlen.
Qed.

(** ** Lengths of slices *)

Lemma clamp_nonneg n i : 0 <= i -> clamp n i = Z.min i n.
Proof. intros. unfold clamp. destruct (Z.ltb_spec i 0); lia. Qed.

Lemma slice_len_nn {A} (l : list A) i j :
  0 <= i -> 0 <= j ->
  len (slice l i j) = Z.max 0 (Z.min j (len l) - Z.min i (len l)).
Proof.
  intros. unfold slice. rewrite !clamp_nonneg by auto.
  unfold len. rewrite length_firstn, length_skipn. lia.
Qed.

Lemma slice_set_len_nn {A} (l v : list A) i j :
  0 <= i -> 0 <= j ->
  len (slice_set l i j v) =
  Z.min i (len l) + len v + (len l - Z.max (Z.min i (len l)) (Z.min j (len l))).
Proof.
  intros. unfold slice_set. rewrite !clamp_nonneg by auto.
  unfold len. rewrite !length_app, length_firstn, length_skipn. lia.
Qed.

Lemma repeat_len {A} (x : A) n : len (repeat x n) = Z.of_nat n.
Proof. unfold len. now rewrite repeat_length. Qed.

Lemma len_nonneg {A} (l : list A) : 0 <= len l.
Proof. unfold len. lia. Qed.

Lemma insert_len {A} (l : list A) i x : len (<[i := x]> l) = len l.
Proof. unfold len. now rewrite length_insert. Qed.

Ltac arith := first [ lia | Z.div_mod_to_equations; lia ].

(** [lens] settles a goal of linear arithmetic over lengths of slices. *)
Ltac lens_rw :=
  unfold slice_from, slice_to, ZERO_BLOCK, _mk_block, BLOCK_SIZE in *;
  repeat first
    [ rewrite slice_len_nn by arith
    | rewrite slice_set_len_nn by arith
    | rewrite repeat_len
    | rewrite insert_len ].

Ltac lens_rw_in H :=
  unfold slice_from, slice_to, ZERO_BLOCK, _mk_block, BLOCK_SIZE in H;
  repeat first
    [ rewrite slice_len_nn in H by arith
    | rewrite slice_set_len_nn in H by arith
    | rewrite repeat_len in H
    | rewrite insert_len in H ].

Ltac lens :=
  repeat match goal with
         | H : len _ = _ |- _ => progress lens_rw_in H
         end;
  lens_rw; arith.

Lemma skipn_slice_set {A} (l v : list A) i j m :
  0 <= i <= j -> j <= len l -> len v = j - i -> j <= Z.of_nat m ->
  skipn m (slice_set l i j v) = skipn m l.
Proof.
  intros Hij Hj Hv Hm. unfold slice_set. rewrite !clamp_nonneg by lia.
  rewrite Z.min_l, Z.min_l, Z.max_r by lia.
  rewrite !skipn_app.
  rewrite (skipn_all2 (firstn _ _)) by (rewrite length_firstn; unfold len in *; lia).
  rewrite (skipn_all2 v) by (rewrite length_firstn; unfold len in *; lia).
  simpl. rewrite skipn_skipn. f_equal.
  rewrite length_firstn. unfold len in *. lia.
Qed.

Lemma frame_bound_step offset remaining m :
  64 <= remaining ->
  offset + remaining - 32 - remaining mod 32 <= m ->
  (offset + 32) + (remaining - 32) - 32 - (remaining - 32) mod 32 <= m /\
  offset + 32 <= m.
Proof. intros. arith. Qed.

(** Lengths are stated with [len]. *)
Lemma xor1_len a b dst :
  16 <= len a -> 16 <= len b -> 16 <= len dst ->
  returns (_xor_bytes1x16 a b dst) (fun r => len r = len dst).
Proof. intros. finish xor1_returns; auto. zlen. Qed.

Lemma xor4_len a b c d dst :
  16 <= len a -> 16 <= len b -> 16 <= len c -> 16 <= len d -> 16 <= len dst ->
  returns (_xor_bytes4x16 a b c d dst) (fun r => len r = len dst).
Proof. intros. finish xor4_returns; auto. zlen. Qed.

Lemma double_len p :
  16 <= len p -> returns (_double_block p) (fun r => len r = len p).
Proof. intros. finish double_returns; auto. zlen. Qed.

Lemma setitem_len l i v :
  0 <= i < len l -> returns (setitem l i v) (fun r => len r = len l).
Proof. intros. finish setitem_returns; auto. destruct H0. zlen. Qed.

Lemma getitem_any l i :
  0 <= i < len l -> returns (getitem l i) (fun _ => True).
Proof. intros. finish getitem_returns; auto. Qed.

(** [buf[idx] ^= fragment[idx]] for [idx] in [range(n)]. *)
Lemma xor_fragment_returns n (buf fragment : bytes) :
  Z.of_nat n <= len buf -> Z.of_nat n <= len fragment ->
  returns
    (for_range n 0
       (fun idx buf =>
          x <- getitem buf idx ;;
          y <- getitem fragment idx ;;
          setitem buf idx (Z.lxor x y))
       buf)
    (fun r => len r = len buf).
Proof.
  intros Hb Hf.
  finish (for_range_returns (fun (_ : Z) (r : bytes) => len r = len buf)); auto.
  intros k s Hk Hs.
  step getitem_any as x Hx; [lia|].
  step getitem_any as y Hy; [lia|].
  finish setitem_len; lia.
Qed.

(** ** aez-core: totality and the part of [dst] it writes *)

Ltac blen st Hwf :=
  first
    [ lens
    | match goal with
      | |- context [len (blk ?l ?i)] =>
          let H := fresh in
          assert (H : len (blk l i) = 16)
            by (wf_blk st Hwf; first [lia | apply Z.mod_pos_bound; lia]);
          lens
      end ].

Lemma double_if_len (c : bool) (I_tmp : bytes) :
  len I_tmp = 16 ->
  returns (if c then _double_block I_tmp else Ok I_tmp) (fun r => len r = 16).
Proof. intros. destruct c; [finish double_len; lia | simpl; auto]. Qed.

Lemma pass1_loop_returns st a input_bytes (Hwf : wf_state st) (Ha : wf_aes a) :
  forall fuel offset remaining i tmp I_tmp output X,
    0 <= offset -> 0 <= remaining <= Z.of_nat fuel ->
    offset + remaining = len input_bytes -> len input_bytes <= len output ->
    len tmp = 16 -> len I_tmp = 16 -> len X = 16 ->
    returns (_AEZState.pass1_loop fuel st a input_bytes offset remaining i
               tmp I_tmp output X)
      (fun '(output', X') =>
         len output' = len output /\ len X' = 16 /\
         forall m, offset + remaining - 32 - remaining mod 32 <= Z.of_nat m ->
                   0 <= remaining - 32 ->
                   skipn m output' = skipn m output).
Proof.
  induction fuel as [|fuel IH];
    intros offset remaining i tmp I_tmp output X Ho Hr Hsum Hout Ht HI HX;
    cbn [_AEZState.pass1_loop].
  - destruct (Z.ltb_spec remaining 64); [|lia]. simpl. auto.
  - destruct (Z.ltb_spec remaining 64); [simpl; auto|]. cbv zeta.
    step AES4_returns as tmp1 Htmp1; auto; try blen st Hwf.
    step xor1_len as first_out Hfirst; try lens.
    step AES4_returns as tmp2 Htmp2; auto; try blen st Hwf.
    step xor1_len as second_out Hsecond; try lens.
    step xor1_len as X1 HX1; try lens.
    step double_if_len as I1 HI1; [lia|].
    assert (Hf : len first_out = 16) by lens.
    assert (Hs : len second_out = 16) by lens.
    set (out1 := slice_set output offset (offset + BLOCK_SIZE) first_out).
    set (out2 := slice_set out1 (offset + BLOCK_SIZE) (offset + BLOCK_SIZE * 2)
                   second_out).
    assert (Ho1 : len out1 = len output) by (subst out1; lens).
    assert (Ho2 : len out2 = len output) by (subst out2; lens).
    eapply returns_mono; [apply IH; lens|].
    intros [output' X'] (Hl & HX' & Hfr). repeat split; try lia.
    intros m Hm _.
    destruct (frame_bound_step offset remaining (Z.of_nat m) H Hm) as [Hm1 Hm2].
    rewrite Hfr by lia.
    subst out2. rewrite skipn_slice_set; unfold BLOCK_SIZE; try lia.
    subst out1. rewrite skipn_slice_set; unfold BLOCK_SIZE; try lia. auto.
Qed.

Lemma pass2_loop_returns st a (Hwf : wf_state st) (Ha : wf_aes a) :
  forall fuel offset remaining i tmp I_tmp output Y S,
    0 <= offset -> 0 <= remaining <= Z.of_nat fuel ->
    offset + remaining <= len output ->
    len tmp = 16 -> len I_tmp = 16 -> len Y = 16 -> len S = 16 ->
    returns (_AEZState.pass2_loop fuel st a offset remaining i
               tmp I_tmp output Y S)
      (fun '(output', Y') =>
         len output' = len output /\ len Y' = 16 /\
         forall m, offset + remaining - 32 - remaining mod 32 <= Z.of_nat m ->
                   0 <= remaining - 32 ->
                   skipn m output' = skipn m output).
Proof.
  induction fuel as [|fuel IH];
    intros offset remaining i tmp I_tmp output Y S Ho Hr Hout Ht HI HY HS;
    cbn [_AEZState.pass2_loop].
  - destruct (Z.ltb_spec remaining 64); [|lia]. simpl. auto.
  - destruct (Z.ltb_spec remaining 64); [simpl; auto|]. cbv zeta.
    step AES4_returns as tmp1 Htmp1; auto; try blen st Hwf.
    step xor1_len as f1 Hf1; try lens.
    step xor1_len as s1 Hs1; try lens.
    step xor1_len as Y1 HY1; try lens.
    step AES4_returns as tmp2 Htmp2; auto; try blen st Hwf.
    step xor1_len as f2 Hf2; try lens.
    step AES4_returns as tmp3 Htmp3; auto; try blen st Hwf.
    step xor1_len as s2 Hs2; try lens.
    rewrite !slice_set_all.
    step double_if_len as I1 HI1; [lia|].
    assert (Hf : len f2 = 16) by lens.
    assert (Hs : len s2 = 16) by lens.
    set (out1 := slice_set output offset (offset + BLOCK_SIZE) s2).
    set (out2 := slice_set out1 (offset + BLOCK_SIZE) (offset + BLOCK_SIZE * 2) f2).
    assert (Ho1 : len out1 = len output) by (subst out1; lens).
    assert (Ho2 : len out2 = len output) by (subst out2; lens).
    eapply returns_mono; [apply IH; lens|].
    intros [output' Y'] (Hl & HY' & Hfr). repeat split; try lia.
    intros m Hm _.
    destruct (frame_bound_step offset remaining (Z.of_nat m) H Hm) as [Hm1 Hm2].
    rewrite Hfr by lia.
    subst out2. rewrite skipn_slice_set; unfold BLOCK_SIZE; try lia.
    subst out1. rewrite skipn_slice_set; unfold BLOCK_SIZE; try lia. auto.
Qed.

Lemma aez_core_returns st delta data direction dst :
  wf_state st -> 16 <= len delta -> 32 <= len data -> len data <= len dst ->
  returns (_AEZState.aez_core st delta data direction dst)
    (fun r =>
       len r = len dst /\
       skipn (Z.to_nat (len data - 32 - len data mod 32)) r =
       skipn (Z.to_nat (len data - 32 - len data mod 32)) dst).
Proof.
  intros Hwf Hdelta Hn Hdst. unfold _AEZState.aez_core.
  step the_aes_returns as a Ha; auto. cbv zeta.
  set (n := len data) in *.
  assert (Hfrag : 0 <= n mod 32 < 32) by (apply Z.mod_pos_bound; lia).
  assert (Hinit : 0 <= n - n mod 32 - 32) by arith.
  set (frag := n mod 32) in *.
  pose (P1 := fun r : bytes * bytes =>
                let '(dst1, X1) := r in
                len dst1 = len dst /\ len X1 = 16 /\
                skipn (Z.to_nat (n - 32 - frag)) dst1 =
                skipn (Z.to_nat (n - 32 - frag)) dst).
  eapply returns_bind with (P := P1).
  { subst P1. destruct (Z.leb_spec 64 n); [|simpl; auto].
    unfold _AEZState.aez_core_pass1.
    step the_aes_returns as a' Ha'; auto. cbv zeta. rewrite slice_set_all.
    eapply returns_mono.
    - apply pass1_loop_returns; auto; try blen st Hwf; try zlen.
    - intros [dst1 X1] (? & ? & Hfr). repeat split; auto.
      apply Hfr; fold n; fold frag; lia. }
  subst P1. intros [dst1 X1] (Hdst1 & HX1 & Hfr1). cbv beta iota.
  set (tail := slice_from data (n - frag - 32)).
  assert (Htail : len tail = frag + 32) by (subst tail; fold n; lens).
  eapply returns_bind with
    (P := fun r : bytes * bytes => let '(t, X) := r in len t = 16 /\ len X = 16).
  { destruct (Z.leb_spec BLOCK_SIZE frag); [|destruct (Z.ltb_spec 0 frag)].
    - rewrite slice_set_block by lens.
      step AES4_returns as tmp1 Htmp1; auto; try blen st Hwf.
      step xor1_len as X2 HX2; try lens.
      step one_zero_pad_returns as padded Hpadded; try lens.
      step AES4_returns as tmp2 Htmp2; auto; try blen st Hwf.
      step xor1_len as X3 HX3; try lens.
      simpl. split; lens.
    - step one_zero_pad_returns as padded Hpadded; try lens.
      step AES4_returns as tmp1 Htmp1; auto; try blen st Hwf.
      step xor1_len as X2 HX2; try lens.
      simpl. split; lens.
    - simpl. split; [reflexivity | auto]. }
  intros [tmp X] [Htmp HX]. cbv beta iota.
  set (input_tail := slice data (n - 32) n).
  assert (Hit : len input_tail = 32) by (subst input_tail; fold n; lens).
  rewrite !slice_set_block by lens.
  assert (Hdir1 : 0 <= (1 + direction) mod 8 < 8) by (apply Z.mod_pos_bound; lia).
  assert (Hdir2 : 0 <= (2 - direction) mod 8 < 8) by (apply Z.mod_pos_bound; lia).
  assert (HL1 : len (blk (_AEZState.L st) ((1 + direction) mod 8)) = 16)
    by (wf_blk st Hwf; lia).
  assert (HL2 : len (blk (_AEZState.L st) ((2 - direction) mod 8)) = 16)
    by (wf_blk st Hwf; lia).
  step AES4_returns as tmp3 Htmp3; auto; try blen st Hwf.
  step xor4_len as first_dst Hfd; try lens.
  step AES10_returns as tmp2 Htmp2; auto; try lens.
  step xor1_len as second_dst Hsd; try lens.
  step xor1_len as S HS; try lens.
  pose (P2 := fun r : bytes * bytes =>
                let '(dst2, Y2) := r in
                len dst2 = len dst /\ len Y2 = 16 /\
                skipn (Z.to_nat (n - 32 - frag)) dst2 =
                skipn (Z.to_nat (n - 32 - frag)) dst).
  eapply returns_bind with (P := P2).
  { subst P2. destruct (Z.leb_spec 64 n); [|simpl; auto].
    unfold _AEZState.aez_core_pass2.
    step the_aes_returns as a' Ha'; auto. cbv zeta. rewrite slice_set_all.
    eapply returns_mono.
    - apply pass2_loop_returns; auto; try blen st Hwf; try zlen.
    - intros [dst2 Y2] (? & ? & Hfr). repeat split; try lia.
      rewrite Hfr by (fold n; fold frag; lia). exact Hfr1. }
  subst P2. intros [dst2 Y] (Hdst2 & HY & Hfr2). cbv beta iota.
  set (dst_fragment := slice_from dst2 (n - frag - 32)).
  set (input_fragment := slice_from data (n - frag - 32)).
  assert (Hdf : frag + 32 <= len dst_fragment) by (subst dst_fragment; lens).
  assert (Hif : len input_fragment = frag + 32)
    by (subst input_fragment; fold n; lens).
  eapply returns_bind with
    (P := fun r : bytes * bytes => let '(t, Y) := r in len t = 16 /\ len Y = 16).
  { destruct (Z.leb_spec BLOCK_SIZE frag); [|destruct (Z.ltb_spec 0 frag)].
    - step AES10_returns as tb1 Htb1; auto; try blen st Hwf.
      step xor1_len as block Hblock; try lens.
      step AES4_returns as tmp4 Htmp4; auto; try blen st Hwf.
      step xor1_len as Y1 HY1; try lens.
      step AES10_returns as tb2 Htb2; auto; try blen st Hwf.
      step xor_fragment_returns as buf Hbuf; try lens.
      rewrite slice_set_all.
      assert (Hblk : len block = 16) by lens.
      assert (Hbf : len buf = 16) by lens.
      clear Hblock Hbuf.
      set (df1 := slice_set dst_fragment 0 _ block).
      assert (Hdf1 : len df1 = len dst_fragment) by (subst df1; lens).
      set (df2 := slice_set df1 _ _ _).
      assert (Hdf2 : len df2 = len dst_fragment) by (subst df2; lens).
      set (b3 := slice_set (repeat 0 _) 0 _ _).
      assert (Hb3 : len b3 = 16) by (subst b3; lens).
      clearbody df1 df2 b3.
      step setitem_len as buf2 Hbuf2; [unfold BLOCK_SIZE in *; lia|].
      step AES4_returns as tmp5 Htmp5; auto; try blen st Hwf.
      step xor1_len as Y2 HY2; try lens.
      simpl. split; lens.
    - step AES10_returns as tb1 Htb1; auto; try blen st Hwf.
      step xor_fragment_returns as buf Hbuf; try lens.
      rewrite slice_set_all.
      assert (Hbf : len buf = 16) by lens.
      clear Hbuf.
      set (df1 := slice_set dst_fragment 0 _ _).
      assert (Hdf1 : len df1 = len dst_fragment) by (subst df1; lens).
      set (b3 := slice_set (repeat 0 _) 0 _ _).
      assert (Hb3 : len b3 = 16) by (subst b3; lens).
      clearbody df1 b3.
      step setitem_len as buf2 Hbuf2; [unfold BLOCK_SIZE in *; lia|].
      step AES4_returns as tmp5 Htmp5; auto; try blen st Hwf.
      step xor1_len as Y2 HY2; try lens.
      simpl. split; lens.
    - simpl. split; lens. }
  intros [tmp6 Y3] [Htmp6 HY3]. cbv beta iota.
  set (dst_tail := slice dst2 (n - 32) n).
  assert (Hdt : len dst_tail = 32) by (subst dst_tail; lens).
  step AES10_returns as tb3 Htb3; auto; try lens.
  step xor1_len as first_half Hfh; try lens.
  step AES4_returns as tmp7 Htmp7; auto; try blen st Hwf.
  step xor4_len as combined Hcomb; try lens.
  simpl. split; [lia|].
  replace (n - 32 - frag) with (n - 32 - frag) in * by lia. exact Hfr2.
Qed.

(** ** aez-tiny never fails *)

Lemma for_range_keeps {St} (P : St -> Prop) n i body (s : St) :
  P s ->
  (forall k s, i <= k < i + Z.of_nat n -> P s ->
               returns (E:=builtin_error) (body k s) P) ->
  returns (for_range n i body s) P.
Proof. intros. apply (for_range_returns (fun _ => P)); auto. Qed.

Lemma for_down_keeps {St} (P : St -> Prop) n i body (s : St) :
  P s ->
  (forall k s, i <= k < i + Z.of_nat n -> P s ->
               returns (E:=builtin_error) (body k s) P) ->
  returns (_AEZState.for_down n i body s) P.
Proof.
  revert s. induction n as [|n IH]; intros s Hs Hb; cbn [_AEZState.for_down]; auto.
  eapply returns_bind. { apply Hb; [lia | exact Hs]. }
  intros s' Hs'. apply IH; auto. intros. apply Hb; auto. lia.
Qed.

Lemma view_len buf : len buf = 32 -> len (_AEZState.view buf) = 16.
Proof. intros. unfold _AEZState.view. lens. Qed.

Lemma view_set_len buf v :
  len buf = 32 -> len v = 16 -> len (_AEZState.view_set buf v) = 32.
Proof. intros. unfold _AEZState.view_set. lens. Qed.

Lemma tiny_sign_returns st a delta buf tmp (Hwf : wf_state st) (Ha : wf_aes a) :
  16 <= len delta -> len buf = 32 -> len tmp = 16 ->
  returns (_AEZState.tiny_sign st a delta buf tmp)
    (fun '(buf', tmp') => len buf' = 32 /\ len tmp' = 16).
Proof.
  intros Hd Hb Ht. unfold _AEZState.tiny_sign.
  step getitem_any as b0 Hb0; [lia|].
  step setitem_len as buf1 Hbuf1; [lia|].
  assert (Hv1 : len (_AEZState.view buf1) = 16) by (apply view_len; lia).
  step xor1_len as v Hv; try lia.
  assert (Hb2 : len (_AEZState.view_set buf1 v) = 32)
    by (apply view_set_len; lia).
  assert (Hv2 : len (_AEZState.view (_AEZState.view_set buf1 v)) = 16)
    by (apply view_len; lia).
  step AES4_returns as tmp1 Htmp1; auto; try blen st Hwf.
  simpl. split; lia.
Qed.

Lemma tiny_half_returns st a delta in_bytes left_len mask pad idx_param j
    src acc buf tmp (Hwf : wf_state st) (Ha : wf_aes a) :
  16 <= len delta -> 0 <= in_bytes < 32 -> 0 <= left_len <= 16 ->
  0 <= idx_param < 8 ->
  len src = 16 -> len acc = 16 -> len buf = 32 -> len tmp = 16 ->
  returns (_AEZState.tiny_half st a delta in_bytes left_len mask pad idx_param j
             src acc buf tmp)
    (fun '(acc', buf', tmp') => len acc' = 16 /\ len buf' = 32 /\ len tmp' = 16).
Proof.
  intros Hd Hn Hl Hi Hs Hac Hb Ht. unfold _AEZState.tiny_half. cbv zeta.
  set (buf1 := slice_set (slice_set buf 0 BLOCK_SIZE _) 0 left_len _).
  assert (Hbuf1 : len buf1 = 32) by (subst buf1; lens).
  clearbody buf1.
  assert (Hmid : 0 <= in_bytes / 2 < 16) by arith.
  step getitem_any as m Hm; [lia|].
  step setitem_len as buf2 Hbuf2; [lia|].
  assert (Hv1 : len (_AEZState.view buf2) = 16) by (apply view_len; lia).
  step xor1_len as v Hv; try lia.
  assert (Hb3 : len (_AEZState.view_set buf2 v) = 32)
    by (apply view_set_len; lia).
  step getitem_any as b15 Hb15; [lia|].
  step setitem_len as buf4 Hbuf4; [lia|].
  assert (Hv4 : len (_AEZState.view buf4) = 16) by (apply view_len; lia).
  step AES4_returns as tmp1 Htmp1; auto; try blen st Hwf.
  step xor1_len as acc1 Hacc1; try lia.
  simpl. lia.
Qed.

Lemma aez_tiny_returns st delta data direction dst :
  wf_state st -> 16 <= len delta -> 1 <= len data < 32 -> len data <= len dst ->
  returns (_AEZState.aez_tiny st delta data direction dst)
    (fun r => len r = len dst).
Proof.
  intros Hwf Hdelta Hn Hdst. unfold _AEZState.aez_tiny.
  step the_aes_returns as a Ha; auto. cbv zeta.
  set (n := len data) in *.
  set (cfg := if n =? 1 then _ else _).
  assert (Hcfg : 0 <= fst cfg < 8 /\ 0 <= snd cfg / 2 /\ 0 <= snd cfg).
  { subst cfg. unfold BLOCK_SIZE.
    destruct (n =? 1); [cbn [fst snd]; arith|].
    destruct (n =? 2); [cbn [fst snd]; arith|].
    destruct (n <? 16); cbn [fst snd]; arith. }
  destruct cfg as [idx_param rounds]. simpl in Hcfg. destruct Hcfg as (Hidx & Hrounds & _).
  assert (Hleft : 0 <= (n + 1) / 2 <= 16) by arith.
  assert (Hhalf : 0 <= n / 2 < 16) by arith.
  assert (Hhl : n / 2 <= (n + 1) / 2) by arith.
  assert (Hhl2 : n / 2 + (n + 1) / 2 = n) by arith.
  set (L0 := slice_set (_mk_block BLOCK_SIZE) 0 _ _).
  assert (HL0 : len L0 = 16) by (subst L0; fold n; lens).
  set (R0 := slice_set (_mk_block BLOCK_SIZE) 0 _ _).
  assert (HR0 : len R0 = 16) by (subst R0; fold n; lens).
  clearbody L0 R0.
  eapply returns_bind with
    (P := fun r : bytes * Z * Z => let '(R, _, _) := r in len R = 16).
  { destruct (Z.land n 1 =? 0); [simpl; auto|].
    step (for_range_keeps (fun R : bytes => len R = 16)) as R1 HR1; auto.
    { intros k R Hk HR.
      step getitem_any as x Hx; [lia|].
      step getitem_any as y Hy; [lia|].
      finish setitem_len; lia. }
    step getitem_any as x Hx; [lia|].
    step setitem_len as R2 HR2; [lia|].
    simpl. lia. }
  intros [[R pad] mask] HR. cbv beta iota.
  eapply returns_bind with
    (P := fun r : bytes * bytes * bytes * Z * Z =>
            let '(buf, L, tmp, _, _) := r in
            len buf = 32 /\ len L = 16 /\ len tmp = 16).
  { destruct (direction =? 0);
      [simpl; repeat split; first [assumption | reflexivity]|].
    eapply returns_bind with
      (P := fun r : bytes * bytes * bytes =>
              let '(buf, L, tmp) := r in
              len buf = 32 /\ len L = 16 /\ len tmp = 16).
    { destruct (Z.ltb_spec n BLOCK_SIZE);
        [|simpl; repeat split; first [assumption | reflexivity]].
      set (buf1 := slice_set (slice_set _ 0 BLOCK_SIZE _) 0 n data).
      assert (Hbuf1 : len buf1 = 32) by (subst buf1; fold n; lens).
      clearbody buf1.
      step tiny_sign_returns as [buf2 tmp2] [Hbuf2 Htmp2]; auto.
      step getitem_any as l0 Hl0; [lia|].
      step getitem_any as t0 Ht0; [lia|].
      step setitem_len as L1 HL1; [lia|].
      simpl. repeat split; lia. }
    intros [[buf L] tmp] (? & ? & ?). simpl. auto. }
  intros [[[[buf L] tmp] j] step0] (Hbuf & HL & Htmp). cbv beta iota.
  eapply returns_bind with
    (P := fun s : bytes * bytes * bytes * bytes * Z =>
            let '(buf, L, R, tmp, _) := s in
            len buf = 32 /\ len L = 16 /\ len R = 16 /\ len tmp = 16).
  { apply for_range_keeps; [repeat split; auto|].
    intros k [[[[buf1 L1] R1] tmp1] j1] Hk (? & ? & ? & ?).
    step tiny_half_returns as [[L2 buf2] tmp2] (? & ? & ?); auto; try lia.
    step tiny_half_returns as [[R2 buf3] tmp3] (? & ? & ?); auto; try lia.
    simpl. repeat split; lia. }
  intros [[[[buf1 L1] R1] tmp1] j1] (Hbuf1 & HL1 & HR1 & Htmp1). cbv beta iota.
  set (buf2 := slice_set (slice_set buf1 0 _ _) _ _ _).
  assert (Hbuf2 : len buf2 = 32) by (subst buf2; lens).
  clearbody buf2.
  eapply returns_bind with (P := fun b : bytes => len b = 32).
  { destruct (Z.land n 1 =? 0); [simpl; auto|].
    step (for_down_keeps (fun b : bytes => len b = 32)) as buf3 Hbuf3; auto.
    { intros k b Hk Hb.
      step getitem_any as x Hx; [lia|].
      step getitem_any as y Hy; [lia|].
      finish setitem_len; lia. }
    step getitem_any as l0 Hl0; [lia|].
    step getitem_any as rh Hrh; [lia|].
    finish setitem_len; lia. }
  intros buf3 Hbuf3.
  set (dst1 := slice_set dst 0 n _).
  assert (Hdst1 : len dst1 = len dst) by (subst dst1; lens).
  clearbody dst1.
  destruct ((n <? BLOCK_SIZE) && (direction =? 0)) eqn:Epost; [|simpl; auto].
  apply andb_prop in Epost. destruct Epost as [Epost _].
  apply Z.ltb_lt in Epost.
  set (buf4 := slice_set buf3 n BLOCK_SIZE _).
  assert (Hbuf4 : len buf4 = 32) by (subst buf4; lens).
  clearbody buf4.
  step tiny_sign_returns as [buf5 tmp5] [Hbuf5 Htmp5]; auto.
  step getitem_any as d0 Hd0; [lia|].
  step getitem_any as t0 Ht0; [lia|].
  finish setitem_len; lia.
Qed.

(** ** A hash library for closed examples

    The theorems below hold for every hash library; their examples are
    evaluated with this one, which hashes everything to zero bytes. *)
Program Definition null_hashlib : Hashlib :=
  {| blake2b := fun _ n => repeat 0 (Z.to_nat n);
     scrypt := fun _ _ _ _ _ dklen _ => Some (repeat 0 (Z.to_nat dklen)) |}.
Next Obligation. intros. unfold len. rewrite repeat_length. lia. Defined.

Definition example_key : bytes := map Z.of_nat (seq 1 48).

Definition example_state : _AEZState.t :=
  Eval vm_compute in
    match _AEZState.init (H := null_hashlib) _AEZState.__init__ example_key with
    | Ok st => st
    | Raise _ => _AEZState.__init__
    end.

(** ** The claims on the block primitives and the key schedule *)

(** C6: the CRC32C of the ASCII bytes of "123456789", computed by the
    table-driven [_crc32c] with the reflected Castagnoli polynomial
    0x82F63B78, the initial value 0xFFFFFFFF and the final XOR 0xFFFFFFFF,
    is 0xE3069283. *)
Theorem crc32c_check_value :
  _CRC32C_POLY = 0x82F63B78 /\
  encode_utf8 "123456789" = [49; 50; 51; 52; 53; 54; 55; 56; 57] /\
  _crc32c (encode_utf8 "123456789") = 0xE3069283.
Proof. repeat split; vm_compute; reflexivity. Qed.

(** Bytes are checked by enumeration. *)
Definition all_bytes : list Z := map Z.of_nat (seq 0 256).

Lemma is_byte_range x : is_byte x = true <-> 0 <= x < 256.
Proof. unfold is_byte. rewrite andb_true_iff, Z.leb_le, Z.ltb_lt. tauto. Qed.

Lemma is_byte_in x : is_byte x = true -> In x all_bytes.
Proof.
  intros H. apply is_byte_range in H. unfold all_bytes.
  apply in_map_iff. exists (Z.to_nat x). split; [lia|]. apply in_seq. lia.
Qed.

Lemma forall_bytes (P : Z -> bool) :
  forallb P all_bytes = true -> forall x, is_byte x = true -> P x = true.
Proof.
  intros H x Hx. rewrite forallb_forall in H. apply H. now apply is_byte_in.
Qed.

Lemma forall_bytes2 (P : Z -> Z -> bool) :
  forallb (fun x => forallb (P x) all_bytes) all_bytes = true ->
  forall x y, is_byte x = true -> is_byte y = true -> P x y = true.
Proof.
  intros H x y Hx Hy.
  apply (forall_bytes (P x)); auto.
  apply (forall_bytes (fun x => forallb (P x) all_bytes)); auto.
Qed.

(** One byte of [_double_block]: [p[i]] from [p[i]] and [p[i + 1]], and
    [p[15]] from [p[15]] and the old [p[0]]. *)
Definition dbl (x y : Z) : Z :=
  Z.land (Z.lor (Z.shiftl x 1) (Z.shiftr y 7)) 0xFF.
Definition dbl_last (x t : Z) : Z :=
  Z.lxor (Z.land (Z.shiftl x 1) 0xFE) (if Z.land t 0x80 =? 0 then 0 else 0x87).

Lemma double16_eq a0 a1 a2 a3 a4 a5 a6 a7 a8 a9 a10 a11 a12 a13 a14 a15 :
  _double_block [a0; a1; a2; a3; a4; a5; a6; a7; a8; a9; a10; a11; a12; a13; a14; a15]
  = Ok [dbl a0 a1; dbl a1 a2; dbl a2 a3; dbl a3 a4; dbl a4 a5; dbl a5 a6;
        dbl a6 a7; dbl a7 a8; dbl a8 a9; dbl a9 a10; dbl a10 a11; dbl a11 a12;
        dbl a12 a13; dbl a13 a14; dbl a14 a15; dbl_last a15 a0].
Proof. reflexivity. Qed.

Lemma xor_is_byte x y :
  is_byte x = true -> is_byte y = true -> is_byte (Z.lxor x y) = true.
Proof. apply (forall_bytes2 (fun x y => is_byte (Z.lxor x y))). vm_compute. reflexivity. Qed.

Lemma msb_is_bit y : is_byte y = true -> Z.land y 0x80 = 0 \/ Z.land y 0x80 = 0x80.
Proof.
  intros Hy.
  assert (H : (Z.land y 0x80 =? 0) || (Z.land y 0x80 =? 0x80) = true)
    by (revert y Hy; apply forall_bytes; vm_compute; reflexivity).
  apply orb_true_iff in H. destruct H as [H|H]; apply Z.eqb_eq in H; auto.
Qed.

Lemma msb_xor y1 y2 :
  is_byte y1 = true -> is_byte y2 = true ->
  Z.land (Z.lxor y1 y2) 0x80 = Z.lxor (Z.land y1 0x80) (Z.land y2 0x80).
Proof.
  intros H1 H2. apply Z.eqb_eq. revert y1 y2 H1 H2.
  apply (forall_bytes2 (fun y1 y2 =>
           Z.land (Z.lxor y1 y2) 0x80 =? Z.lxor (Z.land y1 0x80) (Z.land y2 0x80))).
  vm_compute. reflexivity.
Qed.

Lemma dbl_msb x y :
  is_byte x = true -> is_byte y = true -> dbl x y = dbl x (Z.land y 0x80).
Proof.
  intros H1 H2. apply Z.eqb_eq. revert x y H1 H2.
  apply (forall_bytes2 (fun x y => dbl x y =? dbl x (Z.land y 0x80))).
  vm_compute. reflexivity.
Qed.

Lemma dbl_last_msb x t : dbl_last x t = dbl_last x (Z.land t 0x80).
Proof.
  unfold dbl_last. rewrite <- Z.land_assoc. reflexivity.
Qed.

Lemma dbl_xor_bits m1 m2 x1 x2 :
  (m1 = 0 \/ m1 = 0x80) -> (m2 = 0 \/ m2 = 0x80) ->
  is_byte x1 = true -> is_byte x2 = true ->
  dbl (Z.lxor x1 x2) (Z.lxor m1 m2) = Z.lxor (dbl x1 m1) (dbl x2 m2) /\
  dbl_last (Z.lxor x1 x2) (Z.lxor m1 m2) =
  Z.lxor (dbl_last x1 m1) (dbl_last x2 m2).
Proof.
  intros Hm1 Hm2 H1 H2.
  assert (H : forall m1 m2,
             (dbl (Z.lxor x1 x2) (Z.lxor m1 m2) =? Z.lxor (dbl x1 m1) (dbl x2 m2)) &&
             (dbl_last (Z.lxor x1 x2) (Z.lxor m1 m2) =?
              Z.lxor (dbl_last x1 m1) (dbl_last x2 m2)) = true ->
             dbl (Z.lxor x1 x2) (Z.lxor m1 m2) = Z.lxor (dbl x1 m1) (dbl x2 m2) /\
             dbl_last (Z.lxor x1 x2) (Z.lxor m1 m2) =
             Z.lxor (dbl_last x1 m1) (dbl_last x2 m2)).
  { intros ? ? H. apply andb_true_iff in H. now rewrite !Z.eqb_eq in H. }
  apply H. clear H. revert x1 x2 H1 H2.
  destruct Hm1 as [-> | ->], Hm2 as [-> | ->];
    apply forall_bytes2; vm_compute; reflexivity.
Qed.

Lemma dbl_linear x1 x2 y1 y2 :
  is_byte x1 = true -> is_byte x2 = true ->
  is_byte y1 = true -> is_byte y2 = true ->
  dbl (Z.lxor x1 x2) (Z.lxor y1 y2) = Z.lxor (dbl x1 y1) (dbl x2 y2).
Proof.
  intros Hx1 Hx2 Hy1 Hy2.
  rewrite (dbl_msb (Z.lxor x1 x2)) by auto using xor_is_byte.
  rewrite msb_xor by auto.
  rewrite (dbl_msb x1 y1), (dbl_msb x2 y2) by auto.
  apply dbl_xor_bits; auto using msb_is_bit.
Qed.

Lemma dbl_last_linear x1 x2 t1 t2 :
  is_byte x1 = true -> is_byte x2 = true ->
  is_byte t1 = true -> is_byte t2 = true ->
  dbl_last (Z.lxor x1 x2) (Z.lxor t1 t2) =
  Z.lxor (dbl_last x1 t1) (dbl_last x2 t2).
Proof.
  intros Hx1 Hx2 Ht1 Ht2.
  rewrite (dbl_last_msb (Z.lxor x1 x2)), msb_xor by auto.
  rewrite (dbl_last_msb x1 t1), (dbl_last_msb x2 t2).
  apply dbl_xor_bits; auto using msb_is_bit.
Qed.

(** C7: [_double_block] maps the zero block to the zero block and is linear
    over GF(2): doubling the bytewise XOR of two 16-byte blocks gives the XOR
    of their doubles. *)
Theorem double_block_linear (a b : bytes) :
  length a = 16%nat -> length b = 16%nat ->
  bytes_ok a = true -> bytes_ok b = true ->
  _double_block (repeat 0 16) = Ok (repeat 0 16) /\
  exists da db,
    _double_block a = Ok da /\ _double_block b = Ok db /\
    _double_block (xor_block a b) = Ok (xor_block da db).
Proof.
  intros Ha Hb Hoa Hob. split; [reflexivity|].
  destruct_block a Ha. destruct_block b Hb.
  cbn [bytes_ok forallb] in Hoa, Hob.
  repeat match goal with
         | H : _ && _ = true |- _ => apply andb_true_iff in H; destruct H
         end.
  do 2 eexists. split; [apply double16_eq|]. split; [apply double16_eq|].
  cbn [xor_block zip_with]. rewrite double16_eq.
  repeat f_equal; first [ apply dbl_linear | apply dbl_last_linear ]; assumption.
Qed.

Lemma double_block_linear_example :
  _double_block (repeat 0 16) = Ok (repeat 0 16) /\
  exists da db,
    _double_block (map Z.of_nat (seq 1 16)) = Ok da /\
    _double_block (map Z.of_nat (seq 240 16)) = Ok db /\
    _double_block (xor_block (map Z.of_nat (seq 1 16)) (map Z.of_nat (seq 240 16)))
    = Ok (xor_block da db).
Proof.
  apply (double_block_linear (map Z.of_nat (seq 1 16)) (map Z.of_nat (seq 240 16)));
    reflexivity.
Defined.

(** C5: after [init(k)] on a fresh state, with [extracted] the extracted key
    ([k] itself when it has 48 bytes, its BLAKE2b-48 digest otherwise),
    [I[0]], [J[0]] and [L[1]] are the three 16-byte thirds of [extracted],
    [L[0]] is the zero block, and the other blocks are the doubles and XORs
    of the key schedule, every [_mult_block(2, src, dst)] being one
    [_double_block]. *)
Theorem init_key_schedule `{Hashlib} (key : bytes) :
  (_extract_key key = if len key =? 48 then key else blake2b key 48) /\
  exists st,
    _AEZState.init _AEZState.__init__ key = Ok st /\
    _AEZState.init (_AEZState.reset _AEZState.__init__) key = Ok st /\
    key_schedule (_extract_key key) st /\
    forall src dst d,
      len src = 16 -> _double_block src = Ok d -> _mult_block 2 src dst = Ok d.
Proof.
  split; [reflexivity|].
  destruct (init_schedule key) as (st & Hst & Hks & _).
  exists st. repeat split; auto. apply mult2_double.
Qed.

(** ** The claims on aez-core and the decrypt driver *)

Lemma reset_fresh : _AEZState.reset _AEZState.__init__ = _AEZState.__init__.
Proof. reflexivity. Qed.

Lemma init_wf `{Hashlib} key st :
  _AEZState.init _AEZState.__init__ key = Ok st -> wf_state st.
Proof.
  intros Hst. destruct (init_schedule key) as (st' & Hst' & _ & Hwf).
  congruence.
Qed.

Lemma aez_core_frame_lemma st delta data direction dst :
  wf_state st -> 16 <= len delta -> 32 <= len data -> len data <= len dst ->
  exists dst',
    _AEZState.aez_core st delta data direction dst = Ok dst' /\
    (len dst' = len dst /\
     skipn (Z.to_nat (len data - 32 - len data mod 32)) dst' =
     skipn (Z.to_nat (len data - 32 - len data mod 32)) dst) /\
    (len data < 64 -> dst' = dst).
Proof.
  intros Hwf Hdelta Hdata Hdst.
  destruct (returns_inv _ _
              (aez_core_returns st delta data direction dst
                 Hwf Hdelta Hdata Hdst))
    as (dst' & Heq & Hlen & Hfr).
  exists dst'. repeat split; auto.
  intros Hlt. replace (len data - 32 - len data mod 32) with 0 in Hfr by arith.
  exact Hfr.
Qed.

(** C8: on an input of at least 32 bytes aez-core, in either direction,
    writes only [dst[0 .. |data| - 32 - |data| mod 32)]: the bytes of [dst]
    from there on keep their contents, and for [32 <= |data| < 64] the whole
    of [dst] does. *)
Theorem aez_core_frame `{Hashlib} (key : bytes) (st : _AEZState.t)
    (delta data dst : bytes) (direction : Z) :
  _AEZState.init _AEZState.__init__ key = Ok st ->
  16 <= len delta -> 32 <= len data -> len data <= len dst ->
  exists dst',
    _AEZState.aez_core st delta data direction dst = Ok dst' /\
    len dst' = len dst /\
    skipn (Z.to_nat (len data - 32 - len data mod 32)) dst' =
    skipn (Z.to_nat (len data - 32 - len data mod 32)) dst /\
    (len data < 64 -> dst' = dst).
Proof.
  intros Hst Hdelta Hdata Hdst.
  destruct (aez_core_frame_lemma st delta data direction dst
              (init_wf key st Hst) Hdelta Hdata Hdst)
    as (dst' & Heq & [Hlen Hfr] & Hsmall).
  exists dst'. auto.
Qed.

Lemma aez_core_frame_example :
  exists dst',
    _AEZState.aez_core example_state (repeat 0 16) (map Z.of_nat (seq 1 40)) 1
      (repeat 255 40) = Ok dst' /\
    len dst' = len (repeat 255 40) /\
    skipn (Z.to_nat (len (map Z.of_nat (seq 1 40)) - 32
                     - len (map Z.of_nat (seq 1 40)) mod 32)) dst' =
    skipn (Z.to_nat (len (map Z.of_nat (seq 1 40)) - 32
                     - len (map Z.of_nat (seq 1 40)) mod 32)) (repeat 255 40) /\
    (len (map Z.of_nat (seq 1 40)) < 64 -> dst' = repeat 255 40).
Proof.
  apply (aez_core_frame (H := null_hashlib) example_key example_state);
    vm_compute; congruence.
Defined.

Lemma lookup_repeat {A} (x y : A) n i : repeat x n !! i = Some y -> y = x.
Proof.
  revert i. induction n as [|n IH]; intros [|i] H; simpl in H; try discriminate.
  - congruence.
  - eauto.
Qed.

Lemma tag_mismatch_zero tau (x ciphertext : bytes) k :
  0 <= tau -> tau <= len ciphertext -> len x = len ciphertext ->
  (k <= Z.to_nat (len ciphertext - tau))%nat ->
  skipn k x = skipn k (repeat 0 (length ciphertext)) ->
  tag_mismatch tau x ciphertext = Ok 0.
Proof.
  intros Htau Hle Hx Hk Hfr. unfold tag_mismatch.
  assert (H : returns
                (for_range (Z.to_nat tau) 0
                   (fun i mismatch =>
                      xi <- getitem x (len ciphertext - tau + i) ;;
                      Ok (Z.lor mismatch xi)) 0)
                (fun m => m = 0)).
  { apply (for_range_keeps (fun m => m = 0)); auto.
    intros i m Hi ->.
    step getitem_returns as xi Hxi; [lia|].
    simpl. f_equal.
    set (j := Z.to_nat (len ciphertext - tau + i)) in *.
    assert (Hj : (k <= j)%nat) by (subst j; lia).
    assert (Hd : skipn k x !! (j - k)%nat = Some xi)
      by (rewrite lookup_drop; replace (k + (j - k))%nat with j by lia; auto).
    rewrite Hfr, lookup_drop in Hd. apply lookup_repeat in Hd. subst xi.
    reflexivity. }
  destruct (returns_inv _ _ H) as (m & -> & ->). reflexivity.
Qed.

(** C9: whatever the key and the associated data, [_aez_decrypt] with a
    4-byte tag accepts every ciphertext of at least 32 bytes: it returns a
    byte string of [|C| - 4] bytes, never [None]. *)
Theorem aez_decrypt_accepts_long `{Hashlib} (key : bytes) (ad : list bytes)
    (ciphertext : bytes) :
  32 <= len ciphertext ->
  exists plaintext,
    _aez_decrypt key ad 4 ciphertext = Ok (Some plaintext) /\
    len plaintext = len ciphertext - 4.
Proof.
  intros Hc. unfold _aez_decrypt. cbv zeta. rewrite reset_fresh.
  destruct (init_schedule key) as (st & -> & _ & Hwf). cbn [bind].
  destruct (returns_inv _ _ (aez_hash_returns st None ad (4 * 8) Hwf))
    as (delta & -> & Hdelta). cbn [bind].
  destruct (Z.eqb_spec (len ciphertext) 4); [lia|].
  unfold _AEZState.decipher.
  destruct (Z.eqb_spec (len ciphertext) 0); [lia|].
  destruct (Z.ltb_spec (len ciphertext) 32); [lia|].
  assert (Hx0 : len ciphertext <= len (repeat 0 (length ciphertext)))
    by (rewrite repeat_len; unfold len; lia).
  destruct (returns_inv _ _
              (aez_core_returns st delta ciphertext 1 _ Hwf
                 ltac:(lia) Hc Hx0))
    as (x & -> & Hlen & Hfr). cbn [bind].
  rewrite repeat_len in Hlen.
  change (Z.of_nat (length ciphertext)) with (len ciphertext) in Hlen.
  rewrite (tag_mismatch_zero 4 x ciphertext
             (Z.to_nat (len ciphertext - 32 - len ciphertext mod 32)));
    [| lia | lia | lia | arith | exact Hfr].
  cbn [bind]. change (0 =? 0) with true. cbv iota.
  eexists. split; [reflexivity|]. lens.
Qed.

Lemma aez_decrypt_accepts_long_example :
  exists plaintext,
    _aez_decrypt (H := null_hashlib) example_key [[0; 1; 2; 3; 4; 5]] 4
      (map Z.of_nat (seq 1 40)) = Ok (Some plaintext) /\
    len plaintext = len (map Z.of_nat (seq 1 40)) - 4.
Proof.
  apply (aez_decrypt_accepts_long (H := null_hashlib)). vm_compute. congruence.
Defined.

(** The decrypt driver as the specification words it: the tag of an empty
    message is the PRF stream, and a deciphered message is accepted when its
    last [tau] bytes are zero and is returned without them. *)
Definition decrypt_spec `{Hashlib} (key : bytes) (ad : list bytes) (tau : Z)
    (ciphertext : bytes) : res (option bytes) :=
  state <- _AEZState.init _AEZState.__init__ key ;;
  delta <- _AEZState.aez_hash state None ad (tau * 8) ;;
  if len ciphertext =? tau then
    stream <- _AEZState.aez_prf state delta tau (repeat 0 (Z.to_nat tau)) ;;
    if bool_decide (stream = ciphertext) then Ok (Some []) else Ok None
  else
    x <- _AEZState.decipher state delta ciphertext
           (repeat 0 (length ciphertext)) ;;
    if forallb (Z.eqb 0) (skipn (length x - Z.to_nat tau) x)
    then Ok (Some (firstn (Z.to_nat (len ciphertext - tau)) x))
    else Ok None.

Lemma prf_mismatch_spec tau (x c : bytes) :
  0 <= tau -> len x = tau -> len c = tau ->
  exists m, prf_mismatch tau x c = Ok m /\ (m = 0 <-> x = c).
Proof.
  intros Htau Hx Hc. unfold prf_mismatch.
  assert (H : returns
                (for_range (Z.to_nat tau) 0
                   (fun i mismatch =>
                      xi <- getitem x i ;;
                      ci <- getitem c i ;;
                      Ok (Z.lor mismatch (Z.lxor xi ci))) 0)
                (fun m => m = 0 <->
                          forall j, (j < Z.to_nat tau)%nat -> x !! j = c !! j)).
  { eapply returns_mono.
    - apply (for_range_returns
               (fun k m => m = 0 <->
                           forall j, (j < Z.to_nat k)%nat -> x !! j = c !! j)).
      + split; auto. intros _ j Hj. simpl in Hj. lia.
      + intros k m Hk Hinv.
        step getitem_returns as xi Hxi; [lia|].
        step getitem_returns as ci Hci; [lia|].
        simpl. rewrite Z.lor_eq_0_iff, Z.lxor_eq_0_iff, Hinv.
        split.
        * intros [Hall ->] j Hj.
          destruct (decide (j = Z.to_nat k)) as [->|]; [congruence|].
          apply Hall. lia.
        * intros Hall. split; [intros j Hj; apply Hall; lia|].
          specialize (Hall (Z.to_nat k) ltac:(lia)). congruence.
    - cbv beta. intros m Hm. rewrite Z.add_0_l, Z2Nat.id in Hm by lia. exact Hm. }
  destruct (returns_inv _ _ H) as (m & Hm & Hiff). exists m. split; auto.
  rewrite Hiff. split.
  - intros Hall. apply list_eq. intros j.
    destruct (decide (j < Z.to_nat tau)%nat); [auto|].
    rewrite !lookup_ge_None_2; auto; unfold len in *; lia.
  - intros ->. auto.
Qed.

Lemma forallb_zero_lookup (l : bytes) :
  forallb (Z.eqb 0) l = true <-> forall j y, l !! j = Some y -> y = 0.
Proof.
  rewrite forallb_forall. split.
  - intros Hall j y Hj. symmetry. apply Z.eqb_eq, Hall.
    apply list_elem_of_In. eapply list_elem_of_lookup_2; eauto.
  - intros Hall y Hy. apply list_elem_of_In, list_elem_of_lookup in Hy.
    destruct Hy as [j Hj]. apply Z.eqb_eq. symmetry. eauto.
Qed.

Lemma tag_mismatch_spec tau (x c : bytes) :
  0 <= tau <= len c -> len x = len c ->
  exists m, tag_mismatch tau x c = Ok m /\
            (m = 0 <-> forallb (Z.eqb 0) (skipn (length x - Z.to_nat tau) x) = true).
Proof.
  intros Htau Hx. unfold tag_mismatch.
  set (base := (length x - Z.to_nat tau)%nat).
  assert (Hbase : Z.of_nat base = len c - tau) by (subst base; unfold len in *; lia).
  assert (H : returns
                (for_range (Z.to_nat tau) 0
                   (fun i mismatch =>
                      xi <- getitem x (len c - tau + i) ;;
                      Ok (Z.lor mismatch xi)) 0)
                (fun m => m = 0 <->
                          forall j y, (j < Z.to_nat tau)%nat ->
                                      x !! (base + j)%nat = Some y -> y = 0)).
  { eapply returns_mono.
    - apply (for_range_returns
               (fun k m => m = 0 <->
                           forall j y, (j < Z.to_nat k)%nat ->
                                       x !! (base + j)%nat = Some y -> y = 0)).
      + split; auto. intros _ j y Hj. simpl in Hj. lia.
      + intros k m Hk Hinv.
        step getitem_returns as xi Hxi; [lia|].
        replace (Z.to_nat (len c - tau + k)) with (base + Z.to_nat k)%nat in Hxi
          by lia.
        simpl. rewrite Z.lor_eq_0_iff, Hinv.
        split.
        * intros [Hall ->] j y Hj Hy.
          destruct (decide (j = Z.to_nat k)) as [->|]; [congruence|].
          eapply Hall; eauto. lia.
        * intros Hall. split; [intros j y Hj; apply Hall; lia|].
          eapply (Hall (Z.to_nat k)); eauto. lia.
    - cbv beta. intros m Hm. rewrite Z.add_0_l, Z2Nat.id in Hm by lia. exact Hm. }
  destruct (returns_inv _ _ H) as (m & Hm & Hiff). exists m. split; auto.
  rewrite Hiff, forallb_zero_lookup. split.
  - intros Hall j y Hj. rewrite lookup_drop in Hj.
    assert (base + j < length x)%nat by (eapply lookup_lt_Some; eauto).
    eapply Hall; eauto. unfold len in *. lia.
  - intros Hall j y Hj Hy. apply (Hall j). now rewrite lookup_drop.
Qed.

Lemma slice_to_firstn {A} (l : list A) j :
  0 <= j -> slice_to l j = firstn (Z.to_nat j) l.
Proof.
  intros Hj. unfold slice_to, slice. rewrite !clamp_nonneg by lia.
  pose proof (len_nonneg l).
  replace (Z.min 0 (len l)) with 0 by lia. rewrite Z.sub_0_r.
  change (Z.to_nat 0) with 0%nat. change (skipn 0 l) with l.
  destruct (Z.le_ge_cases j (len l)).
  - now rewrite Z.min_l by lia.
  - rewrite Z.min_r by lia. unfold len in *.
    rewrite !firstn_all2; auto; lia.
Qed.

Lemma decipher_returns st delta data dst :
  wf_state st -> 16 <= len delta -> len data <= len dst ->
  returns (_AEZState.decipher st delta data dst) (fun r => len r = len dst).
Proof.
  intros Hwf Hd Hl. unfold _AEZState.decipher.
  destruct (Z.eqb_spec (len data) 0); [simpl; auto|].
  pose proof (len_nonneg data).
  destruct (Z.ltb_spec (len data) 32).
  - apply aez_tiny_returns; auto. lia.
  - finish aez_core_returns; auto. tauto.
Qed.

(** C2, for ciphertexts that hold the tag: [_aez_decrypt] is the decrypt
    driver of the specification whenever [0 <= tau <= |C|]. *)
Theorem aez_decrypt_refines_spec `{Hashlib} (key : bytes) (ad : list bytes)
    (tau : Z) (ciphertext : bytes) :
  0 <= tau <= len ciphertext ->
  _aez_decrypt key ad tau ciphertext = decrypt_spec key ad tau ciphertext.
Proof.
  intros Htau. unfold _aez_decrypt, decrypt_spec. cbv zeta. rewrite reset_fresh.
  destruct (init_schedule key) as (st & -> & _ & Hwf). cbn [bind].
  destruct (returns_inv _ _ (aez_hash_returns st None ad (tau * 8) Hwf))
    as (delta & -> & Hdelta). cbn [bind].
  destruct (Z.eqb_spec (len ciphertext) tau) as [Heq|Hne].
  - replace (length ciphertext) with (Z.to_nat tau) by (unfold len in *; lia).
    assert (Hx0 : 0 <= tau <= len (repeat 0 (Z.to_nat tau)))
      by (rewrite repeat_len; lia).
    destruct (returns_inv _ _
                (aez_prf_returns st delta tau _ Hwf ltac:(lia) Hx0))
      as (x & -> & Hlen). cbn [bind].
    rewrite repeat_len in Hlen.
    destruct (prf_mismatch_spec tau x ciphertext) as (m & -> & Hm); try lia.
    cbn [bind].
    destruct (Z.eqb_spec m 0) as [Hz|Hz].
    + rewrite bool_decide_eq_true_2; tauto.
    + rewrite bool_decide_eq_false_2; tauto.
  - assert (Hx0 : len ciphertext <= len (repeat 0 (length ciphertext)))
      by (rewrite repeat_len; unfold len; lia).
    destruct (returns_inv _ _
                (decipher_returns st delta ciphertext _ Hwf ltac:(lia) Hx0))
      as (x & -> & Hlen). cbn [bind].
    rewrite repeat_len in Hlen.
    change (Z.of_nat (length ciphertext)) with (len ciphertext) in Hlen.
    destruct (tag_mismatch_spec tau x ciphertext) as (m & -> & Hm); try lia.
    cbn [bind]. rewrite slice_to_firstn by lia.
    destruct (Z.eqb_spec m 0) as [Hz|Hz].
    + rewrite (proj1 Hm Hz). reflexivity.
    + destruct (forallb _ _); [|reflexivity]. tauto.
Qed.

Lemma aez_decrypt_refines_spec_example :
  _aez_decrypt (H := null_hashlib) example_key [[0; 1; 2; 3; 4; 5]] 4
    (map Z.of_nat (seq 1 23)) =
  decrypt_spec (H := null_hashlib) example_key [[0; 1; 2; 3; 4; 5]] 4
    (map Z.of_nat (seq 1 23)).
Proof.
  apply (aez_decrypt_refines_spec (H := null_hashlib)). vm_compute. split; congruence.
Defined.

(** C2 as it is stated, for every length: an empty ciphertext with a 4-byte
    tag makes [_aez_decrypt] index the empty buffer, where the driver of the
    specification finds no nonzero tag byte. *)
Lemma aez_decrypt_short_ciphertext :
  _aez_decrypt (H := null_hashlib) example_key [] 4 [] = Raise IndexError /\
  decrypt_spec (H := null_hashlib) example_key [] 4 [] = Ok (Some []).
Proof. split; vm_compute; reflexivity. Qed.

(** ** The mnemonic codec *)

Lemma emit_returns : forall fuel bits bit_len out pos,
  0 <= bit_len <= Z.of_nat fuel -> 0 <= pos ->
  8 * pos + bit_len <= 8 * len out + 7 ->
  returns (emit fuel bits bit_len out pos)
    (fun '(_, bit_len', out', pos') =>
       0 <= bit_len' < 8 /\ 8 * pos' + bit_len' = 8 * pos + bit_len /\
       len out' = len out /\ 0 <= pos').
Proof.
  induction fuel as [|fuel IH]; intros bits bit_len out pos Hb Hp Ho;
    cbn [emit].
  - destruct (Z.ltb_spec bit_len 8); [|lia]. simpl. lia.
  - destruct (Z.ltb_spec bit_len 8); [simpl; lia|]. cbv zeta.
    step setitem_len as out1 Hout1; [lia|].
    eapply returns_mono; [apply IH; lia|].
    intros [[[bits' bl'] out'] pos']. lia.
Qed.

Definition known (word_to_index : gmap string Z) (word : string) : Prop :=
  is_Some (word_to_index !! word).

Lemma pack_spec (word_to_index : gmap string Z) :
  forall words bits bit_len out pos,
    0 <= bit_len < 8 -> 0 <= pos ->
    8 * pos + bit_len + 11 * len words <= 8 * len out + 7 ->
    match pack words word_to_index bits bit_len out pos with
    | Ok out' => len out' = len out /\ Forall (known word_to_index) words
    | Raise e =>
        exists word, In word words /\ word_to_index !! word = None /\
                     e = InvalidMnemonicError (String.append "unknown word: " word)
    end.
Proof.
  induction words as [|word words IH]; intros bits bit_len out pos Hb Hp Ho;
    cbn [pack].
  - split; [reflexivity | constructor].
  - assert (Hw : len (word :: words) = 1 + len words) by (unfold len; simpl; lia).
    pose proof (len_nonneg words) as Hnn.
    destruct (word_to_index !! word) as [idx|] eqn:Hidx.
    + cbv zeta. unfold BitsPerWord.
      destruct (returns_inv _ _
                  (emit_returns (Z.to_nat (bit_len + 11))
                     (Z.lor (Z.shiftl bits 11) idx) (bit_len + 11) out pos
                     ltac:(lia) Hp ltac:(lia)))
        as ([[[bits' bl'] out'] pos'] & -> & H1 & H2 & H3 & H4).
      cbn [lift bind].
      specialize (IH bits' bl' out' pos' H1 H4 ltac:(lia)).
      destruct (pack words word_to_index bits' bl' out' pos') as [out''|e].
      * destruct IH as [IH1 IH2]. split; [lia|].
        constructor; auto. unfold known. rewrite Hidx. eauto.
      * destruct IH as (w & Hin & Hnone & He). exists w. simpl. auto.
    + exists word. simpl. auto.
Qed.

Lemma mnemonic_to_bytes_spec words (word_to_index : gmap string Z) :
  match mnemonic_to_bytes words word_to_index with
  | Ok envelope =>
      len words = 24 /\ Forall (known word_to_index) words /\ len envelope = 33
  | Raise e =>
      (len words <> 24 \/
       exists word, In word words /\ word_to_index !! word = None) /\
      exists msg, e = InvalidMnemonicError msg
  end.
Proof.
  unfold mnemonic_to_bytes.
  destruct (Z.eqb_spec (len words) 24) as [H24|H24]; cbn [negb].
  - pose proof (pack_spec word_to_index words 0 0
                  (repeat 0 (Z.to_nat EncipheredCipherSeedSize)) 0
                  ltac:(lia) ltac:(lia)) as Hp.
    rewrite repeat_len in Hp. specialize (Hp ltac:(unfold EncipheredCipherSeedSize; lia)).
    destruct (pack words word_to_index 0 0 _ 0) as [out|e].
    + destruct Hp. repeat split; auto.
    + destruct Hp as (w & ? & ? & ->). split; eauto.
  - split; eauto.
Qed.

Lemma known_all_or_unknown words (word_to_index : gmap string Z) :
  Forall (known word_to_index) words ->
  ~ exists word, In word words /\ word_to_index !! word = None.
Proof.
  intros Hall (w & Hin & Hnone). rewrite Forall_forall in Hall.
  apply list_elem_of_In in Hin. destruct (Hall w Hin) as [? ?]. congruence.
Qed.

Lemma getitem_nth l i :
  0 <= i < len l -> getitem l i = Ok (nth (Z.to_nat i) l 0).
Proof.
  intros Hi. destruct (returns_inv _ _ (getitem_returns l i Hi)) as (x & -> & Hx).
  f_equal. symmetry. apply nth_lookup_Some with (d := 0) in Hx. exact Hx.
Qed.

Lemma slice_last4 (envelope : bytes) :
  len envelope = 33 -> slice_from envelope (-4) = skipn 29 envelope.
Proof.
  intros H. unfold slice_from, slice, clamp. rewrite H. cbn.
  apply firstn_all2. rewrite length_skipn. unfold len in H. lia.
Qed.

(** The two checks on a packed envelope. *)
Definition version_ok (envelope : bytes) : bool :=
  nth 0 envelope 0 =? CipherSeedVersion.
Definition crc_ok (envelope : bytes) : bool :=
  from_bytes_be (skipn 29 envelope) =? _crc32c (firstn 29 envelope).

(** C10: [validate_mnemonic] never raises; packing fails exactly when the
    word count is not 24 or a word is unknown, and then the result is
    [False]; otherwise the result is [True] exactly when byte 0 of the
    envelope is 0 and the big-endian CRC32C of its last 4 bytes is the
    [_crc32c] of its first 29 bytes. *)
Theorem validate_mnemonic_total (words : list string)
    (word_to_index : gmap string Z) :
  (is_ok (mnemonic_to_bytes words word_to_index) = true <->
   len words = 24 /\ Forall (known word_to_index) words) /\
  match mnemonic_to_bytes words word_to_index with
  | Ok envelope =>
      len envelope = 33 /\
      validate_mnemonic words word_to_index
      = Ok (version_ok envelope && crc_ok envelope)
  | Raise _ => validate_mnemonic words word_to_index = Ok false
  end.
Proof.
  pose proof (mnemonic_to_bytes_spec words word_to_index) as Hs.
  unfold validate_mnemonic.
  destruct (mnemonic_to_bytes words word_to_index) as [env|e]; cbn [is_ok].
  - destruct Hs as (H24 & Hall & Hlen). split; [tauto|]. split; auto.
    rewrite getitem_nth by lia. cbn [lift bind Z.to_nat].
    rewrite slice_last4, slice_to_firstn by (auto; unfold EncipheredCipherSeedSize; lia).
    unfold version_ok, crc_ok.
    change (Z.to_nat 0) with 0%nat.
    change (Z.to_nat (EncipheredCipherSeedSize - 4)) with 29%nat.
    destruct (nth 0 env 0 =? CipherSeedVersion); reflexivity.
  - destruct Hs as (Hfail & msg & ->). split; [|reflexivity].
    split; [discriminate|]. intros [H24 Hall].
    destruct Hfail as [?|?]; [contradiction|].
    exfalso. eapply known_all_or_unknown; eauto.
Qed.

(** ** The decode pipeline *)

Lemma then_quiet_ok {A B} (a : A) (k : A -> run B) :
  then_run (quiet (Ok a)) k = k a.
Proof. unfold then_run, quiet. destruct (k a). reflexivity. Qed.

Lemma slice_salt (envelope : bytes) :
  len envelope = 33 ->
  slice envelope (EncipheredCipherSeedSize - 4 - SaltSize)
    (EncipheredCipherSeedSize - 4) = firstn 5 (skipn 24 envelope).
Proof. intros H. unfold slice, clamp. rewrite H. reflexivity. Qed.

Lemma slice_ciphertext (envelope : bytes) :
  len envelope = 33 ->
  slice envelope 1 (EncipheredCipherSeedSize - 4 - SaltSize)
  = firstn 23 (skipn 1 envelope).
Proof. intros H. unfold slice, clamp. rewrite H. reflexivity. Qed.

Lemma encode_utf8_app s t :
  encode_utf8 (String.append s t) = encode_utf8 s ++ encode_utf8 t.
Proof.
  unfold encode_utf8. rewrite <- map_app. f_equal.
  induction s as [|c s IH]; simpl; [reflexivity | now rewrite IH].
Qed.

(** The password bytes, the salt and the ciphertext of a decode. *)
Definition kdf_password (passphrase : option string) : bytes :=
  encode_utf8 DEFAULT_PASSPHRASE ++ encode_utf8 (default ""%string passphrase).
Definition envelope_salt (envelope : bytes) : bytes :=
  firstn 5 (skipn 24 envelope).
Definition envelope_ciphertext (envelope : bytes) : bytes :=
  firstn 23 (skipn 1 envelope).

(** A decode whose envelope passes the version and the checksum tests:
    one call of scrypt, then one of the cipher when scrypt gave a key. *)
Lemma decode_passing `{Hashlib} words passphrase (word_to_index : gmap string Z)
    envelope :
  mnemonic_to_bytes words word_to_index = Ok envelope ->
  version_ok envelope = true -> crc_ok envelope = true ->
  let call := CallScrypt (kdf_password passphrase) (envelope_salt envelope)
                32768 8 1 32 2000000000 in
  match scrypt (kdf_password passphrase) (envelope_salt envelope)
          32768 8 1 32 2000000000 with
  | None =>
      decode_mnemonic words passphrase word_to_index = ([call], Raise HashlibError)
  | Some key =>
      exists r,
        decode_mnemonic words passphrase word_to_index =
        ([call;
          CallAezDecrypt key [[0] ++ envelope_salt envelope] 4
            (envelope_ciphertext envelope)], r) /\
        forall msg, r <> Raise (InvalidMnemonicError msg)
  end.
Proof.
  intros Hpack Hver Hcrc call.
  pose proof (mnemonic_to_bytes_spec words word_to_index) as Hs.
  rewrite Hpack in Hs. destruct Hs as (_ & _ & Hlen).
  unfold decode_mnemonic. rewrite Hpack, then_quiet_ok.
  rewrite getitem_nth by lia. cbn [lift]. rewrite then_quiet_ok.
  change (Z.to_nat 0) with 0%nat.
  unfold version_ok in Hver. rewrite Hver. cbn [negb]. cbv zeta.
  rewrite slice_last4, slice_to_firstn by (auto; unfold EncipheredCipherSeedSize; lia).
  change (Z.to_nat (EncipheredCipherSeedSize - 4)) with 29%nat.
  unfold crc_ok in Hcrc. rewrite Hcrc. cbn [negb].
  rewrite slice_salt, slice_ciphertext by auto.
  rewrite encode_utf8_app.
  fold (kdf_password passphrase). fold (envelope_salt envelope).
  fold (envelope_ciphertext envelope).
  apply Z.eqb_eq in Hver. rewrite Hver. unfold CipherSeedVersion, _encode_ad.
  unfold call_scrypt.
  destruct (scrypt (kdf_password passphrase) (envelope_salt envelope)
              32768 8 1 32 2000000000) as [key|]; [|reflexivity].
  unfold then_run at 1. unfold call_aez_decrypt, CipherTextExpansion.
  destruct (_aez_decrypt key [[0] ++ envelope_salt envelope] 4
              (envelope_ciphertext envelope)) as [[plaintext|]|e]; cbn [lift then_run].
  - destruct (negb (len plaintext =? DecipheredCipherSeedSize)).
    + eexists. split; [reflexivity | discriminate].
    + destruct (getitem plaintext 0); eexists; (split; [reflexivity | discriminate]).
  - eexists. split; [reflexivity | discriminate].
  - eexists. split; [reflexivity | discriminate].
Qed.

(** The structural failures of a mnemonic. *)
Definition structural_failure (words : list string)
    (word_to_index : gmap string Z) : Prop :=
  len words <> 24 \/
  (exists word, In word words /\ word_to_index !! word = None) \/
  (exists envelope,
     mnemonic_to_bytes words word_to_index = Ok envelope /\
     (nth 0 envelope 0 <> CipherSeedVersion \/
      from_bytes_be (skipn 29 envelope) <> _crc32c (firstn 29 envelope))).

Lemma structural_or_passing words (word_to_index : gmap string Z) :
  structural_failure words word_to_index \/
  exists envelope,
    mnemonic_to_bytes words word_to_index = Ok envelope /\
    version_ok envelope = true /\ crc_ok envelope = true.
Proof.
  pose proof (mnemonic_to_bytes_spec words word_to_index) as Hs.
  unfold structural_failure.
  destruct (mnemonic_to_bytes words word_to_index) as [env|e] eqn:Hpack.
  - destruct (version_ok env) eqn:Hver; [destruct (crc_ok env) eqn:Hcrc|].
    + right. eauto.
    + left. right. right. exists env. split; auto. right.
      unfold crc_ok in Hcrc. now apply Z.eqb_neq in Hcrc.
    + left. right. right. exists env. split; auto. left.
      unfold version_ok in Hver. now apply Z.eqb_neq in Hver.
  - left. tauto.
Qed.

Lemma decode_structural `{Hashlib} (words : list string)
    (word_to_index : gmap string Z) :
  (structural_failure words word_to_index ->
   exists msg, forall passphrase,
     decode_mnemonic words passphrase word_to_index
     = ([], Raise (InvalidMnemonicError msg))) /\
  (~ structural_failure words word_to_index ->
   forall passphrase msg,
     snd (decode_mnemonic words passphrase word_to_index)
     <> Raise (InvalidMnemonicError msg)).
Proof.
  pose proof (mnemonic_to_bytes_spec words word_to_index) as Hs.
  destruct (mnemonic_to_bytes words word_to_index) as [env|e] eqn:Hpack.
  - destruct Hs as (H24 & Hall & Hlen).
    destruct (version_ok env) eqn:Hver; [destruct (crc_ok env) eqn:Hcrc|].
    + split.
      * intros [?|[?|(env' & Henv & Hbad)]]; [lia| |].
        { exfalso. eapply known_all_or_unknown; eauto. }
        { rewrite Hpack in Henv. injection Henv as <-. unfold version_ok, crc_ok in *.
          apply Z.eqb_eq in Hver, Hcrc. tauto. }
      * intros _ passphrase msg.
        pose proof (decode_passing words passphrase word_to_index env
                      Hpack Hver Hcrc) as Hd. cbv zeta in Hd.
        destruct (scrypt _ _ _ _ _ _ _).
        -- destruct Hd as (r & -> & Hr). apply Hr.
        -- rewrite Hd. discriminate.
    + split.
      * intros _. exists "checksum mismatch"%string. intros passphrase.
        unfold decode_mnemonic. rewrite Hpack, then_quiet_ok.
        rewrite getitem_nth by lia. cbn [lift]. rewrite then_quiet_ok.
        change (Z.to_nat 0) with 0%nat.
        unfold version_ok in Hver. rewrite Hver. cbn [negb]. cbv zeta.
        rewrite slice_last4, slice_to_firstn
          by (auto; unfold EncipheredCipherSeedSize; lia).
        change (Z.to_nat (EncipheredCipherSeedSize - 4)) with 29%nat.
        unfold crc_ok in Hcrc. rewrite Hcrc. reflexivity.
      * intros Hno. exfalso. apply Hno. right. right. exists env. split; auto.
        right. unfold crc_ok in Hcrc. now apply Z.eqb_neq in Hcrc.
    + split.
      * intros _. exists "unsupported aezeed version"%string. intros passphrase.
        unfold decode_mnemonic. rewrite Hpack, then_quiet_ok.
        rewrite getitem_nth by lia. cbn [lift]. rewrite then_quiet_ok.
        change (Z.to_nat 0) with 0%nat.
        unfold version_ok in Hver. rewrite Hver. reflexivity.
      * intros Hno. exfalso. apply Hno. right. right. exists env. split; auto.
        left. unfold version_ok in Hver. now apply Z.eqb_neq in Hver.
  - destruct Hs as (Hfail & msg & ->). split.
    + intros _. exists msg. intros passphrase.
      unfold decode_mnemonic. rewrite Hpack. reflexivity.
    + intros Hno. exfalso. apply Hno. unfold structural_failure. tauto.
Qed.

(** C3: [decode_mnemonic] raises [InvalidMnemonicError] exactly on a
    structural failure (word count other than 24, unknown word, version
    byte other than 0, CRC32C mismatch), and then it does so whatever the
    passphrase and before any call of scrypt or of the cipher. *)
Theorem decode_structural_failures `{Hashlib} (words : list string)
    (word_to_index : gmap string Z) :
  (structural_failure words word_to_index ->
   exists msg, forall passphrase,
     decode_mnemonic words passphrase word_to_index
     = ([], Raise (InvalidMnemonicError msg))) /\
  (~ structural_failure words word_to_index ->
   forall passphrase msg,
     snd (decode_mnemonic words passphrase word_to_index)
     <> Raise (InvalidMnemonicError msg)).
Proof. apply decode_structural. Qed.

(** C4: a decode that reaches the key derivation calls scrypt on the UTF-8
    bytes of "aezeed" followed by the passphrase (by nothing when there is
    none), with envelope bytes 24..29 as the salt and N = 32768, r = 8,
    p = 1, dkLen = 32; the key the cipher is then given is the one scrypt
    returned. *)
Theorem decode_kdf_arguments `{Hashlib} (words : list string)
    (passphrase : option string) (word_to_index : gmap string Z)
    (password salt : bytes) (n r p dklen maxmem : Z) :
  In (CallScrypt password salt n r p dklen maxmem)
     (fst (decode_mnemonic words passphrase word_to_index)) ->
  exists envelope,
    mnemonic_to_bytes words word_to_index = Ok envelope /\
    password = encode_utf8 (String.append "aezeed" (default ""%string passphrase)) /\
    password = [97; 101; 122; 101; 101; 100]
               ++ encode_utf8 (default ""%string passphrase) /\
    salt = slice envelope 24 29 /\
    n = 32768 /\ r = 8 /\ p = 1 /\ dklen = 32 /\
    forall key ad_list tau ciphertext,
      In (CallAezDecrypt key ad_list tau ciphertext)
         (fst (decode_mnemonic words passphrase word_to_index)) ->
      scrypt password salt n r p dklen maxmem = Some key.
Proof.
  intros Hin.
  destruct (structural_or_passing words word_to_index)
    as [Hf|(env & Hpack & Hver & Hcrc)].
  - destruct (proj1 (decode_structural words word_to_index) Hf)
      as (msg & Hmsg).
    rewrite Hmsg in Hin. destruct Hin.
  - pose proof (mnemonic_to_bytes_spec words word_to_index) as Hs.
    rewrite Hpack in Hs. destruct Hs as (_ & _ & Hlen).
    pose proof (decode_passing words passphrase word_to_index env
                  Hpack Hver Hcrc) as Hd. cbv zeta in Hd.
    exists env. split; auto.
    assert (Hsalt : envelope_salt env = slice env 24 29)
      by (symmetry; apply (slice_salt env Hlen)).
    destruct (scrypt (kdf_password passphrase) (envelope_salt env)
                32768 8 1 32 2000000000) as [key|] eqn:Hkey.
    + destruct Hd as (res & Hd & _). rewrite Hd in *. cbn [fst] in *.
      destruct Hin as [Hin|[Hin|[]]]; [|discriminate].
      injection Hin as <- <- <- <- <- <- <-.
      rewrite encode_utf8_app. repeat split; try reflexivity; auto.
      intros key' ad tau ct [Hc|[Hc|[]]]; [discriminate|].
      injection Hc as <- _ _ _. exact Hkey.
    + rewrite Hd in *. cbn [fst] in *.
      destruct Hin as [Hin|[]].
      injection Hin as <- <- <- <- <- <- <-.
      rewrite encode_utf8_app. repeat split; try reflexivity; auto.
      intros key' ad tau ct [Hc|[]]. discriminate.
Qed.

(** An envelope with a valid checksum, and a word list that packs to it:
    the 24 words are the letters A to X, indexed by the 11-bit groups of
    the envelope. *)
Definition unpack (envelope : bytes) : list Z :=
  map (fun i => Z.land (Z.shiftr (from_bytes_be envelope)
                          (11 * (23 - Z.of_nat i))) 0x7FF)
      (seq 0 24).

Definition example_envelope : bytes :=
  Eval vm_compute in
    let body := repeat 0 29 in
    body ++ match to_bytes4_be (_crc32c body) with Ok b => b | Raise _ => [] end.

Definition example_words : list string :=
  Eval vm_compute in
    map (fun i => String (Ascii.ascii_of_nat (65 + i)) EmptyString) (seq 0 24).

Definition example_index : gmap string Z :=
  list_to_map (zip example_words (unpack example_envelope)).

Lemma decode_kdf_arguments_example :
  exists envelope,
    mnemonic_to_bytes example_words example_index = Ok envelope /\
    [97; 101; 122; 101; 101; 100; 112; 119]
    = encode_utf8 (String.append "aezeed" (default ""%string (Some "pw"%string))) /\
    [97; 101; 122; 101; 101; 100; 112; 119]
    = [97; 101; 122; 101; 101; 100]
      ++ encode_utf8 (default ""%string (Some "pw"%string)) /\
    [0; 0; 0; 0; 0] = slice envelope 24 29 /\
    32768 = 32768 /\ 8 = 8 /\ 1 = 1 /\ 32 = 32 /\
    forall key ad_list tau ciphertext,
      In (CallAezDecrypt key ad_list tau ciphertext)
         (fst (decode_mnemonic (H := null_hashlib) example_words
                 (Some "pw"%string) example_index)) ->
      scrypt (Hashlib := null_hashlib) [97; 101; 122; 101; 101; 100; 112; 119]
        [0; 0; 0; 0; 0] 32768 8 1 32 2000000000 = Some key.
Proof.
  apply (decode_kdf_arguments (H := null_hashlib) example_words
           (Some "pw"%string) example_index).
  vm_compute. left. reflexivity.
Defined.

(** ** Encipher followed by decipher *)

(** Enciphering and deciphering a message under a key, associated data and
    a tag length, with the state, the delta and the zeroed output buffer set
    up as [_aez_decrypt] sets them up. *)
Definition encipher_message `{Hashlib} (key : bytes) (ad : list bytes)
    (tau : Z) (message : bytes) : res bytes :=
  state <- _AEZState.init (_AEZState.reset _AEZState.__init__) key ;;
  delta <- _AEZState.aez_hash state None ad (tau * 8) ;;
  _AEZState.encipher state delta message (repeat 0 (length message)).

Definition decipher_message `{Hashlib} (key : bytes) (ad : list bytes)
    (tau : Z) (message : bytes) : res bytes :=
  state <- _AEZState.init (_AEZState.reset _AEZState.__init__) key ;;
  delta <- _AEZState.aez_hash state None ad (tau * 8) ;;
  _AEZState.decipher state delta message (repeat 0 (length message)).

(** Whether encipher then decipher gives back the [n]-byte message
    [1, 2, ..., n - tau] followed by [tau] zero bytes. *)
Definition round_trips `{Hashlib} (tau : Z) (n : nat) : bool :=
  let message := map Z.of_nat (seq 1 (n - Z.to_nat tau))
                 ++ repeat 0 (Z.to_nat tau) in
  match encipher_message example_key [[0; 1; 2; 3; 4; 5]] tau message with
  | Ok c =>
      match decipher_message example_key [[0; 1; 2; 3; 4; 5]] tau c with
      | Ok m => bool_decide (m = message)
      | Raise _ => false
      end
  | Raise _ => false
  end.

(** A message of 32 to 63 bytes is enciphered to zero bytes, whatever it
    is: aez-core leaves the zeroed output buffer as it found it. *)
Lemma encipher_core_erases `{Hashlib} (key : bytes) (ad : list bytes) (tau : Z)
    (message : bytes) :
  32 <= len message < 64 ->
  encipher_message key ad tau message = Ok (repeat 0 (length message)).
Proof.
  intros Hm. unfold encipher_message. rewrite reset_fresh.
  destruct (init_schedule key) as (st & Hst & _ & Hwf). rewrite Hst. cbn [bind].
  destruct (returns_inv _ _ (aez_hash_returns st None ad (tau * 8) Hwf))
    as (delta & -> & Hdelta). cbn [bind].
  unfold _AEZState.encipher.
  destruct (Z.eqb_spec (len message) 0); [lia|].
  destruct (Z.ltb_spec (len message) 32); [lia|].
  destruct (aez_core_frame_lemma st delta message 0 (repeat 0 (length message)))
    as (dst' & -> & _ & Hfr); auto; try lia.
  - rewrite repeat_len. unfold len. lia.
  - f_equal. apply Hfr. lia.
Qed.

(** C1 on the code: encipher then decipher is the identity on the test
    messages of 1, 2, 15, 16 and 31 bytes, which aez-tiny handles, and on
    none of those of 32, 33, 47, 48, 64 and 65 bytes, which aez-core
    handles, with or without a 4-byte tag. *)
Theorem encipher_decipher_round_trips :
  forallb (round_trips (H := null_hashlib) 0) [1; 2; 15; 16; 31]%nat = true /\
  forallb (round_trips (H := null_hashlib) 4) [15; 16; 31]%nat = true /\
  forallb (fun n => negb (round_trips (H := null_hashlib) 0 n))
    [32; 33; 47; 48; 64; 65]%nat = true /\
  forallb (fun n => negb (round_trips (H := null_hashlib) 4 n))
    [32; 33; 47; 48; 64; 65]%nat = true /\
  encipher_message (H := null_hashlib) example_key [[0; 1; 2; 3; 4; 5]] 4
    (map Z.of_nat (seq 1 28) ++ repeat 0 4) = Ok (repeat 0 32) /\
  decipher_message (H := null_hashlib) example_key [[0; 1; 2; 3; 4; 5]] 4
    (repeat 0 32) = Ok (repeat 0 32).
Proof. repeat split; vm_compute; reflexivity. Qed.
(** * Further properties of the module *)

(** ** Loops that store one byte per turn *)

Lemma getitem_lookup l i x :
  0 <= i -> l !! Z.to_nat i = Some x -> getitem l i = Ok x.
Proof.
  intros Hi Hx. assert (Hlt : (Z.to_nat i < length l)%nat)
    by (eapply lookup_lt_Some; eauto).
  destruct (returns_inv _ _ (getitem_returns l i ltac:(unfold len; lia)))
    as (y & -> & Hy). congruence.
Qed.

(** A [for] loop whose turn [j] stores [g j] at index [j], whatever it
    finds below [j], fills the range with the values of [g]. *)
Lemma for_range_stores (g : nat -> Z) (body : Z -> bytes -> res bytes) :
  forall n k dst,
    (k + n <= length dst)%nat ->
    (forall j d, (k <= j < k + n)%nat -> length d = length dst ->
                 skipn j d = skipn j dst ->
                 body (Z.of_nat j) d = Ok (<[j := g j]> d)) ->
    for_range n (Z.of_nat k) body dst
    = Ok (firstn k dst ++ map g (seq k n) ++ skipn (k + n) dst).
Proof.
  induction n as [|n IH]; intros k dst Hlen Hbody; cbn [for_range seq map].
  - rewrite Nat.add_0_r. cbn [app]. now rewrite firstn_skipn.
  - rewrite (Hbody k dst) by (auto; lia). cbn [bind].
    replace (Z.of_nat k + 1) with (Z.of_nat (S k)) by lia.
    rewrite IH.
    + f_equal.
      assert (Hk : (k < length dst)%nat) by lia.
      destruct (lookup_lt_is_Some_2 dst k Hk) as [x Hx].
      rewrite (take_S_r _ k (g k)) by (now apply list_lookup_insert_eq).
      rewrite take_insert_ge by lia.
      rewrite drop_insert_lt by lia.
      rewrite <- app_assoc. cbn [app].
      replace (S k + n)%nat with (k + S n)%nat by lia. reflexivity.
    + rewrite length_insert. lia.
    + intros j d Hj Hd Hs. rewrite length_insert in Hd.
      apply Hbody; auto; try lia.
      rewrite Hs. apply drop_insert_lt. lia.
Qed.

(** ** The XOR helpers *)

Definition xor_at (a b : bytes) (j : nat) : Z := Z.lxor (nth j a 0) (nth j b 0).

Lemma map_xor_at : forall n a b,
  (n <= length a)%nat -> (n <= length b)%nat ->
  map (xor_at a b) (seq 0 n) = xor_block (firstn n a) (firstn n b).
Proof.
  induction n as [|n IH]; intros a b Ha Hb; [reflexivity|].
  destruct a as [|x a]; [simpl in Ha; lia|].
  destruct b as [|y b]; [simpl in Hb; lia|].
  cbn [seq map firstn xor_block zip_with]. f_equal.
  rewrite <- seq_shift, map_map. simpl in Ha, Hb.
  exact (IH a b ltac:(lia) ltac:(lia)).
Qed.

Lemma xor_block_involutive (a b : bytes) :
  length a = length b -> xor_block (xor_block a b) b = a.
Proof.
  revert b. induction a as [|x a IH]; intros [|y b] H; try discriminate; auto.
  cbn [xor_block zip_with]. f_equal.
  - rewrite Z.lxor_assoc, Z.lxor_nilpotent. apply Z.lxor_0_r.
  - apply IH. simpl in H. lia.
Qed.

Lemma getitem_short l i : len l <= i -> getitem l i = Raise IndexError.
Proof.
  intros Hi. unfold getitem, resolve. pose proof (len_nonneg l).
  destruct (Z.ltb_spec i 0); [lia|].
  destruct (Z.leb_spec 0 i); [|lia]. destruct (Z.ltb_spec i (len l)); [lia|].
  reflexivity.
Qed.

Lemma for_range_app {St} (body : Z -> St -> res St) : forall n1 n2 i s,
  for_range (n1 + n2) i body s
  = (s' <- for_range n1 i body s ;; for_range n2 (i + Z.of_nat n1) body s').
Proof.
  induction n1 as [|n1 IH]; intros n2 i s; cbn [for_range Nat.add bind].
  - now rewrite Z.add_0_r.
  - destruct (body i s) as [s1|e]; cbn [bind]; [|reflexivity].
    rewrite IH. replace (i + 1 + Z.of_nat n1) with (i + Z.of_nat (S n1)) by lia.
    reflexivity.
Qed.

Lemma xor_turn (a b d : bytes) (j : nat) :
  (j < length a)%nat -> (j < length b)%nat -> (j < length d)%nat ->
  (x <- getitem a (Z.of_nat j) ;; y <- getitem b (Z.of_nat j) ;;
   setitem d (Z.of_nat j) (Z.lxor x y))
  = Ok (<[j := xor_at a b j]> d).
Proof.
  intros Ha Hb Hd.
  rewrite !getitem_nth by (unfold len; lia). cbn [bind].
  rewrite setitem_eq by (unfold len; lia). now rewrite Nat2Z.id.
Qed.

(** [_xor_bytes] writes the bytewise XOR of the operands over the whole of
    [dst], and raises [IndexError] when an operand is shorter than [dst]. *)
Theorem xor_bytes_spec (a b dst : bytes) :
  (len dst <= len a -> len dst <= len b ->
   _xor_bytes a b dst
   = Ok (xor_block (firstn (length dst) a) (firstn (length dst) b))) /\
  (len a < len dst \/ len b < len dst ->
   _xor_bytes a b dst = Raise IndexError).
Proof.
  unfold _xor_bytes, len. split.
  - intros Ha Hb.
    rewrite (for_range_stores (xor_at a b) _ (length dst) 0 dst); [|lia|].
    + cbn [firstn app]. rewrite Nat.add_0_l, skipn_all, app_nil_r.
      f_equal. apply map_xor_at; lia.
    + intros j d Hj Hd _. apply xor_turn; lia.
  - intros Hshort.
    set (m := Nat.min (length a) (length b)).
    assert (Hm : (m < length dst)%nat) by (subst m; lia).
    replace (length dst) with (m + S (length dst - m - 1))%nat at 1 by lia.
    rewrite for_range_app.
    rewrite (for_range_stores (xor_at a b) _ m 0 dst); [|lia|].
    + cbn [bind for_range]. rewrite Z.add_0_l.
      destruct (Nat.le_gt_cases (length a) m).
      * rewrite (getitem_short a) by (unfold len; lia). reflexivity.
      * rewrite (getitem_nth a) by (unfold len; lia). cbn [bind].
        rewrite (getitem_short b) by (unfold len; subst m; lia). reflexivity.
    + intros j d Hj Hd _. apply xor_turn; subst m; lia.
Qed.

Definition xor4_at (a b c d : bytes) (j : nat) : Z :=
  Z.lxor (Z.lxor (Z.lxor (nth j a 0) (nth j b 0)) (nth j c 0)) (nth j d 0).

Lemma map_xor4_at : forall n a b c d,
  (n <= length a)%nat -> (n <= length b)%nat ->
  (n <= length c)%nat -> (n <= length d)%nat ->
  map (xor4_at a b c d) (seq 0 n)
  = xor_block (xor_block (xor_block (firstn n a) (firstn n b)) (firstn n c))
      (firstn n d).
Proof.
  induction n as [|n IH]; intros a b c d Ha Hb Hc Hd; [reflexivity|].
  destruct a as [|x a]; [simpl in Ha; lia|].
  destruct b as [|y b]; [simpl in Hb; lia|].
  destruct c as [|z c]; [simpl in Hc; lia|].
  destruct d as [|w d]; [simpl in Hd; lia|].
  cbn [seq map firstn xor_block zip_with]. f_equal.
  rewrite <- seq_shift, map_map. simpl in Ha, Hb, Hc, Hd.
  exact (IH a b c d ltac:(lia) ltac:(lia) ltac:(lia) ltac:(lia)).
Qed.

Lemma xor1x16_eq (a b dst : bytes) :
  16 <= len a -> 16 <= len b -> 16 <= len dst ->
  _xor_bytes1x16 a b dst
  = Ok (xor_block (firstn 16 a) (firstn 16 b) ++ skipn 16 dst).
Proof.
  unfold len. intros Ha Hb Hd. unfold _xor_bytes1x16.
  change (Z.to_nat BLOCK_SIZE) with 16%nat.
  rewrite (for_range_stores (xor_at a b) _ 16 0 dst); [|lia|].
  - rewrite map_xor_at by lia. reflexivity.
  - intros j d Hj Hl _. apply xor_turn; lia.
Qed.

Lemma xor4x16_eq (a b c d dst : bytes) :
  16 <= len a -> 16 <= len b -> 16 <= len c -> 16 <= len d -> 16 <= len dst ->
  _xor_bytes4x16 a b c d dst
  = Ok (xor_block
          (xor_block (xor_block (firstn 16 a) (firstn 16 b)) (firstn 16 c))
          (firstn 16 d) ++ skipn 16 dst).
Proof.
  unfold len. intros Ha Hb Hc Hd Hdst. unfold _xor_bytes4x16.
  change (Z.to_nat BLOCK_SIZE) with 16%nat.
  rewrite (for_range_stores (xor4_at a b c d) _ 16 0 dst); [|lia|].
  - rewrite map_xor4_at by lia. reflexivity.
  - intros j s Hj Hl _.
    rewrite !getitem_nth by (unfold len; lia). cbn [bind].
    rewrite setitem_eq by (unfold len; lia). now rewrite Nat2Z.id.
Qed.

(** The two block helpers write the bytewise XOR of the first 16 bytes of
    their operands over the first 16 bytes of [dst] and leave the rest of
    [dst]; adding the same block twice, in place, gives the first operand
    back. *)
Theorem xor_blocks_spec (a b c d dst : bytes) :
  16 <= len a -> 16 <= len b -> 16 <= len c -> 16 <= len d -> 16 <= len dst ->
  _xor_bytes1x16 a b dst
  = Ok (xor_block (firstn 16 a) (firstn 16 b) ++ skipn 16 dst) /\
  _xor_bytes4x16 a b c d dst
  = Ok (xor_block
          (xor_block (xor_block (firstn 16 a) (firstn 16 b)) (firstn 16 c))
          (firstn 16 d) ++ skipn 16 dst) /\
  (r <- _xor_bytes1x16 a b dst ;; _xor_bytes1x16 r b r)
  = Ok (firstn 16 a ++ skipn 16 dst).
Proof.
  intros Ha Hb Hc Hd Hdst.
  split; [now apply xor1x16_eq|]. split; [now apply xor4x16_eq|].
  rewrite xor1x16_eq by auto. cbn [bind].
  set (x := xor_block (firstn 16 a) (firstn 16 b)).
  assert (Hx : length x = 16%nat).
  { subst x. unfold xor_block, len in *.
    rewrite length_zip_with, !length_firstn. lia. }
  assert (Hr : 16 <= len (x ++ skipn 16 dst))
    by (unfold len; rewrite length_app; lia).
  rewrite xor1x16_eq by auto.
  rewrite firstn_app, Hx, Nat.sub_diag, firstn_O, app_nil_r.
  rewrite (firstn_all2 (n := 16) x) by lia.
  rewrite skipn_app, Hx, Nat.sub_diag, (skipn_all2 (n := 16) x) by lia.
  cbn [skipn app]. f_equal. f_equal. subst x.
  apply xor_block_involutive. unfold len in *. rewrite !length_firstn. lia.
Qed.

Lemma xor_blocks_spec_example :
  _xor_bytes1x16 (map Z.of_nat (seq 1 16)) (map Z.of_nat (seq 2 17))
    (repeat 255 18)
  = Ok (xor_block (firstn 16 (map Z.of_nat (seq 1 16)))
          (firstn 16 (map Z.of_nat (seq 2 17))) ++ skipn 16 (repeat 255 18)) /\
  _xor_bytes4x16 (map Z.of_nat (seq 1 16)) (map Z.of_nat (seq 2 17))
    (repeat 7 16) (repeat 9 20) (repeat 255 18)
  = Ok (xor_block
          (xor_block (xor_block (firstn 16 (map Z.of_nat (seq 1 16)))
                        (firstn 16 (map Z.of_nat (seq 2 17))))
             (firstn 16 (repeat 7 16)))
          (firstn 16 (repeat 9 20)) ++ skipn 16 (repeat 255 18)) /\
  (r <- _xor_bytes1x16 (map Z.of_nat (seq 1 16)) (map Z.of_nat (seq 2 17))
          (repeat 255 18) ;;
   _xor_bytes1x16 r (map Z.of_nat (seq 2 17)) r)
  = Ok (firstn 16 (map Z.of_nat (seq 1 16)) ++ skipn 16 (repeat 255 18)).
Proof.
  apply (xor_blocks_spec (map Z.of_nat (seq 1 16)) (map Z.of_nat (seq 2 17))
           (repeat 7 16) (repeat 9 20) (repeat 255 18));
    vm_compute; congruence.
Defined.

(** ** Padding *)

Lemma setitem_short l i v : len l <= i -> setitem l i v = Raise IndexError.
Proof.
  intros Hi. unfold setitem, resolve. pose proof (len_nonneg l).
  destruct (Z.ltb_spec i 0); [lia|].
  destruct (Z.leb_spec 0 i); [|lia]. destruct (Z.ltb_spec i (len l)); [lia|].
  reflexivity.
Qed.

Lemma skipn_zeros {A} (x : A) : forall n k,
  skipn k (repeat x n) = repeat x (n - k).
Proof. induction n as [|n IH]; intros [|k]; cbn; auto. Qed.

(** [_one_zero_pad] fills [dst] with the first [size] bytes of [src], the
    byte 0x80 and zeros, whatever [dst] held; a [size] that leaves no room
    for the 0x80 byte raises [IndexError]. *)
Theorem one_zero_pad_spec (src dst : bytes) (size : Z) :
  (0 <= size < len dst -> size <= len src ->
   _one_zero_pad src size dst
   = Ok (firstn (Z.to_nat size) src ++ [0x80]
         ++ repeat 0 (length dst - Z.to_nat size - 1))) /\
  (len dst <= size -> _one_zero_pad src size dst = Raise IndexError).
Proof.
  unfold _one_zero_pad. cbv zeta. rewrite slice_set_all.
  set (zeros := repeat 0 (length dst)).
  assert (Hz : len zeros = len dst) by (subst zeros; apply repeat_len).
  split.
  - intros Hs Hsrc.
    assert (Hpad : (if size =? 0 then zeros
                    else slice_set zeros 0 size (slice_to src size))
                   = firstn (Z.to_nat size) src
                     ++ repeat 0 (length dst - Z.to_nat size)).
    { destruct (Z.eqb_spec size 0) as [->|Hne].
      - cbn [Z.to_nat firstn app]. now rewrite Nat.sub_0_r.
      - rewrite slice_to_firstn by lia.
        unfold slice_set. rewrite !clamp_nonneg by lia.
        rewrite Z.min_l, Z.min_l, Z.max_r by lia.
        change (Z.to_nat 0) with 0%nat. rewrite firstn_O, app_nil_l. f_equal.
        subst zeros. apply skipn_zeros. }
    rewrite Hpad.
    assert (Hk : length (firstn (Z.to_nat size) src) = Z.to_nat size)
      by (rewrite length_firstn; unfold len in *; lia).
    rewrite setitem_eq
      by (unfold len in *; rewrite length_app, repeat_length, Hk; lia).
    f_equal. rewrite insert_app_r_alt by lia. rewrite Hk, Nat.sub_diag.
    f_equal. unfold len in *.
    destruct (length dst - Z.to_nat size)%nat as [|m] eqn:E; [lia|].
    cbn. now rewrite Nat.sub_0_r.
  - intros Hs. apply setitem_short.
    pose proof (len_nonneg dst).
    destruct (Z.eqb_spec size 0); [lia|].
    rewrite slice_set_len_nn by lia. rewrite slice_to_firstn by lia.
    unfold len in *. rewrite length_firstn. lia.
Qed.

(** ** 32-bit words in a block *)

Lemma from_bytes_be_4 v :
  0 <= v < 2 ^ 32 ->
  from_bytes_be [Z.land (Z.shiftr v 24) 0xFF; Z.land (Z.shiftr v 16) 0xFF;
                 Z.land (Z.shiftr v 8) 0xFF; Z.land v 0xFF] = v.
Proof.
  intros Hv. unfold from_bytes_be. cbn [fold_left].
  change 0xFF with (Z.ones 8). rewrite !Z.land_ones, !Z.shiftr_div_pow2 by lia.
  change (2 ^ 8) with 256. change (2 ^ 16) with 65536.
  change (2 ^ 24) with 16777216. change (2 ^ 32) with 4294967296 in Hv.
  Z.div_mod_to_equations. lia.
Qed.

(** A 32-bit word written into a block is read back, and nothing else of
    the block changes; a value that does not fit 32 bits raises
    [OverflowError]. *)
Theorem write_read_uint32 (block : bytes) (off v : Z) :
  (0 <= v < 2 ^ 32 -> 0 <= off -> off + 4 <= len block ->
   exists block',
     _write_uint32_be block off v = Ok block' /\
     len block' = len block /\
     _read_uint32_be block' off = v /\
     firstn (Z.to_nat off) block' = firstn (Z.to_nat off) block /\
     skipn (Z.to_nat (off + 4)) block' = skipn (Z.to_nat (off + 4)) block) /\
  (v < 0 \/ 2 ^ 32 <= v -> _write_uint32_be block off v = Raise OverflowError).
Proof.
  unfold _write_uint32_be, to_bytes4_be. split.
  - intros Hv Hoff Hlen.
    destruct (Z.leb_spec 0 v); [|lia]. destruct (Z.ltb_spec v (2 ^ 32)); [|lia].
    cbn [andb bind]. eexists. split; [reflexivity|].
    set (b := [_; _; _; _]).
    assert (Hb : len b = 4) by reflexivity.
    assert (Heq : slice_set block off (off + 4) b
                  = firstn (Z.to_nat off) block ++ b
                    ++ skipn (Z.to_nat (off + 4)) block).
    { unfold slice_set. rewrite !clamp_nonneg by lia.
      now rewrite Z.min_l, Z.min_l, Z.max_r by lia. }
    assert (Hpre : length (firstn (Z.to_nat off) block) = Z.to_nat off)
      by (rewrite length_firstn; unfold len in *; lia).
    rewrite Heq. repeat split.
    + unfold len in *. rewrite !length_app, Hpre, length_skipn.
      change (length b) with 4%nat. lia.
    + unfold _read_uint32_be, slice. rewrite !clamp_nonneg by lia.
      unfold len in *. rewrite !length_app, Hpre, length_skipn.
      change (length b) with 4%nat.
      rewrite Z.min_l, Z.min_l by lia.
      replace (Z.to_nat (off + 4 - off)) with 4%nat by lia.
      rewrite skipn_app, Hpre, Nat.sub_diag, skipn_all2 by lia.
      cbn [skipn app firstn b]. now apply from_bytes_be_4.
    + rewrite firstn_app, Hpre, Nat.sub_diag, firstn_O, app_nil_r.
      apply firstn_all2. lia.
    + rewrite app_assoc, skipn_app.
      rewrite skipn_all2 by (rewrite length_app, Hpre; change (length b) with 4%nat; lia).
      rewrite length_app, Hpre. change (length b) with 4%nat.
      replace (Z.to_nat (off + 4) - (Z.to_nat off + 4))%nat with 0%nat by lia.
      reflexivity.
  - intros Hv.
    destruct (Z.leb_spec 0 v); [destruct (Z.ltb_spec v (2 ^ 32))|]; try lia;
      reflexivity.
Qed.

(** ** The counter of AEZ-PRF *)

Lemma from_bytes_be_snoc l x :
  from_bytes_be (l ++ [x]) = from_bytes_be l * 256 + x.
Proof. unfold from_bytes_be. now rewrite fold_left_app. Qed.

Lemma bytes_ok_snoc l x :
  bytes_ok (l ++ [x]) = true <-> bytes_ok l = true /\ 0 <= x < 256.
Proof.
  unfold bytes_ok. rewrite forallb_app. cbn [forallb].
  rewrite andb_true_iff, andb_true_r. unfold is_byte.
  rewrite andb_true_iff, Z.leb_le, Z.ltb_lt. tauto.
Qed.

Lemma from_bytes_be_range l :
  bytes_ok l = true -> 0 <= from_bytes_be l < 256 ^ Z.of_nat (length l).
Proof.
  induction l as [|x l IH] using rev_ind; intros Hl.
  - cbn. lia.
  - apply bytes_ok_snoc in Hl. destruct Hl as [Hl Hx].
    rewrite from_bytes_be_snoc, length_app. cbn [length].
    replace (Z.of_nat (length l + 1)) with (Z.succ (Z.of_nat (length l))) by lia.
    rewrite Z.pow_succ_r by lia. specialize (IH Hl). nia.
Qed.

Lemma ctr_incr_prefix : forall n pre suf,
  length pre = n -> bytes_ok pre = true ->
  exists pre',
    _AEZState.ctr_incr n (pre ++ suf) = Ok (pre' ++ suf) /\
    length pre' = n /\ bytes_ok pre' = true /\
    from_bytes_be pre' = (from_bytes_be pre + 1) mod 256 ^ Z.of_nat n.
Proof.
  induction n as [|n IH]; intros pre suf Hn Hb.
  - destruct pre; [|discriminate]. exists []. repeat split; auto.
  - destruct (exists_last (l := pre)) as (pre0 & c & ->);
      [destruct pre; discriminate|].
    rewrite length_app in Hn. cbn [length] in Hn.
    assert (Hn0 : length pre0 = n) by lia.
    apply bytes_ok_snoc in Hb. destruct Hb as [Hb0 Hc].
    pose proof (from_bytes_be_range pre0 Hb0) as Hr. rewrite Hn0 in Hr.
    cbn [_AEZState.ctr_incr]. rewrite <- app_assoc. cbn [app].
    assert (Hget : forall x, getitem (pre0 ++ x :: suf) (Z.of_nat n) = Ok x).
    { intros x. apply getitem_lookup; [lia|]. rewrite Nat2Z.id, <- Hn0.
      apply list_lookup_middle. reflexivity. }
    rewrite Hget. cbn [bind].
    rewrite setitem_eq
      by (unfold len; rewrite length_app; cbn [length]; lia).
    rewrite Nat2Z.id, insert_app_r_alt by lia.
    rewrite Hn0, Nat.sub_diag. cbn [insert list_insert bind].
    rewrite Hget. cbn [bind].
    change 0xFF with (Z.ones 8). rewrite Z.land_ones by lia.
    change (2 ^ 8) with 256.
    rewrite from_bytes_be_snoc.
    replace (Z.of_nat (S n)) with (Z.succ (Z.of_nat n)) by lia.
    rewrite Z.pow_succ_r by lia.
    destruct (Z.eqb_spec ((c + 1) mod 256) 0) as [Hz|Hnz].
    + assert (c = 255) by (Z.div_mod_to_equations; lia). subst c.
      destruct (IH pre0 (0 :: suf) Hn0 Hb0) as (pre1 & Heq & Hl1 & Hb1 & Hv1).
      rewrite Hz, Heq. exists (pre1 ++ [0]).
      rewrite <- app_assoc. split; [reflexivity|].
      split; [rewrite length_app; cbn [length]; lia|].
      split; [apply bytes_ok_snoc; split; [auto | lia]|].
      rewrite from_bytes_be_snoc, Hv1.
      replace (from_bytes_be pre0 * 256 + 255 + 1)
        with ((from_bytes_be pre0 + 1) * 256) by lia.
      rewrite (Z.mul_comm 256), Z.mul_mod_distr_r by lia. lia.
    + assert (Hlt : c < 255) by (Z.div_mod_to_equations; lia).
      rewrite (Z.mod_small (c + 1)) by lia. exists (pre0 ++ [c + 1]).
      rewrite <- app_assoc. split; [reflexivity|].
      split; [rewrite length_app; cbn [length]; lia|].
      split; [apply bytes_ok_snoc; split; [auto | lia]|].
      rewrite from_bytes_be_snoc. rewrite Z.mod_small; nia.
Qed.

(** The loop of [aez_prf] over the counter block adds one to the counter,
    read as a 128-bit big-endian number, and wraps at 2^128. *)
Theorem ctr_incr_adds_one (ctr : bytes) :
  len ctr = 16 -> bytes_ok ctr = true ->
  exists ctr',
    _AEZState.ctr_incr 16 ctr = Ok ctr' /\
    len ctr' = 16 /\ bytes_ok ctr' = true /\
    from_bytes_be ctr' = (from_bytes_be ctr + 1) mod 2 ^ 128.
Proof.
  intros Hlen Hb.
  destruct (ctr_incr_prefix 16 ctr [] ltac:(unfold len in Hlen; lia) Hb)
    as (ctr' & Heq & Hl & Hb' & Hv).
  rewrite !app_nil_r in Heq. exists ctr'. repeat split; auto.
  unfold len. lia.
Qed.

Lemma ctr_incr_adds_one_example :
  exists ctr',
    _AEZState.ctr_incr 16 (repeat 0 14 ++ [1; 255]) = Ok ctr' /\
    len ctr' = 16 /\ bytes_ok ctr' = true /\
    from_bytes_be ctr' = (from_bytes_be (repeat 0 14 ++ [1; 255]) + 1) mod 2 ^ 128.
Proof. apply ctr_incr_adds_one; reflexivity. Defined.

(** ** CRC32C, bit by bit *)

Lemma low_bit u : (Z.land u 1 =? 0) = negb (Z.testbit u 0).
Proof.
  change 1 with (Z.ones 1). rewrite Z.land_ones by lia.
  change (2 ^ 1) with 2. rewrite <- Z.bit0_mod.
  destruct (Z.testbit u 0); reflexivity.
Qed.

Lemma crc_bit_linear u v :
  crc_bit (Z.lxor u v) = Z.lxor (crc_bit u) (crc_bit v).
Proof.
  unfold crc_bit. rewrite !low_bit, Z.lxor_spec, Z.shiftr_lxor.
  set (su := Z.shiftr u 1). set (sv := Z.shiftr v 1).
  destruct (Z.testbit u 0), (Z.testbit v 0); cbn [xorb negb];
    apply Z.bits_inj'; intros n Hn; rewrite ?Z.lxor_spec;
    destruct (Z.testbit su n), (Z.testbit sv n), (Z.testbit _CRC32C_POLY n);
    reflexivity.
Qed.

Lemma crc_bits_linear n u v :
  Nat.iter n crc_bit (Z.lxor u v)
  = Z.lxor (Nat.iter n crc_bit u) (Nat.iter n crc_bit v).
Proof.
  induction n as [|n IH]; [reflexivity|].
  now rewrite !Nat.iter_succ, IH, crc_bit_linear.
Qed.

Lemma crc_bits_shift n : forall y,
  Nat.iter n crc_bit (Z.shiftl y (Z.of_nat n)) = y.
Proof.
  induction n as [|n IH]; intros y.
  - apply Z.shiftl_0_r.
  - rewrite Nat.iter_succ.
    replace (Z.of_nat (S n)) with (1 + Z.of_nat n) by lia.
    rewrite <- Z.shiftl_shiftl, IH by lia.
    unfold crc_bit. rewrite low_bit, Z.shiftl_spec_low by lia. cbn [negb].
    rewrite Z.shiftr_shiftl_l by lia. apply Z.shiftl_0_r.
Qed.

Lemma low_high_byte x :
  x = Z.lxor (Z.land x 0xFF) (Z.shiftl (Z.shiftr x 8) 8).
Proof.
  apply Z.bits_inj'. intros n Hn.
  rewrite Z.lxor_spec, Z.land_spec. change 0xFF with (Z.ones 8).
  destruct (Z.lt_ge_cases n 8).
  - rewrite Z.ones_spec_low, Z.shiftl_spec_low by lia.
    now rewrite andb_true_r, xorb_false_r.
  - rewrite Z.ones_spec_high, Z.shiftl_spec, Z.shiftr_spec by lia.
    rewrite andb_false_r. cbn [xorb]. f_equal. lia.
Qed.

Lemma crc_table_entry i :
  is_byte i = true -> table_get _CRC32C_TABLE i = Nat.iter 8 crc_bit i.
Proof.
  intros Hi. apply Z.eqb_eq. revert i Hi.
  apply (forall_bytes (fun i => table_get _CRC32C_TABLE i =? Nat.iter 8 crc_bit i)).
  vm_compute. reflexivity.
Qed.

Lemma crc_byte_bitwise crc b :
  is_byte b = true -> crc_byte crc b = Nat.iter 8 crc_bit (Z.lxor crc b).
Proof.
  intros Hb. unfold crc_byte.
  rewrite (low_high_byte (Z.lxor crc b)) at 2.
  rewrite crc_bits_linear. change 8 with (Z.of_nat 8) at 3.
  rewrite crc_bits_shift. f_equal.
  - apply crc_table_entry. apply is_byte_range.
    change 0xFF with (Z.ones 8). rewrite Z.land_ones by lia.
    apply Z.mod_pos_bound. lia.
  - rewrite Z.shiftr_lxor. apply is_byte_range in Hb.
    rewrite (Z.shiftr_div_pow2 b), Z.div_small by (change (2 ^ 8) with 256; lia).
    symmetry. apply Z.lxor_0_r.
Qed.

(** The table-driven [_crc32c] is the bit-by-bit reflected CRC whose step
    built the table: every byte is added to the register and followed by
    eight steps of [crc >> 1], XORed with the polynomial when the low bit
    was set.  The result fits 32 bits. *)
Theorem crc32c_bitwise (data : bytes) :
  bytes_ok data = true ->
  _crc32c data
  = Z.land (Z.lnot (fold_left (fun crc b => Nat.iter 8 crc_bit (Z.lxor crc b))
                      data 0xFFFFFFFF)) 0xFFFFFFFF /\
  0 <= _crc32c data < 2 ^ 32.
Proof.
  intros Hb. split.
  - unfold _crc32c. cbv zeta. f_equal. f_equal.
    revert Hb. generalize 0xFFFFFFFF.
    induction data as [|b data IH]; intros crc Hb; [reflexivity|].
    cbn [bytes_ok forallb] in Hb. apply andb_true_iff in Hb.
    destruct Hb as [Hb Hd]. cbn [fold_left].
    rewrite crc_byte_bitwise by exact Hb. apply IH, Hd.
  - unfold _crc32c. cbv zeta.
    generalize (Z.lnot (fold_left crc_byte data 0xFFFFFFFF)). intros x.
    change 0xFFFFFFFF with (Z.ones 32).
    rewrite Z.land_ones by lia. apply Z.mod_pos_bound. lia.
Qed.

Lemma crc32c_bitwise_example :
  _crc32c (encode_utf8 "123456789")
  = Z.land (Z.lnot (fold_left (fun crc b => Nat.iter 8 crc_bit (Z.lxor crc b))
                      (encode_utf8 "123456789") 0xFFFFFFFF)) 0xFFFFFFFF /\
  0 <= _crc32c (encode_utf8 "123456789") < 2 ^ 32.
Proof. apply crc32c_bitwise. reflexivity. Defined.

(** ** Reusing a state *)

Lemma wipe_blocks n (l : list bytes) :
  blocks_ok (Z.of_nat n) l ->
  map (fun buf : bytes => repeat 0 (length buf)) l = repeat (repeat 0 16) n.
Proof.
  intros [Hn Hall]. unfold len in Hn. apply Nat2Z.inj in Hn. subst n.
  induction Hall as [|b l Hb Hall IH]; [reflexivity|].
  cbn [map length repeat]. f_equal; [|exact IH].
  unfold len in Hb. now replace (length b) with 16%nat by lia.
Qed.

(** [reset] wipes an initialised state: every block of [I], [J] and [L] and
    every AES round key is zero afterwards, and [init] on the wiped state
    gives the state that [init] gives on a new one. *)
Theorem reset_wipes_state `{Hashlib} (key0 : bytes) (st : _AEZState.t) :
  _AEZState.init _AEZState.__init__ key0 = Ok st ->
  _AEZState.I (_AEZState.reset st) = repeat (repeat 0 16) 2 /\
  _AEZState.J (_AEZState.reset st) = repeat (repeat 0 16) 3 /\
  _AEZState.L (_AEZState.reset st) = repeat (repeat 0 16) 8 /\
  _AEZState.aes (_AEZState.reset st)
  = Some {| _AESRound.aes10_key := repeat 0 40;
            _AESRound.aes4_key := repeat 0 16 |} /\
  forall key,
    _AEZState.init (_AEZState.reset st) key
    = _AEZState.init _AEZState.__init__ key.
Proof.
  intros Hst. pose proof (init_wf key0 st Hst) as [HI HJ HL (a & Ha & [H10 H4])].
  assert (EI : _AEZState.I (_AEZState.reset st) = repeat (repeat 0 16) 2)
    by (apply (wipe_blocks 2), HI).
  assert (EJ : _AEZState.J (_AEZState.reset st) = repeat (repeat 0 16) 3)
    by (apply (wipe_blocks 3), HJ).
  assert (EL : _AEZState.L (_AEZState.reset st) = repeat (repeat 0 16) 8)
    by (apply (wipe_blocks 8), HL).
  repeat split; auto.
  - cbn [_AEZState.reset _AEZState.aes]. rewrite Ha.
    cbn [option_map]. unfold _AESRound.reset, len in *.
    replace (length (_AESRound.aes10_key a)) with 40%nat by lia.
    replace (length (_AESRound.aes4_key a)) with 16%nat by lia.
    reflexivity.
  - intros key. unfold _AEZState.init. rewrite EI, EJ, EL. reflexivity.
Qed.

Lemma reset_wipes_state_example :
  _AEZState.I (_AEZState.reset example_state) = repeat (repeat 0 16) 2 /\
  _AEZState.J (_AEZState.reset example_state) = repeat (repeat 0 16) 3 /\
  _AEZState.L (_AEZState.reset example_state) = repeat (repeat 0 16) 8 /\
  _AEZState.aes (_AEZState.reset example_state)
  = Some {| _AESRound.aes10_key := repeat 0 40;
            _AESRound.aes4_key := repeat 0 16 |} /\
  forall key,
    _AEZState.init (H := null_hashlib) (_AEZState.reset example_state) key
    = _AEZState.init (H := null_hashlib) _AEZState.__init__ key.
Proof.
  apply (reset_wipes_state (H := null_hashlib) example_key example_state).
  vm_compute. reflexivity.
Defined.

(** ** AEZ-hash and AEZ-PRF on an initialised state *)

(** [aez_hash] on an initialised state returns a 16-byte block, whatever
    the nonce, the associated data and the tag length; on a state that was
    never initialised its assertion fails. *)
Theorem aez_hash_total `{Hashlib} (key : bytes) (st : _AEZState.t)
    (nonce : option bytes) (ad : list bytes) (tau : Z) :
  _AEZState.init _AEZState.__init__ key = Ok st ->
  (exists delta,
     _AEZState.aez_hash st nonce ad tau = Ok delta /\ len delta = 16) /\
  _AEZState.aez_hash _AEZState.__init__ nonce ad tau = Raise AssertionError.
Proof.
  intros Hst. split; [|reflexivity].
  destruct (returns_inv _ _
              (aez_hash_returns st nonce ad tau (init_wf key st Hst)))
    as (delta & Hd & Hl).
  eauto.
Qed.

Lemma aez_hash_total_example :
  (exists delta,
     _AEZState.aez_hash example_state (Some (map Z.of_nat (seq 1 20)))
       [[]; map Z.of_nat (seq 1 33)] (-1) = Ok delta /\ len delta = 16) /\
  _AEZState.aez_hash _AEZState.__init__ (Some (map Z.of_nat (seq 1 20)))
    [[]; map Z.of_nat (seq 1 33)] (-1) = Raise AssertionError.
Proof.
  apply (aez_hash_total (H := null_hashlib) example_key example_state).
  vm_compute. reflexivity.
Defined.

Lemma prf_loop_writes st a delta (Hwf : wf_state st) (Ha : wf_aes a) :
  16 <= len delta ->
  forall fuel off remaining buf ctr dst,
    0 <= remaining <= Z.of_nat fuel -> 0 <= off -> off + remaining <= len dst ->
    len buf = 16 -> len ctr = 16 ->
    returns (_AEZState.prf_loop fuel st a delta off remaining buf ctr dst)
      (fun '(off', rem', buf', ctr', dst') =>
         (0 <= rem' < 16 /\ 0 <= off' /\ off' + rem' = off + remaining /\
          len buf' = 16 /\ len ctr' = 16 /\ len dst' = len dst) /\
         forall m, off + remaining <= Z.of_nat m ->
                   skipn m dst' = skipn m dst).
Proof.
  intros Hd. induction fuel as [|fuel IH];
    intros off remaining buf ctr dst Hr Ho Hl Hb Hc;
    cbn [_AEZState.prf_loop]; unfold BLOCK_SIZE.
  - destruct (Z.ltb_spec remaining 16); [|lia]. simpl. split; [lia | auto].
  - destruct (Z.ltb_spec remaining 16); [simpl; split; [lia | auto]|].
    step xor1_returns as b1 Hb1; try lia.
    step AES10_returns as b2 Hb2; auto; try blk_len16 st Hwf.
    cbv zeta.
    step ctr_incr_returns as c1 Hc1; auto.
    assert (Hb2' : len b2 = 16) by zlen.
    assert (Hdst : len (slice_set dst off (off + 16) b2) = len dst)
      by (rewrite slice_set_len; lia).
    eapply returns_mono; [apply IH; lia|].
    intros [[[[off' rem'] buf'] ctr'] dst'] [Hs Hfr]. split; [lia|].
    intros m Hm. rewrite Hfr by lia. apply skipn_slice_set; lia.
Qed.

(** [aez_prf] on an initialised state writes [tau] bytes at the start of
    [dst] and nothing else: the length of [dst] and its bytes from [tau]
    on are kept. *)
Theorem aez_prf_writes_tau `{Hashlib} (key : bytes) (st : _AEZState.t)
    (delta dst : bytes) (tau : Z) :
  _AEZState.init _AEZState.__init__ key = Ok st ->
  16 <= len delta -> 0 <= tau <= len dst ->
  exists dst',
    _AEZState.aez_prf st delta tau dst = Ok dst' /\
    len dst' = len dst /\
    skipn (Z.to_nat tau) dst' = skipn (Z.to_nat tau) dst.
Proof.
  intros Hst Hd Ht. pose proof (init_wf key st Hst) as Hwf.
  apply returns_inv. unfold _AEZState.aez_prf.
  step the_aes_returns as a Ha; auto. cbv zeta.
  step prf_loop_writes as [[[[off rem] buf] ctr] dst']
                            [(? & ? & ? & ? & ? & ?) Hfr];
    auto; try lia; try (apply mk_block_len; unfold BLOCK_SIZE; lia).
  destruct (Z.ltb_spec 0 rem).
  - step xor1_returns as b1 Hb1; try lia.
    step AES10_returns as b2 Hb2; auto; try blk_len16 st Hwf.
    assert (Hb2' : len b2 = 16) by zlen.
    assert (Hs : len (slice_to b2 rem) = rem)
      by (unfold slice_to; rewrite slice_len; lia).
    simpl. split; [rewrite slice_set_len; lia|].
    rewrite skipn_slice_set by lia. apply Hfr. lia.
  - simpl. split; [lia|]. apply Hfr. lia.
Qed.

Lemma aez_prf_writes_tau_example :
  exists dst',
    _AEZState.aez_prf example_state (map Z.of_nat (seq 1 16)) 20
      (repeat 255 24) = Ok dst' /\
    len dst' = len (repeat 255 24) /\
    skipn (Z.to_nat 20) dst' = skipn (Z.to_nat 20) (repeat 255 24).
Proof.
  apply (aez_prf_writes_tau (H := null_hashlib) example_key example_state);
    vm_compute; try split; congruence.
Defined.

(** ** Encipher and decipher: what they write *)

Lemma aez_tiny_writes st delta data direction dst :
  wf_state st -> 16 <= len delta -> 1 <= len data < 32 -> len data <= len dst ->
  returns (_AEZState.aez_tiny st delta data direction dst)
    (fun r => len r = len dst /\
              skipn (length data) r = skipn (length data) dst).
Proof.
  intros Hwf Hdelta Hn Hdst. unfold _AEZState.aez_tiny.
  step the_aes_returns as a Ha; auto. cbv zeta.
  set (n := len data) in *.
  set (cfg := if n =? 1 then _ else _).
  assert (Hcfg : 0 <= fst cfg < 8 /\ 0 <= snd cfg / 2 /\ 0 <= snd cfg).
  { subst cfg. unfold BLOCK_SIZE.
    destruct (n =? 1); [cbn [fst snd]; arith|].
    destruct (n =? 2); [cbn [fst snd]; arith|].
    destruct (n <? 16); cbn [fst snd]; arith. }
  destruct cfg as [idx_param rounds]. simpl in Hcfg. destruct Hcfg as (Hidx & Hrounds & _).
  assert (Hleft : 0 <= (n + 1) / 2 <= 16) by arith.
  assert (Hhalf : 0 <= n / 2 < 16) by arith.
  assert (Hhl : n / 2 <= (n + 1) / 2) by arith.
  assert (Hhl2 : n / 2 + (n + 1) / 2 = n) by arith.
  set (L0 := slice_set (_mk_block BLOCK_SIZE) 0 _ _).
  assert (HL0 : len L0 = 16) by (subst L0; fold n; lens).
  set (R0 := slice_set (_mk_block BLOCK_SIZE) 0 _ _).
  assert (HR0 : len R0 = 16) by (subst R0; fold n; lens).
  clearbody L0 R0.
  eapply returns_bind with
    (P := fun r : bytes * Z * Z => let '(R, _, _) := r in len R = 16).
  { destruct (Z.land n 1 =? 0); [simpl; auto|].
    step (for_range_keeps (fun R : bytes => len R = 16)) as R1 HR1; auto.
    { intros k R Hk HR.
      step getitem_any as x Hx; [lia|].
      step getitem_any as y Hy; [lia|].
      finish setitem_len; lia. }
    step getitem_any as x Hx; [lia|].
    step setitem_len as R2 HR2; [lia|].
    simpl. lia. }
  intros [[R pad] mask] HR. cbv beta iota.
  eapply returns_bind with
    (P := fun r : bytes * bytes * bytes * Z * Z =>
            let '(buf, L, tmp, _, _) := r in
            len buf = 32 /\ len L = 16 /\ len tmp = 16).
  { destruct (direction =? 0);
      [simpl; repeat split; first [assumption | reflexivity]|].
    eapply returns_bind with
      (P := fun r : bytes * bytes * bytes =>
              let '(buf, L, tmp) := r in
              len buf = 32 /\ len L = 16 /\ len tmp = 16).
    { destruct (Z.ltb_spec n BLOCK_SIZE);
        [|simpl; repeat split; first [assumption | reflexivity]].
      set (buf1 := slice_set (slice_set _ 0 BLOCK_SIZE _) 0 n data).
      assert (Hbuf1 : len buf1 = 32) by (subst buf1; fold n; lens).
      clearbody buf1.
      step tiny_sign_returns as [buf2 tmp2] [Hbuf2 Htmp2]; auto.
      step getitem_any as l0 Hl0; [lia|].
      step getitem_any as t0 Ht0; [lia|].
      step setitem_len as L1 HL1; [lia|].
      simpl. repeat split; lia. }
    intros [[buf L] tmp] (? & ? & ?). simpl. auto. }
  intros [[[[buf L] tmp] j] step0] (Hbuf & HL & Htmp). cbv beta iota.
  eapply returns_bind with
    (P := fun s : bytes * bytes * bytes * bytes * Z =>
            let '(buf, L, R, tmp, _) := s in
            len buf = 32 /\ len L = 16 /\ len R = 16 /\ len tmp = 16).
  { apply for_range_keeps; [repeat split; auto|].
    intros k [[[[buf1 L1] R1] tmp1] j1] Hk (? & ? & ? & ?).
    step tiny_half_returns as [[L2 buf2] tmp2] (? & ? & ?); auto; try lia.
    step tiny_half_returns as [[R2 buf3] tmp3] (? & ? & ?); auto; try lia.
    simpl. repeat split; lia. }
  intros [[[[buf1 L1] R1] tmp1] j1] (Hbuf1 & HL1 & HR1 & Htmp1). cbv beta iota.
  set (buf2 := slice_set (slice_set buf1 0 _ _) _ _ _).
  assert (Hbuf2 : len buf2 = 32) by (subst buf2; lens).
  clearbody buf2.
  eapply returns_bind with (P := fun b : bytes => len b = 32).
  { destruct (Z.land n 1 =? 0); [simpl; auto|].
    step (for_down_keeps (fun b : bytes => len b = 32)) as buf3 Hbuf3; auto.
    { intros k b Hk Hb.
      step getitem_any as x Hx; [lia|].
      step getitem_any as y Hy; [lia|].
      finish setitem_len; lia. }
    step getitem_any as l0 Hl0; [lia|].
    step getitem_any as rh Hrh; [lia|].
    finish setitem_len; lia. }
  intros buf3 Hbuf3.
  set (dst1 := slice_set dst 0 n _).
  assert (Hdst1 : len dst1 = len dst) by (subst dst1; lens).
  assert (Hfr1 : skipn (length data) dst1 = skipn (length data) dst).
  { subst dst1. apply skipn_slice_set; try (fold (len data)); fold n; try lia.
    unfold slice_to. rewrite slice_len; lia. }
  clearbody dst1.
  destruct ((n <? BLOCK_SIZE) && (direction =? 0)) eqn:Epost; [|simpl; auto].
  apply andb_prop in Epost. destruct Epost as [Epost _].
  apply Z.ltb_lt in Epost.
  set (buf4 := slice_set buf3 n BLOCK_SIZE _).
  assert (Hbuf4 : len buf4 = 32) by (subst buf4; lens).
  clearbody buf4.
  step tiny_sign_returns as [buf5 tmp5] [Hbuf5 Htmp5]; auto.
  step getitem_any as d0 Hd0; [lia|].
  step getitem_any as t0 Ht0; [lia|].
  finish setitem_returns; [lia|]. destruct H as [-> Hl].
  split; [unfold len in *; lia|].
  rewrite drop_insert_lt by (change (Z.to_nat 0) with 0%nat; unfold len in *; lia).
  exact Hfr1.
Qed.

(** [encipher] and [decipher] on an initialised state never raise: they
    keep the length of [dst] and its bytes from [len(data)] on, and leave
    [dst] as it is when [data] is empty. *)
Theorem cipher_writes_prefix `{Hashlib} (key : bytes) (st : _AEZState.t)
    (delta data dst : bytes) :
  _AEZState.init _AEZState.__init__ key = Ok st ->
  16 <= len delta -> len data <= len dst ->
  (exists c,
     _AEZState.encipher st delta data dst = Ok c /\ len c = len dst /\
     skipn (length data) c = skipn (length data) dst /\
     (data = [] -> c = dst)) /\
  (exists m,
     _AEZState.decipher st delta data dst = Ok m /\ len m = len dst /\
     skipn (length data) m = skipn (length data) dst /\
     (data = [] -> m = dst)).
Proof.
  intros Hst Hd Hl. pose proof (init_wf key st Hst) as Hwf.
  assert (Hboth : forall direction,
             exists r,
               (if len data =? 0 then Ok dst
                else if len data <? 32
                     then _AEZState.aez_tiny st delta data direction dst
                     else _AEZState.aez_core st delta data direction dst)
               = Ok r /\ len r = len dst /\
               skipn (length data) r = skipn (length data) dst /\
               (data = [] -> r = dst)).
  { intros direction. pose proof (len_nonneg data).
    destruct (Z.eqb_spec (len data) 0) as [Hz|Hnz].
    - exists dst. repeat split; auto.
    - assert (Hne : data = [] -> False) by (intros ->; apply Hnz; reflexivity).
      destruct (Z.ltb_spec (len data) 32).
      + destruct (returns_inv _ _
                    (aez_tiny_writes st delta data direction dst Hwf Hd
                       ltac:(lia) Hl)) as (r & Hr & Hlen & Hfr).
        exists r. repeat split; auto. intros E. destruct (Hne E).
      + destruct (returns_inv _ _
                    (aez_core_returns st delta data direction dst Hwf Hd
                       ltac:(lia) Hl)) as (r & Hr & Hlen & Hfr).
        exists r. repeat split; auto; [|intros E; destruct (Hne E)].
        assert (Hk : (Z.to_nat (len data - 32 - len data mod 32)
                      <= length data)%nat)
          by (unfold len in *; Z.div_mod_to_equations; lia).
        replace (length data)
          with ((length data - Z.to_nat (len data - 32 - len data mod 32))
                + Z.to_nat (len data - 32 - len data mod 32))%nat
          by lia.
        rewrite <- !skipn_skipn. now rewrite Hfr. }
  split; [apply (Hboth 0) | apply (Hboth 1)].
Qed.

Lemma cipher_writes_prefix_example :
  (exists c,
     _AEZState.encipher example_state (map Z.of_nat (seq 1 16))
       (map Z.of_nat (seq 1 23)) (repeat 255 25) = Ok c /\
     len c = len (repeat 255 25) /\
     skipn (length (map Z.of_nat (seq 1 23))) c
     = skipn (length (map Z.of_nat (seq 1 23))) (repeat 255 25) /\
     (map Z.of_nat (seq 1 23) = [] -> c = repeat 255 25)) /\
  (exists m,
     _AEZState.decipher example_state (map Z.of_nat (seq 1 16))
       (map Z.of_nat (seq 1 23)) (repeat 255 25) = Ok m /\
     len m = len (repeat 255 25) /\
     skipn (length (map Z.of_nat (seq 1 23))) m
     = skipn (length (map Z.of_nat (seq 1 23))) (repeat 255 25) /\
     (map Z.of_nat (seq 1 23) = [] -> m = repeat 255 25)).
Proof.
  apply (cipher_writes_prefix (H := null_hashlib) example_key example_state);
    vm_compute; congruence.
Defined.

(** ** The decrypt driver and the decode pipeline never fail *)

Lemma aez_decrypt_returns `{Hashlib} (key : bytes) (ad : list bytes) (tau : Z)
    (ciphertext : bytes) :
  0 <= tau <= len ciphertext ->
  returns (_aez_decrypt key ad tau ciphertext)
    (fun r => forall plaintext,
                r = Some plaintext -> len plaintext = len ciphertext - tau).
Proof.
  intros Htau. unfold _aez_decrypt. cbv zeta. rewrite reset_fresh.
  destruct (init_schedule key) as (st & -> & _ & Hwf). cbn [bind].
  step aez_hash_returns as delta Hdelta; auto.
  destruct (Z.eqb_spec (len ciphertext) tau) as [Heq|Hne].
  - replace (length ciphertext) with (Z.to_nat tau) by (unfold len in *; lia).
    assert (Hx0 : 0 <= tau <= len (repeat 0 (Z.to_nat tau)))
      by (rewrite repeat_len; lia).
    step aez_prf_returns as x Hx; auto; try lia.
    rewrite repeat_len in Hx.
    destruct (prf_mismatch_spec tau x ciphertext) as (m & -> & Hm); try lia.
    cbn [bind].
    destruct (m =? 0); simpl; intros p Hp; [|discriminate].
    injection Hp as <-. change (len []) with 0. lia.
  - assert (Hx0 : len ciphertext <= len (repeat 0 (length ciphertext)))
      by (rewrite repeat_len; unfold len; lia).
    step decipher_returns as x Hx; auto; try lia.
    rewrite repeat_len in Hx.
    change (Z.of_nat (length ciphertext)) with (len ciphertext) in Hx.
    destruct (tag_mismatch_spec tau x ciphertext) as (m & -> & Hm); try lia.
    cbn [bind].
    destruct (m =? 0); simpl; intros p Hp; [|discriminate].
    injection Hp as <-. unfold slice_to. rewrite slice_len; lia.
Qed.

(** [_aez_decrypt] with a tag no longer than the ciphertext never raises:
    it returns [None] or a plaintext of [|C| - tau] bytes. *)
Theorem aez_decrypt_total `{Hashlib} (key : bytes) (ad : list bytes) (tau : Z)
    (ciphertext : bytes) :
  0 <= tau <= len ciphertext ->
  exists r,
    _aez_decrypt key ad tau ciphertext = Ok r /\
    forall plaintext,
      r = Some plaintext -> len plaintext = len ciphertext - tau.
Proof. intros Htau. apply returns_inv. now apply aez_decrypt_returns. Qed.

Lemma aez_decrypt_total_example :
  exists r,
    _aez_decrypt (H := null_hashlib) example_key [[0; 1; 2; 3; 4; 5]] 4
      (map Z.of_nat (seq 1 23)) = Ok r /\
    forall plaintext,
      r = Some plaintext ->
      len plaintext = len (map Z.of_nat (seq 1 23)) - 4.
Proof.
  apply (aez_decrypt_total (H := null_hashlib)). vm_compute. split; congruence.
Defined.


(** ** Validation and decoding agree *)

Lemma validate_mnemonic_eq (words : list string) (word_to_index : gmap string Z) :
  validate_mnemonic words word_to_index
  = Ok match mnemonic_to_bytes words word_to_index with
       | Ok envelope => version_ok envelope && crc_ok envelope
       | Raise _ => false
       end.
Proof.
  pose proof (mnemonic_to_bytes_spec words word_to_index) as Hs.
  unfold validate_mnemonic.
  destruct (mnemonic_to_bytes words word_to_index) as [env|e].
  - destruct Hs as (H24 & Hall & Hlen).
    rewrite getitem_nth by lia. cbn [lift bind Z.to_nat].
    rewrite slice_last4, slice_to_firstn
      by (auto; unfold EncipheredCipherSeedSize; lia).
    unfold version_ok, crc_ok.
    change (Z.to_nat 0) with 0%nat.
    change (Z.to_nat (EncipheredCipherSeedSize - 4)) with 29%nat.
    destruct (nth 0 env 0 =? CipherSeedVersion); reflexivity.
  - destruct Hs as (_ & msg & ->). reflexivity.
Qed.

Lemma validate_structural (words : list string) (word_to_index : gmap string Z) :
  (structural_failure words word_to_index ->
   validate_mnemonic words word_to_index = Ok false) /\
  (~ structural_failure words word_to_index ->
   validate_mnemonic words word_to_index = Ok true).
Proof.
  rewrite validate_mnemonic_eq.
  pose proof (mnemonic_to_bytes_spec words word_to_index) as Hs.
  unfold structural_failure.
  destruct (mnemonic_to_bytes words word_to_index) as [env|e] eqn:Hpack.
  - destruct Hs as (H24 & Hall & Hlen).
    unfold version_ok, crc_ok. split.
    + intros [?|[?|(env' & Henv & Hbad)]]; [lia| |].
      * exfalso. eapply known_all_or_unknown; eauto.
      * injection Henv as <-. f_equal. apply andb_false_iff.
        rewrite !Z.eqb_neq. exact Hbad.
    + intros Hno. f_equal. apply andb_true_iff. rewrite !Z.eqb_eq.
      destruct (Z.eq_dec (nth 0 env 0) CipherSeedVersion);
        destruct (Z.eq_dec (from_bytes_be (skipn 29 env))
                    (_crc32c (firstn 29 env))); auto;
        exfalso; apply Hno; right; right; exists env; auto.
  - destruct Hs as (Hfail & _). split; [reflexivity|].
    intros Hno. exfalso. apply Hno. tauto.
Qed.

(** [validate_mnemonic] says [True] exactly for the mnemonics that
    [decode_mnemonic] does not reject with [InvalidMnemonicError], whatever
    the passphrase, and [False] for all the others. *)
Theorem validate_agrees_with_decode `{Hashlib} (words : list string)
    (word_to_index : gmap string Z) :
  (validate_mnemonic words word_to_index = Ok true \/
   validate_mnemonic words word_to_index = Ok false) /\
  (validate_mnemonic words word_to_index = Ok true <->
   forall passphrase msg,
     snd (decode_mnemonic words passphrase word_to_index)
     <> Raise (InvalidMnemonicError msg)) /\
  (validate_mnemonic words word_to_index = Ok false <->
   exists msg, forall passphrase,
     decode_mnemonic words passphrase word_to_index
     = ([], Raise (InvalidMnemonicError msg))).
Proof.
  destruct (validate_structural words word_to_index) as [Hbad Hgood].
  destruct (decode_structural words word_to_index) as [Dbad Dgood].
  destruct (structural_or_passing words word_to_index)
    as [Hf|(env & Hpack & Hver & Hcrc)].
  - specialize (Hbad Hf). destruct (Dbad Hf) as (msg & Hmsg).
    rewrite Hbad. split; [auto|]. split; split; try discriminate; eauto.
    intros Hall. exfalso. apply (Hall None msg). now rewrite Hmsg.
  - assert (Hno : ~ structural_failure words word_to_index).
    { intros [?|[?|(env' & Henv & Hb)]].
      - pose proof (mnemonic_to_bytes_spec words word_to_index) as Hs.
        rewrite Hpack in Hs. tauto.
      - pose proof (mnemonic_to_bytes_spec words word_to_index) as Hs.
        rewrite Hpack in Hs. destruct Hs as (_ & Hall & _).
        eapply known_all_or_unknown; eauto.
      - rewrite Hpack in Henv. injection Henv as <-.
        unfold version_ok, crc_ok in *. apply Z.eqb_eq in Hver, Hcrc. tauto. }
    rewrite (Hgood Hno). split; [auto|]. split; split; try discriminate; auto.
    intros (msg & Hmsg). exfalso.
    apply (Dgood Hno None msg). now rewrite Hmsg.
Qed.

(** ** The envelope of a mnemonic *)

(** The 11-bit indexes of the words, and the number they spell in base
    2048, first word first. *)
Definition word_indexes (words : list string) (word_to_index : gmap string Z)
  : list Z :=
  map (fun word => default 0 (word_to_index !! word)) words.

Definition base2048 (indexes : list Z) : Z :=
  fold_left (fun acc i => acc * 2048 + i) indexes 0.

Lemma lor_shiftl_add bits i n :
  0 <= n -> 0 <= i < 2 ^ n -> Z.lor (Z.shiftl bits n) i = bits * 2 ^ n + i.
Proof.
  intros Hn Hi. rewrite <- Z.shiftl_mul_pow2 by lia.
  assert (Hland : Z.land (Z.shiftl bits n) i = 0).
  { apply Z.bits_inj'. intros m Hm. rewrite Z.land_spec, Z.bits_0.
    destruct (Z.lt_ge_cases m n).
    - now rewrite Z.shiftl_spec_low.
    - rewrite <- (Z.mod_small i (2 ^ n)) by lia.
      rewrite Z.mod_pow2_bits_high by lia. apply andb_false_r. }
  rewrite <- Z.lxor_lor by exact Hland.
  symmetry. apply Z.add_nocarry_lxor. exact Hland.
Qed.

Lemma emit_value : forall fuel bits bit_len out pos,
  0 <= bit_len <= Z.of_nat fuel -> 0 <= pos ->
  8 * pos + bit_len <= 8 * len out + 7 ->
  0 <= bits < 2 ^ bit_len -> bytes_ok out = true ->
  returns (emit fuel bits bit_len out pos)
    (fun '(bits', bit_len', out', pos') =>
       (0 <= bit_len' < 8 /\ 8 * pos' + bit_len' = 8 * pos + bit_len /\
        len out' = len out /\ 0 <= pos') /\
       0 <= bits' < 2 ^ bit_len' /\ bytes_ok out' = true /\
       from_bytes_be (firstn (Z.to_nat pos') out') * 2 ^ bit_len' + bits'
       = from_bytes_be (firstn (Z.to_nat pos) out) * 2 ^ bit_len + bits).
Proof.
  induction fuel as [|fuel IH]; intros bits bit_len out pos Hb Hp Ho Hbits Hok;
    cbn [emit].
  - destruct (Z.ltb_spec bit_len 8); [|lia]. simpl. repeat split; auto; lia.
  - destruct (Z.ltb_spec bit_len 8); [simpl; repeat split; auto; lia|]. cbv zeta.
    set (bl := bit_len - 8) in *.
    assert (Hbl : 0 <= bl) by (subst bl; lia).
    assert (Hpow : 2 ^ bit_len = 2 ^ bl * 256).
    { replace bit_len with (bl + 8) by (subst bl; lia).
      rewrite Z.pow_add_r by lia. reflexivity. }
    assert (Hq : 0 <= bits / 2 ^ bl < 256).
    { split; [apply Z.div_pos; lia|].
      apply Z.div_lt_upper_bound; lia. }
    assert (Hbyte : Z.land (Z.shiftr bits bl) 0xFF = bits / 2 ^ bl).
    { change 0xFF with (Z.ones 8).
      rewrite Z.land_ones, Z.shiftr_div_pow2 by lia.
      apply Z.mod_small. exact Hq. }
    assert (Hrest : Z.land bits (if bl =? 0 then 0 else Z.shiftl 1 bl - 1)
                    = bits mod 2 ^ bl).
    { destruct (Z.eqb_spec bl 0) as [->|Hne].
      - rewrite Z.land_0_r. change (2 ^ 0) with 1. now rewrite Z.mod_1_r.
      - rewrite Z.shiftl_1_l, Z.sub_1_r, <- Z.ones_equiv.
        apply Z.land_ones. lia. }
    rewrite Hbyte, Hrest.
    assert (Hpos : 0 <= pos < len out) by lia.
    rewrite setitem_eq by exact Hpos. cbn [bind].
    set (out1 := <[Z.to_nat pos := bits / 2 ^ bl]> out).
    assert (Hlen1 : len out1 = len out) by (subst out1; apply insert_len).
    assert (Hok1 : bytes_ok out1 = true).
    { subst out1. unfold bytes_ok in *. rewrite forallb_forall in *.
      intros x Hx. apply list_elem_of_In in Hx.
      apply list_elem_of_lookup in Hx. destruct Hx as [k Hk].
      destruct (decide (k = Z.to_nat pos)) as [->|Hne].
      - rewrite list_lookup_insert_eq in Hk by (unfold len in *; lia).
        injection Hk as <-. unfold is_byte.
        apply andb_true_iff. rewrite Z.leb_le, Z.ltb_lt. exact Hq.
      - rewrite list_lookup_insert_ne in Hk by auto.
        apply Hok, list_elem_of_In. eapply list_elem_of_lookup_2. eauto. }
    assert (Hfb : from_bytes_be (firstn (Z.to_nat (pos + 1)) out1)
                  = from_bytes_be (firstn (Z.to_nat pos) out) * 256
                    + bits / 2 ^ bl).
    { replace (Z.to_nat (pos + 1)) with (S (Z.to_nat pos)) by lia.
      subst out1.
      rewrite (take_S_r _ _ (bits / 2 ^ bl))
        by (apply list_lookup_insert_eq; unfold len in *; lia).
      rewrite take_insert_ge by lia. apply from_bytes_be_snoc. }
    pose proof (Z.mod_pos_bound bits (2 ^ bl) ltac:(lia)) as Hm.
    eapply returns_mono; [apply IH; auto; lia|].
    intros [[[bits' bl'] out'] pos'] (Hs & Hb' & Hok' & Hv).
    split; [lia|]. split; [exact Hb'|]. split; [exact Hok'|].
    rewrite Hv, Hfb, Hpow.
    pose proof (Z.div_mod bits (2 ^ bl) ltac:(lia)). nia.
Qed.

(** A word that the word list maps to an 11-bit index. *)
Definition in_range (word_to_index : gmap string Z) (word : string) : bool :=
  match word_to_index !! word with
  | Some i => (0 <=? i) && (i <? 2048)
  | None => false
  end.

Definition indexed (word_to_index : gmap string Z) (word : string) : Prop :=
  exists i, word_to_index !! word = Some i /\ 0 <= i < 2048.

Lemma in_range_indexed (word_to_index : gmap string Z) words :
  forallb (in_range word_to_index) words = true ->
  Forall (indexed word_to_index) words.
Proof.
  intros H. apply Forall_forall. intros w Hw. apply list_elem_of_In in Hw.
  rewrite forallb_forall in H. specialize (H w Hw).
  unfold in_range in H. unfold indexed.
  destruct (word_to_index !! w) as [i|]; [|discriminate].
  apply andb_true_iff in H. rewrite Z.leb_le, Z.ltb_lt in H. eauto.
Qed.

Lemma pack_value (word_to_index : gmap string Z) :
  forall words bits bit_len out pos,
    Forall (indexed word_to_index) words ->
    0 <= bit_len < 8 -> 0 <= pos ->
    8 * pos + bit_len + 11 * len words <= 8 * len out + 7 ->
    0 <= bits < 2 ^ bit_len -> bytes_ok out = true ->
    exists out' pos' bits' bit_len',
      pack words word_to_index bits bit_len out pos = Ok out' /\
      len out' = len out /\ bytes_ok out' = true /\
      0 <= bit_len' < 8 /\ 0 <= pos' /\ 0 <= bits' < 2 ^ bit_len' /\
      8 * pos' + bit_len' = 8 * pos + bit_len + 11 * len words /\
      from_bytes_be (firstn (Z.to_nat pos') out') * 2 ^ bit_len' + bits'
      = fold_left (fun acc i => acc * 2048 + i)
          (word_indexes words word_to_index)
          (from_bytes_be (firstn (Z.to_nat pos) out) * 2 ^ bit_len + bits).
Proof.
  induction words as [|word words IH];
    intros bits bit_len out pos Hall Hb Hp Ho Hbits Hok; cbn [pack].
  - exists out, pos, bits, bit_len. change (len []) with 0.
    repeat split; auto; lia.
  - assert (Hw : len (word :: words) = 1 + len words)
      by (unfold len; simpl; lia).
    pose proof (len_nonneg words) as Hnn.
    inversion Hall as [|? ? (i & Hi & Hrange) Hall']; subst.
    rewrite Hi. cbv zeta. unfold BitsPerWord.
    rewrite lor_shiftl_add by (change (2 ^ 11) with 2048; lia).
    change (2 ^ 11) with 2048.
    assert (Hpow : 2 ^ (bit_len + 11) = 2 ^ bit_len * 2048)
      by (rewrite Z.pow_add_r by lia; reflexivity).
    destruct (returns_inv _ _
                (emit_value (Z.to_nat (bit_len + 11)) (bits * 2048 + i)
                   (bit_len + 11) out pos ltac:(lia) Hp ltac:(lia)
                   ltac:(rewrite Hpow; nia) Hok))
      as ([[[bits1 bl1] out1] pos1] & -> & Hs & Hb1 & Hok1 & Hv1).
    cbn [lift bind].
    destruct (IH bits1 bl1 out1 pos1 Hall' ltac:(lia) ltac:(lia) ltac:(lia)
                Hb1 Hok1)
      as (out' & pos' & bits' & bl' & -> & Hl & Hok' & ? & ? & ? & Hsum & Hv).
    exists out', pos', bits', bl'. repeat split; auto; try lia.
    rewrite Hv, Hv1. cbn [word_indexes map fold_left]. rewrite Hi. cbn [default].
    unfold word_indexes, id. f_equal. rewrite Hpow. ring.
Qed.

Lemma base2048_snoc l i : base2048 (l ++ [i]) = base2048 l * 2048 + i.
Proof. unfold base2048. now rewrite fold_left_app. Qed.

Lemma base2048_inj : forall l1 l2,
  length l1 = length l2 ->
  Forall (fun i => 0 <= i < 2048) l1 -> Forall (fun i => 0 <= i < 2048) l2 ->
  base2048 l1 = base2048 l2 -> l1 = l2.
Proof.
  induction l1 as [|x l1 IH] using rev_ind; intros l2 Hlen H1 H2 Heq.
  - destruct l2; [reflexivity | discriminate].
  - destruct (exists_last (l := l2)) as (l2' & y & ->).
    { intros ->. rewrite length_app in Hlen. simpl in Hlen. lia. }
    rewrite !length_app in Hlen. cbn [length] in Hlen.
    apply Forall_app in H1, H2. destruct H1 as [H1 Hx], H2 as [H2 Hy].
    inversion Hx; inversion Hy; subst.
    rewrite !base2048_snoc in Heq.
    assert (base2048 l1 = base2048 l2' /\ x = y) as [E ->] by lia.
    f_equal. apply IH; auto. lia.
Qed.

Lemma word_indexes_range words (word_to_index : gmap string Z) :
  Forall (indexed word_to_index) words ->
  Forall (fun i => 0 <= i < 2048) (word_indexes words word_to_index).
Proof.
  induction 1 as [|w ws (i & Hi & Hr) _ IH]; cbn [word_indexes map];
    constructor; auto.
  rewrite Hi. exact Hr.
Qed.

(** The envelope of 24 known words with indexes below 2048 is the 33-byte
    big-endian form of the number that the indexes spell in base 2048; so
    two such word lists with the same envelope have the same indexes. *)
Theorem mnemonic_to_bytes_packs (words : list string)
    (word_to_index : gmap string Z) :
  len words = 24 -> forallb (in_range word_to_index) words = true ->
  exists envelope,
    mnemonic_to_bytes words word_to_index = Ok envelope /\
    len envelope = 33 /\ bytes_ok envelope = true /\
    from_bytes_be envelope = base2048 (word_indexes words word_to_index) /\
    forall words',
      forallb (in_range word_to_index) words' = true ->
      mnemonic_to_bytes words' word_to_index = Ok envelope ->
      word_indexes words' word_to_index = word_indexes words word_to_index.
Proof.
  assert (Hpack : forall ws,
            len ws = 24 -> Forall (indexed word_to_index) ws ->
            exists envelope,
              mnemonic_to_bytes ws word_to_index = Ok envelope /\
              len envelope = 33 /\ bytes_ok envelope = true /\
              from_bytes_be envelope = base2048 (word_indexes ws word_to_index)).
  { intros ws H24 Hall. unfold mnemonic_to_bytes.
    rewrite H24. cbn [Z.eqb Pos.eqb negb].
    destruct (pack_value word_to_index ws 0 0
                (repeat 0 (Z.to_nat EncipheredCipherSeedSize)) 0 Hall
                ltac:(lia) ltac:(lia)
                ltac:(rewrite H24; vm_compute; congruence)
                ltac:(change (2 ^ 0) with 1; lia) ltac:(reflexivity))
      as (out' & pos' & bits' & bl' & Hp & Hl & Hok & ? & ? & ? & Hsum & Hv).
    exists out'. split; [exact Hp|]. split; [exact Hl|]. split; [exact Hok|].
    change (len (repeat 0 (Z.to_nat EncipheredCipherSeedSize))) with 33 in Hl.
    assert (bl' = 0 /\ pos' = 33) as [-> ->] by lia.
    assert (bits' = 0) by (change (2 ^ 0) with 1 in *; lia). subst bits'.
    change (Z.to_nat 33) with 33%nat in Hv.
    rewrite firstn_all2 in Hv by (unfold len in Hl; lia).
    cbn [firstn from_bytes_be fold_left] in Hv.
    change (2 ^ 0) with 1 in Hv. unfold base2048.
    rewrite Z.mul_1_r, Z.add_0_r in Hv. exact Hv. }
  intros H24 Hall. apply in_range_indexed in Hall.
  destruct (Hpack words H24 Hall) as (envelope & Henv & Hlen & Hok & Hval).
  exists envelope. repeat split; auto.
  intros words' Hall' Henv'. apply in_range_indexed in Hall'.
  pose proof (mnemonic_to_bytes_spec words' word_to_index) as Hs.
  rewrite Henv' in Hs. destruct Hs as (H24' & _ & _).
  destruct (Hpack words' H24' Hall') as (env' & Henv2 & _ & _ & Hval').
  rewrite Henv' in Henv2. injection Henv2 as <-.
  apply base2048_inj; auto using word_indexes_range.
  - unfold word_indexes. rewrite !length_map. unfold len in *. lia.
  - congruence.
Qed.

Lemma mnemonic_to_bytes_packs_example :
  exists envelope,
    mnemonic_to_bytes example_words example_index = Ok envelope /\
    len envelope = 33 /\ bytes_ok envelope = true /\
    from_bytes_be envelope = base2048 (word_indexes example_words example_index) /\
    forall words',
      forallb (in_range example_index) words' = true ->
      mnemonic_to_bytes words' example_index = Ok envelope ->
      word_indexes words' example_index
      = word_indexes example_words example_index.
Proof.
  apply (mnemonic_to_bytes_packs example_words example_index);
    vm_compute; reflexivity.
Defined.

(** ** Multiplication of a block by a small integer *)

Lemma xor_block_assoc : forall a b c : bytes,
  xor_block (xor_block a b) c = xor_block a (xor_block b c).
Proof.
  induction a as [|x a IH]; intros [|y b] [|z c]; cbn; auto.
  now rewrite Z.lxor_assoc, IH.
Qed.

Lemma xor_block_zero_r (d : bytes) n :
  length d = n -> xor_block d (repeat 0 n) = d.
Proof.
  revert n. induction d as [|x d IH]; intros [|n] H; try discriminate; auto.
  cbn. rewrite Z.lxor_0_r. f_equal. apply IH. simpl in H. lia.
Qed.

Lemma mult_loop_fuel : forall f1 f2 x t r,
  0 <= x < 2 ^ Z.of_nat f1 -> x < 2 ^ Z.of_nat f2 ->
  mult_loop f1 x t r = mult_loop f2 x t r.
Proof.
  induction f1 as [|f1 IH]; intros f2 x t r H1 H2.
  - change (2 ^ Z.of_nat 0) with 1 in H1. replace x with 0 by lia.
    destruct f2; reflexivity.
  - destruct f2 as [|f2].
    + change (2 ^ Z.of_nat 0) with 1 in H2. replace x with 0 by lia. reflexivity.
    + cbn [mult_loop]. destruct (x =? 0); [reflexivity|].
      destruct (if Z.land x 1 =? 0 then Ok r else _xor_bytes1x16 r t r);
        cbn [bind]; [|reflexivity].
      destruct (_double_block t); cbn [bind]; [|reflexivity].
      rewrite Nat2Z.inj_succ, Z.pow_succ_r in H1, H2 by lia.
      apply IH; rewrite Z.shiftr_div_pow2 by lia; change (2 ^ 1) with 2.
      * split; [apply Z.div_pos; lia | apply Z.div_lt_upper_bound; lia].
      * apply Z.div_lt_upper_bound; lia.
Qed.

Lemma mult_loop_acc : forall fuel x t r,
  len t = 16 -> len r = 16 -> 0 <= x < 2 ^ Z.of_nat fuel ->
  exists m,
    mult_loop fuel x t (repeat 0 16) = Ok m /\ len m = 16 /\
    mult_loop fuel x t r = Ok (xor_block r m).
Proof.
  induction fuel as [|fuel IH]; intros x t r Ht Hr Hx.
  - change (2 ^ Z.of_nat 0) with 1 in Hx. replace x with 0 by lia.
    exists (repeat 0 16).
    rewrite xor_block_zero_r by (unfold len in Hr; lia).
    repeat split; reflexivity.
  - cbn [mult_loop]. destruct (Z.eqb_spec x 0) as [->|Hne].
    + exists (repeat 0 16).
      rewrite xor_block_zero_r by (unfold len in Hr; lia).
      repeat split; reflexivity.
    + destruct (double_inv t Ht) as (t1 & Ht1 & Hlt1).
      assert (Hx' : 0 <= Z.shiftr x 1 < 2 ^ Z.of_nat fuel).
      { rewrite Nat2Z.inj_succ, Z.pow_succ_r in Hx by lia.
        rewrite Z.shiftr_div_pow2 by lia. change (2 ^ 1) with 2.
        split; [apply Z.div_pos; lia | apply Z.div_lt_upper_bound; lia]. }
      destruct (Z.land x 1 =? 0); cbn [bind].
      * rewrite Ht1. cbn [bind]. apply IH; auto.
      * rewrite !xor16_eq by first [reflexivity | unfold len in *; lia]. cbn [bind].
        rewrite Ht1. cbn [bind].
        rewrite xor_block_zero_l by (unfold len in Ht; lia).
        assert (Hrt : len (xor_block r t) = 16) by (apply xor_block_len; auto).
        destruct (IH (Z.shiftr x 1) t1 (xor_block r t) Hlt1 Hrt Hx')
          as (m & Hm & Hlm & Hacc).
        destruct (IH (Z.shiftr x 1) t1 t Hlt1 Ht Hx')
          as (m' & Hm' & _ & Hacc').
        assert (m' = m) by congruence. subst m'.
        exists (xor_block t m). split; [exact Hacc'|].
        split; [apply xor_block_len; auto|].
        rewrite Hacc. f_equal. apply xor_block_assoc.
Qed.

(** [_mult_block] multiplies a 16-byte block by [x] the double-and-add
    way: by 0 it gives the zero block, by 1 the block itself, by [2 * x]
    what it gives by [x] on the doubled block, and by [2 * x + 1] that
    block XORed with the block itself; [dst] is overwritten. *)
Theorem mult_block_double_and_add (src dst : bytes) :
  len src = 16 ->
  _mult_block 0 src dst = Ok (repeat 0 16) /\
  _mult_block 1 src dst = Ok src /\
  (forall x, 1 <= x ->
     _mult_block (2 * x) src dst
     = (d <- _double_block src ;; _mult_block x d dst)) /\
  (forall x, 0 <= x ->
     _mult_block (2 * x + 1) src dst
     = (d <- _double_block src ;; r <- _mult_block x d dst ;;
        Ok (xor_block src r))).
Proof.
  intros Hs.
  assert (Hodd : forall x, 0 <= x ->
            _mult_block (2 * x + 1) src dst
            = (d <- _double_block src ;; r <- _mult_block x d dst ;;
               Ok (xor_block src r))).
  { intros x Hx. unfold _mult_block. cbv zeta. rewrite !slice_set_all.
    destruct (double_inv src Hs) as (d & Hd & Hld). rewrite Hd. cbn [bind].
    rewrite slice_set_all.
    replace (Z.to_nat (2 * x + 1)) with (S (Z.to_nat (2 * x))) by lia.
    cbn [mult_loop].
    destruct (Z.eqb_spec (2 * x + 1) 0); [lia|].
    replace (Z.land (2 * x + 1) 1) with 1.
    2:{ change 1 with (Z.ones 1) at 3. rewrite Z.land_ones by lia.
        change (2 ^ 1) with 2. Z.div_mod_to_equations. lia. }
    change (1 =? 0) with false. cbv iota.
    rewrite xor16_eq by first [reflexivity | unfold len in *; lia]. cbn [bind].
    rewrite Hd. cbn [bind].
    change (_mk_block BLOCK_SIZE) with (repeat 0 16).
    rewrite xor_block_zero_l by (unfold len in Hs; lia).
    replace (Z.shiftr (2 * x + 1) 1) with x.
    2:{ rewrite Z.shiftr_div_pow2 by lia. change (2 ^ 1) with 2.
        Z.div_mod_to_equations. lia. }
    assert (Hpow : x < 2 ^ Z.of_nat (Z.to_nat x))
      by (rewrite Z2Nat.id by lia; apply Z.pow_gt_lin_r; lia).
    assert (Hpow2 : x < 2 ^ Z.of_nat (Z.to_nat (2 * x))).
    { rewrite Z2Nat.id by lia.
      apply Z.lt_le_trans with (2 ^ x); [apply Z.pow_gt_lin_r; lia|].
      apply Z.pow_le_mono_r; lia. }
    rewrite (mult_loop_fuel (Z.to_nat (2 * x)) (Z.to_nat x)) by lia.
    destruct (mult_loop_acc (Z.to_nat x) x d src Hld Hs ltac:(lia))
      as (m & -> & Hlm & ->). cbn [bind]. now rewrite !slice_set_all. }
  split; [|split; [|split]].
  - unfold _mult_block. cbv zeta. change (Z.to_nat 0) with 0%nat.
    cbn [mult_loop]. change (0 =? 0) with true. cbn [bind].
    now rewrite slice_set_all.
  - change 1 with (2 * 0 + 1) at 1. rewrite (Hodd 0 ltac:(lia)).
    destruct (double_inv src Hs) as (d & -> & Hld). cbn [bind].
    unfold _mult_block. cbv zeta. change (Z.to_nat 0) with 0%nat.
    cbn [mult_loop]. change (0 =? 0) with true. cbn [bind].
    rewrite slice_set_all. f_equal.
    change (_mk_block BLOCK_SIZE) with (repeat 0 16).
    apply xor_block_zero_r. unfold len in Hs. lia.
  - intros x Hx. unfold _mult_block. cbv zeta. rewrite !slice_set_all.
    replace (Z.to_nat (2 * x)) with (S (Z.to_nat (2 * x - 1))) by lia.
    cbn [mult_loop].
    destruct (Z.eqb_spec (2 * x) 0); [lia|].
    replace (Z.land (2 * x) 1) with 0.
    2:{ change 1 with (Z.ones 1). rewrite Z.land_ones by lia.
        change (2 ^ 1) with 2. Z.div_mod_to_equations. lia. }
    change (0 =? 0) with true. cbv iota. cbn [bind].
    destruct (_double_block src) as [d|e]; cbn [bind]; [|reflexivity].
    rewrite slice_set_all.
    replace (Z.shiftr (2 * x) 1) with x.
    2:{ rewrite Z.shiftr_div_pow2 by lia. change (2 ^ 1) with 2.
        Z.div_mod_to_equations. lia. }
    assert (Hpow : x < 2 ^ Z.of_nat (Z.to_nat x))
      by (rewrite Z2Nat.id by lia; apply Z.pow_gt_lin_r; lia).
    assert (Hpow2 : x < 2 ^ Z.of_nat (Z.to_nat (2 * x - 1))).
    { rewrite Z2Nat.id by lia.
      apply Z.lt_le_trans with (2 ^ x); [apply Z.pow_gt_lin_r; lia|].
      apply Z.pow_le_mono_r; lia. }
    now rewrite (mult_loop_fuel (Z.to_nat (2 * x - 1)) (Z.to_nat x)) by lia.
  - exact Hodd.
Qed.

Lemma mult_block_double_and_add_example :
  _mult_block 0 (map Z.of_nat (seq 1 16)) [] = Ok (repeat 0 16) /\
  _mult_block 1 (map Z.of_nat (seq 1 16)) [] = Ok (map Z.of_nat (seq 1 16)) /\
  (forall x, 1 <= x ->
     _mult_block (2 * x) (map Z.of_nat (seq 1 16)) []
     = (d <- _double_block (map Z.of_nat (seq 1 16)) ;; _mult_block x d [])) /\
  (forall x, 0 <= x ->
     _mult_block (2 * x + 1) (map Z.of_nat (seq 1 16)) []
     = (d <- _double_block (map Z.of_nat (seq 1 16)) ;;
        r <- _mult_block x d [] ;;
        Ok (xor_block (map Z.of_nat (seq 1 16)) r))).
Proof. apply mult_block_double_and_add. reflexivity. Defined.

(** ** Doubling, as arithmetic *)

Lemma dbl_arith x y :
  is_byte x = true -> is_byte y = true ->
  dbl x y = (2 * x) mod 256 + y / 128.
Proof.
  intros Hx Hy. apply Z.eqb_eq. revert x y Hx Hy.
  apply (forall_bytes2 (fun x y => dbl x y =? (2 * x) mod 256 + y / 128)).
  vm_compute. reflexivity.
Qed.

Lemma dbl_last_arith x t :
  is_byte x = true -> is_byte t = true ->
  dbl_last x t = Z.lxor ((2 * x) mod 256) (if t <? 128 then 0 else 0x87).
Proof.
  intros Hx Ht. apply Z.eqb_eq. revert x t Hx Ht.
  apply (forall_bytes2
           (fun x t => dbl_last x t
                       =? Z.lxor ((2 * x) mod 256) (if t <? 128 then 0 else 0x87))).
  vm_compute. reflexivity.
Qed.

Lemma lxor_low_byte hi lo c :
  0 <= lo < 256 -> 0 <= c < 256 ->
  Z.lxor (hi * 256 + lo) c = hi * 256 + Z.lxor lo c.
Proof.
  intros Hlo Hc.
  assert (Hx : 0 <= Z.lxor lo c < 256).
  { apply is_byte_range, xor_is_byte; apply is_byte_range; lia. }
  assert (Hadd : forall v, 0 <= v < 256 -> hi * 256 + v = Z.lor (Z.shiftl hi 8) v).
  { intros v Hv. now rewrite lor_shiftl_add by (change (2 ^ 8) with 256; lia). }
  rewrite !Hadd by lia.
  apply Z.bits_inj'. intros n Hn.
  rewrite Z.lxor_spec, !Z.lor_spec, Z.lxor_spec.
  destruct (Z.lt_ge_cases n 8).
  - now rewrite Z.shiftl_spec_low by lia.
  - assert (Hhigh : forall v, 0 <= v < 256 -> Z.testbit v n = false).
    { intros v Hv. rewrite <- (Z.mod_small v (2 ^ 8)) by (change (2 ^ 8) with 256; lia).
      apply Z.mod_pow2_bits_high. lia. }
    rewrite (Hhigh lo), (Hhigh c) by lia.
    destruct (Z.testbit (Z.shiftl hi 8) n); reflexivity.
Qed.

(** [_double_block] doubles a block in GF(2^128): read as a 128-bit
    big-endian number, the block is shifted left by one bit, and 0x87 is
    added (XOR) when the bit shifted out was set. *)
Theorem double_block_gf128 (p : bytes) :
  length p = 16%nat -> bytes_ok p = true ->
  exists d,
    _double_block p = Ok d /\ length d = 16%nat /\
    from_bytes_be d
    = Z.lxor ((2 * from_bytes_be p) mod 2 ^ 128)
        (if from_bytes_be p <? 2 ^ 127 then 0 else 0x87).
Proof.
  intros Hp Hb. destruct_block p Hp.
  cbn [bytes_ok forallb] in Hb.
  repeat match goal with
         | H : _ && _ = true |- _ => apply andb_true_iff in H; destruct H
         end.
  eexists. split; [apply double16_eq|]. split; [reflexivity|].
  rewrite !dbl_arith, dbl_last_arith by assumption.
  repeat match goal with
         | H : is_byte _ = true |- _ => apply is_byte_range in H
         end.
  unfold from_bytes_be. cbn [fold_left].
  set (lo := (2 * z14) mod 256).
  set (c := if z <? 128 then 0 else 0x87).
  assert (Hc : 0 <= c < 256) by (subst c; destruct (z <? 128); lia).
  assert (Hlo : 0 <= lo < 256) by (subst lo; apply Z.mod_pos_bound; lia).
  rewrite <- (lxor_low_byte _ lo c) by assumption.
  change (2 ^ 128) with 340282366920938463463374607431768211456.
  change (2 ^ 127) with 170141183460469231731687303715884105728.
  f_equal.
  - apply Z.mod_unique_pos with (q := z / 128);
      subst lo; Z.div_mod_to_equations; lia.
  - subst c.
    match goal with
    | |- _ = (if ?a <? ?b then _ else _) => destruct (Z.ltb_spec a b)
    end; destruct (Z.ltb_spec z 128); try reflexivity; lia.
Qed.

Lemma double_block_gf128_example :
  exists d,
    _double_block (map Z.of_nat (seq 240 16)) = Ok d /\ length d = 16%nat /\
    from_bytes_be d
    = Z.lxor ((2 * from_bytes_be (map Z.of_nat (seq 240 16))) mod 2 ^ 128)
        (if from_bytes_be (map Z.of_nat (seq 240 16)) <? 2 ^ 127 then 0 else 0x87).
Proof. apply double_block_gf128; reflexivity. Defined.

(** ** The tables of the AES round

    AES from its definition: the field GF(2^8) modulo
    x^8 + x^4 + x^3 + x + 1, the S-box (the inverse in the field followed
    by the affine map) and the column (2, 1, 1, 3) of MixColumns. *)

Definition gf_xtime (b : Z) : Z :=
  let d := Z.shiftl b 1 in
  if Z.testbit d 8 then Z.lxor d 0x11B else d.

Fixpoint gf_mul_bits (n : nat) (a b : Z) : Z :=
  match n with
  | O => 0
  | S n' =>
      Z.lxor (if Z.testbit b 0 then a else 0)
        (gf_mul_bits n' (gf_xtime a) (Z.shiftr b 1))
  end.

Definition gf_mul (a b : Z) : Z := gf_mul_bits 8 a b.

(** The inverse of [a], and 0 for 0. *)
Definition gf_inv (a : Z) : Z :=
  default 0 (List.find (fun b => gf_mul a b =? 1) all_bytes).

Definition rotl8 (b k : Z) : Z :=
  Z.land (Z.lor (Z.shiftl b k) (Z.shiftr b (8 - k))) 0xFF.

Definition aes_sbox (a : Z) : Z :=
  let b := gf_inv a in
  Z.lxor (Z.lxor (Z.lxor (Z.lxor (Z.lxor b (rotl8 b 1)) (rotl8 b 2)) (rotl8 b 3))
            (rotl8 b 4)) 0x63.

(** The first T-table: the S-box output times (2, 1, 1, 3), first byte
    first. *)
Definition aes_te0 (a : Z) : Z :=
  let s := aes_sbox a in
  from_bytes_be [gf_mul 2 s; s; s; gf_mul 3 s].

Definition ror32 (x k : Z) : Z :=
  Z.land (Z.lor (Z.shiftr x k) (Z.shiftl x (32 - k))) 0xFFFFFFFF.

Definition te_tables_ok (i : Z) : bool :=
  (table_get TE0 i =? aes_te0 i) && (table_get TE1 i =? ror32 (aes_te0 i) 8)
  && (table_get TE2 i =? ror32 (aes_te0 i) 16)
  && (table_get TE3 i =? ror32 (aes_te0 i) 24).

(** [TE0] to [TE3] are the four encryption T-tables of AES: 256 words
    each, [TE0[i]] the S-box output of [i] times the MixColumns column
    (2, 1, 1, 3), and [TE1], [TE2], [TE3] its rotations by one, two and
    three bytes. *)
Theorem te_tables_are_aes (i : Z) :
  is_byte i = true ->
  table_get TE0 i = aes_te0 i /\
  table_get TE1 i = ror32 (aes_te0 i) 8 /\
  table_get TE2 i = ror32 (aes_te0 i) 16 /\
  table_get TE3 i = ror32 (aes_te0 i) 24 /\
  length TE0 = 256%nat /\ length TE1 = 256%nat /\
  length TE2 = 256%nat /\ length TE3 = 256%nat.
Proof.
  intros Hi.
  assert (H : te_tables_ok i = true).
  { revert i Hi. apply forall_bytes. vm_compute. reflexivity. }
  unfold te_tables_ok in H. rewrite !andb_true_iff, !Z.eqb_eq in H.
  repeat split; try reflexivity; tauto.
Qed.

Lemma te_tables_are_aes_example :
  table_get TE0 0x53 = aes_te0 0x53 /\
  table_get TE1 0x53 = ror32 (aes_te0 0x53) 8 /\
  table_get TE2 0x53 = ror32 (aes_te0 0x53) 16 /\
  table_get TE3 0x53 = ror32 (aes_te0 0x53) 24 /\
  length TE0 = 256%nat /\ length TE1 = 256%nat /\
  length TE2 = 256%nat /\ length TE3 = 256%nat.
Proof. apply te_tables_are_aes. reflexivity. Defined.


(** ** aez-tiny: encipher then decipher *)

(** *** Buffers with a tail *)

Lemma slice_set_prefix {A} (B t v : list A) i j :
  0 <= i <= j -> j <= len B -> slice_set (B ++ t) i j v = slice_set B i j v ++ t.
Proof.
  intros Hi Hj. unfold slice_set. rewrite !clamp_nonneg by lia.
  pose proof (len_nonneg t).
  assert (Hl : len (B ++ t) = len B + len t) by (unfold len; rewrite length_app; lia).
  rewrite Hl, !Z.min_l, !Z.max_r by lia.
  rewrite firstn_app, skipn_app.
  replace (Z.to_nat i - length B)%nat with 0%nat by (unfold len in *; lia).
  replace (Z.to_nat j - length B)%nat with 0%nat by (unfold len in *; lia).
  cbn [firstn skipn]. now rewrite app_nil_r, <- !app_assoc.
Qed.

Lemma slice_set_head {A} (buf v : list A) k :
  0 <= k <= len buf ->
  slice_set buf 0 k v = v ++ skipn (Z.to_nat k) buf.
Proof.
  intros Hk. unfold slice_set. rewrite !clamp_nonneg by lia.
  rewrite Z.min_l, Z.min_l, Z.max_r by lia. reflexivity.
Qed.

Lemma getitem_prefix (B t : bytes) i :
  0 <= i < len B -> getitem (B ++ t) i = Ok (nth (Z.to_nat i) B 0).
Proof.
  intros Hi. rewrite getitem_nth by (unfold len in *; rewrite length_app; lia).
  f_equal. apply app_nth1. unfold len in *. lia.
Qed.

Lemma setitem_prefix (B t : bytes) i v :
  0 <= i < len B -> setitem (B ++ t) i v = Ok (<[Z.to_nat i := v]> B ++ t).
Proof.
  intros Hi. rewrite setitem_eq by (unfold len in *; rewrite length_app; lia).
  f_equal. apply insert_app_l. unfold len in *. lia.
Qed.

Lemma view_prefix (B t : bytes) : len B = 16 -> _AEZState.view (B ++ t) = B.
Proof.
  intros HB. unfold _AEZState.view, slice, BLOCK_SIZE.
  rewrite !clamp_nonneg by lia. pose proof (len_nonneg t).
  assert (Hl : len (B ++ t) = len B + len t) by (unfold len; rewrite length_app; lia).
  rewrite Hl, !Z.min_l by lia.
  change (Z.to_nat (16 - 0)) with 16%nat. change (Z.to_nat 0) with 0%nat.
  change (skipn 0 (B ++ t)) with (B ++ t).
  rewrite firstn_app. replace (16 - length B)%nat with 0%nat
    by (unfold len in *; lia).
  rewrite firstn_O, app_nil_r. apply firstn_all2. unfold len in *. lia.
Qed.

Lemma view_set_prefix (B t v : bytes) :
  len B = 16 -> _AEZState.view_set (B ++ t) v = v ++ t.
Proof.
  intros HB. unfold _AEZState.view_set, BLOCK_SIZE.
  rewrite slice_set_prefix by lia. f_equal.
  rewrite <- HB. apply slice_set_all.
Qed.

Lemma uint8_is_byte z : is_byte (Z.land z 0xFF) = true.
Proof.
  apply is_byte_range. change 0xFF with (Z.ones 8).
  rewrite Z.land_ones by lia. apply Z.mod_pos_bound. lia.
Qed.

(** *** The AES4 call as a function *)

Lemma rounds_bytes a block n :
  wf_aes a -> n = 4 \/ n = 10 -> len block = 16 ->
  returns (_AESRound.rounds a block n)
    (fun r => len r = 16 /\ bytes_ok r = true).
Proof.
  intros [H10 H4] Hn Hb. unfold _AESRound.rounds.
  eapply returns_bind.
  { apply (for_range_returns (fun k s => 0 < k -> u32x4 s)); [lia|].
    intros k s Hk _. finish round_returns; auto; try lia.
    destruct Hn; subst n; simpl in *; lia. }
  cbv beta. intros [[[s0 s1] s2] s3] Hs.
  assert (Hs' : u32x4 (s0, s1, s2, s3))
    by (apply Hs; destruct Hn; subst n; simpl; lia).
  destruct Hs' as (? & ? & ? & ?).
  assert (Hw : forall v, 0 <= v < 2 ^ 32 ->
             to_bytes4_be v
             = Ok [Z.land (Z.shiftr v 24) 0xFF; Z.land (Z.shiftr v 16) 0xFF;
                   Z.land (Z.shiftr v 8) 0xFF; Z.land v 0xFF]).
  { intros v Hv. unfold to_bytes4_be.
    destruct (Z.leb_spec 0 v); [|lia]. destruct (Z.ltb_spec v (2 ^ 32)); [|lia].
    reflexivity. }
  assert (Hb' : length block = 16%nat) by (unfold len in Hb; lia).
  clear Hb. destruct_block block Hb'.
  unfold _write_uint32_be. rewrite !Hw by assumption.
  cbv -[is_byte Z.land Z.shiftr].
  split; [reflexivity|]. rewrite !uint8_is_byte. reflexivity.
Qed.


(** *** The nibble shifts of an odd length *)

Lemma for_down_stores (g : nat -> Z) (body : Z -> bytes -> res bytes) :
  forall m i dst,
    (i + m <= length dst)%nat ->
    (forall j d, (i <= j < i + m)%nat -> length d = length dst ->
                 firstn (S j) d = firstn (S j) dst ->
                 body (Z.of_nat j) d = Ok (<[j := g j]> d)) ->
    _AEZState.for_down m (Z.of_nat i) body dst
    = Ok (firstn i dst ++ map g (seq i m) ++ skipn (i + m) dst).
Proof.
  induction m as [|m IH]; intros i dst Hlen Hbody; cbn [_AEZState.for_down].
  - cbn [seq map app]. now rewrite Nat.add_0_r, firstn_skipn.
  - replace (Z.of_nat i + Z.of_nat m) with (Z.of_nat (i + m)) by lia.
    rewrite (Hbody (i + m)%nat dst) by (auto; lia). cbn [bind].
    rewrite IH.
    + f_equal. rewrite take_insert_ge by lia. f_equal.
      rewrite seq_S, map_app. cbn [map]. rewrite <- app_assoc. f_equal.
      cbn [app].
      rewrite (insert_take_drop dst (i + m)) by lia.
      rewrite skipn_app, length_firstn.
      replace (i + m - Nat.min (i + m) (length dst))%nat with 0%nat by lia.
      rewrite skipn_all2 by (rewrite length_firstn; lia).
      cbn [skipn app]. f_equal. f_equal. lia.
    + rewrite length_insert. lia.
    + intros j d Hj Hd Hs. rewrite length_insert in Hd.
      apply Hbody; auto; try lia.
      rewrite Hs. apply take_insert_ge. lia.
Qed.

Lemma nth_skipn_eq (d l : bytes) j k :
  skipn j d = skipn j l -> (j <= k)%nat -> nth k d 0 = nth k l 0.
Proof.
  intros H Hk. replace k with (j + (k - j))%nat by lia.
  rewrite <- !nth_skipn. now rewrite H.
Qed.

Lemma nth_firstn_eq (d l : bytes) j k :
  firstn j d = firstn j l -> (k < j)%nat -> nth k d 0 = nth k l 0.
Proof.
  intros H Hk.
  assert (E : forall x : bytes, nth k (firstn j x) 0 = nth k x 0).
  { intros x. rewrite nth_firstn. destruct (Nat.ltb_spec k j); [reflexivity | lia]. }
  rewrite <- (E d), <- (E l). now rewrite H.
Qed.

Lemma lookup_nth (l : bytes) k : (k < length l)%nat -> l !! k = Some (nth k l 0).
Proof.
  intros H. destruct (lookup_lt_is_Some_2 l k H) as [x Hx].
  rewrite Hx. f_equal. symmetry. now apply nth_lookup_Some.
Qed.

(** [R] shifted left by four bits, over its first [h + 1] bytes. *)
Definition shl4 (h : nat) (R : bytes) : bytes :=
  map (fun k => Z.land (Z.lor (Z.shiftl (nth k R 0) 4)
                          (Z.shiftr (nth (S k) R 0) 4)) 0xFF) (seq 0 h)
  ++ [Z.land (Z.shiftl (nth h R 0) 4) 0xFF] ++ skipn (S h) R.

Lemma shl4_len h R : (h < length R)%nat -> length (shl4 h R) = length R.
Proof.
  intros H. unfold shl4. rewrite !length_app, length_map, length_seq, length_skipn.
  cbn [length]. lia.
Qed.

Lemma pre_shift (R : bytes) (h : Z) :
  len R = 16 -> 0 <= h < 16 ->
  (R <- for_range (Z.to_nat h) 0
          (fun k R =>
             x <- getitem R k ;;
             y <- getitem R (k + 1) ;;
             setitem R k (Z.land (Z.lor (Z.shiftl x 4) (Z.shiftr y 4)) 0xFF))
          R ;;
   x <- getitem R h ;;
   R <- setitem R h (Z.land (Z.shiftl x 4) 0xFF) ;;
   Ok (R, 0x08, 0xF0))
  = Ok (shl4 (Z.to_nat h) R, 0x08, 0xF0).
Proof.
  intros HR Hh. unfold len in HR.
  change 0 with (Z.of_nat 0) at 1.
  rewrite (for_range_stores
             (fun k => Z.land (Z.lor (Z.shiftl (nth k R 0) 4)
                                 (Z.shiftr (nth (S k) R 0) 4)) 0xFF));
    [|lia|].
  - cbn [bind Nat.add]. rewrite firstn_O, app_nil_l.
    set (M := map _ (seq 0 (Z.to_nat h))).
    assert (HM : length M = Z.to_nat h)
      by (subst M; now rewrite length_map, length_seq).
    assert (Hlen : length (M ++ skipn (Z.to_nat h) R) = 16%nat)
      by (rewrite length_app, length_skipn; lia).
    rewrite getitem_nth by (unfold len; lia). cbn [bind].
    rewrite setitem_eq by (unfold len; lia). f_equal. f_equal. f_equal.
    rewrite app_nth2, HM, Nat.sub_diag by lia.
    rewrite insert_app_r_alt, HM, Nat.sub_diag by lia.
    unfold shl4. fold M. f_equal.
    rewrite (drop_S R (nth (Z.to_nat h) R 0) (Z.to_nat h))
      by (apply lookup_nth; lia).
    reflexivity.
  - intros j d Hj Hd Hs.
    rewrite getitem_nth by (unfold len; lia). cbn [bind].
    replace (Z.of_nat j + 1) with (Z.of_nat (S j)) by lia.
    rewrite getitem_nth by (unfold len; lia). cbn [bind].
    rewrite setitem_eq by (unfold len; lia).
    rewrite !Nat2Z.id.
    now rewrite (nth_skipn_eq d R j j Hs), (nth_skipn_eq d R j (S j) Hs) by lia.
Qed.

(** The output buffer shifted right by four bits, from byte [h] on. *)
Definition shr4 (h : nat) (b : bytes) (l0 rh : Z) : bytes :=
  <[h := Z.lor (Z.land (Z.shiftr l0 4) 0x0F) (Z.land rh 0xF0)]>
    (firstn (S h) b
     ++ map (fun k => Z.land (Z.lor (Z.shiftr (nth k b 0) 4)
                               (Z.shiftl (nth (k - 1) b 0) 4)) 0xFF)
          (seq (S h) h)).

Lemma shr4_len h b l0 rh :
  length b = (2 * h + 1)%nat -> length (shr4 h b l0 rh) = length b.
Proof.
  intros H. unfold shr4.
  rewrite length_insert, length_app, length_firstn, length_map, length_seq. lia.
Qed.

Lemma post_shift (b tail L R : bytes) (n h : Z) :
  0 <= h < 16 -> n = 2 * h + 1 -> len b = n -> len L = 16 -> len R = 16 ->
  (buf <- _AEZState.for_down (Z.to_nat (n - 1 - h)) (h + 1)
            (fun k buf =>
               x <- getitem buf k ;;
               y <- getitem buf (k - 1) ;;
               setitem buf k
                 (Z.land (Z.lor (Z.shiftr x 4) (Z.shiftl y 4)) 0xFF))
            (b ++ tail) ;;
   l0 <- getitem L 0 ;;
   rh <- getitem R h ;;
   setitem buf h (Z.lor (Z.land (Z.shiftr l0 4) 0x0F) (Z.land rh 0xF0)))
  = Ok (shr4 (Z.to_nat h) b (nth 0 L 0) (nth (Z.to_nat h) R 0) ++ tail).
Proof.
  intros Hh Hn Hb HL HR. unfold len in Hb.
  replace (h + 1) with (Z.of_nat (S (Z.to_nat h))) by lia.
  replace (Z.to_nat (n - 1 - h)) with (Z.to_nat h) by lia.
  rewrite (for_down_stores
             (fun k => Z.land (Z.lor (Z.shiftr (nth k b 0) 4)
                                 (Z.shiftl (nth (k - 1) b 0) 4)) 0xFF));
    [|rewrite length_app; lia|].
  - cbn [bind].
    rewrite getitem_nth by lia. rewrite getitem_nth by lia. cbn [bind].
    change (Z.to_nat 0) with 0%nat.
    rewrite firstn_app.
    replace (S (Z.to_nat h) - length b)%nat with 0%nat by lia.
    rewrite firstn_O, app_nil_r.
    rewrite skipn_app.
    rewrite (skipn_all2 b) by lia.
    replace (S (Z.to_nat h) + Z.to_nat h - length b)%nat with 0%nat by lia.
    cbn [skipn app]. rewrite app_assoc.
    rewrite setitem_prefix; [reflexivity|].
    unfold len. rewrite length_app, length_firstn, length_map, length_seq. lia.
  - intros j d Hj Hd Hs. rewrite length_app in Hd.
    rewrite getitem_nth by (unfold len; lia). cbn [bind].
    rewrite getitem_nth by (unfold len; lia). cbn [bind].
    rewrite setitem_eq by (unfold len; lia).
    rewrite Nat2Z.id. replace (Z.to_nat (Z.of_nat j - 1)) with (j - 1)%nat by lia.
    rewrite (nth_firstn_eq d (b ++ tail) (S j) j Hs) by lia.
    rewrite (nth_firstn_eq d (b ++ tail) (S j) (j - 1) Hs) by lia.
    now rewrite !app_nth1 by lia.
Qed.

(** *** Nibbles of a byte *)

Definition hi (x : Z) : Z := Z.land x 0xF0.
Definition lo (x : Z) : Z := Z.land x 0x0F.
Definition hs (x : Z) : Z := Z.land (Z.shiftl x 4) 0xFF.
Definition ls (x : Z) : Z := Z.shiftr x 4.
Definition sl (a b : Z) : Z := Z.land (Z.lor (Z.shiftl a 4) (Z.shiftr b 4)) 0xFF.
Definition sr (x y : Z) : Z := Z.land (Z.lor (Z.shiftr x 4) (Z.shiftl y 4)) 0xFF.
Definition mid (l0 rh : Z) : Z :=
  Z.lor (Z.land (Z.shiftr l0 4) 0x0F) (Z.land rh 0xF0).

Ltac by_bytes1 P :=
  let x := fresh "x" in let H := fresh "H" in
  intros x H; apply Z.eqb_eq; revert x H;
  apply (forall_bytes P); vm_compute; reflexivity.

Ltac by_bytes2 P :=
  let x := fresh "x" in let y := fresh "y" in
  let Hx := fresh "H" in let Hy := fresh "H" in
  intros x y Hx Hy; apply Z.eqb_eq; revert x y Hx Hy;
  apply (forall_bytes2 P); vm_compute; reflexivity.

Lemma sl_split : forall x y, is_byte x = true -> is_byte y = true ->
  sl x y = Z.lor (hs x) (ls y).
Proof. by_bytes2 (fun x y => sl x y =? Z.lor (hs x) (ls y)). Qed.

Lemma sr_split : forall x y, is_byte x = true -> is_byte y = true ->
  sr x y = Z.lor (ls (hi x)) (hs y).
Proof. by_bytes2 (fun x y => sr x y =? Z.lor (ls (hi x)) (hs y)). Qed.

Lemma mid_split : forall l r, is_byte l = true -> is_byte r = true ->
  mid l r = Z.lor (ls (hi l)) (hi r).
Proof. by_bytes2 (fun l r => mid l r =? Z.lor (ls (hi l)) (hi r)). Qed.

Lemma hs_mid : forall l r, is_byte l = true -> is_byte r = true ->
  hs (mid l r) = hi l.
Proof. by_bytes2 (fun l r => hs (mid l r) =? hi l). Qed.

Lemma hi_mid : forall l r, is_byte l = true -> is_byte r = true ->
  hi (mid l r) = hi r.
Proof. by_bytes2 (fun l r => hi (mid l r) =? hi r). Qed.

Lemma hs_sr : forall b a, is_byte b = true -> is_byte a = true ->
  hs (sr b a) = hi b.
Proof. by_bytes2 (fun b a => hs (sr b a) =? hi b). Qed.

Lemma ls_sr : forall c b, is_byte c = true -> is_byte b = true ->
  ls (sr c b) = lo b.
Proof. by_bytes2 (fun c b => ls (sr c b) =? lo b). Qed.

Lemma hi_sl : forall a b, is_byte a = true -> is_byte b = true ->
  hi (sl a b) = hs a.
Proof. by_bytes2 (fun a b => hi (sl a b) =? hs a). Qed.

Lemma hs_sl : forall a b, is_byte a = true -> is_byte b = true ->
  hs (sl a b) = hi b.
Proof. by_bytes2 (fun a b => hs (sl a b) =? hi b). Qed.

Lemma mid_byte : forall l r, is_byte l = true -> is_byte r = true ->
  is_byte (mid l r) = true.
Proof.
  intros l r Hl Hr. revert l r Hl Hr.
  apply (forall_bytes2 (fun l r => is_byte (mid l r))). vm_compute. reflexivity.
Qed.

Lemma hi_hs : forall a, is_byte a = true -> hi (hs a) = hs a.
Proof. by_bytes1 (fun a => hi (hs a) =? hs a). Qed.

Lemma ls_hs : forall a, is_byte a = true -> ls (hs a) = lo a.
Proof. by_bytes1 (fun a => ls (hs a) =? lo a). Qed.

Lemma hi_lo : forall b, is_byte b = true -> Z.lor (hi b) (lo b) = b.
Proof. by_bytes1 (fun b => Z.lor (hi b) (lo b) =? b). Qed.

Lemma lo_hi : forall b, is_byte b = true -> Z.lor (lo b) (hi b) = b.
Proof. by_bytes1 (fun b => Z.lor (lo b) (hi b) =? b). Qed.

Lemma hi_hi : forall b, is_byte b = true -> hi (hi b) = hi b.
Proof. by_bytes1 (fun b => hi (hi b) =? hi b). Qed.

Lemma sign_lor : forall x t, is_byte x = true -> is_byte t = true ->
  Z.lor (Z.lxor x (Z.land t 0x80)) 0x80 = Z.lor x 0x80.
Proof.
  by_bytes2 (fun x t => Z.lor (Z.lxor x (Z.land t 0x80)) 0x80 =? Z.lor x 0x80).
Qed.

Lemma sign_hs : forall x t, is_byte x = true -> is_byte t = true ->
  hs (Z.lxor x (Z.land t 0x80)) = hs x.
Proof. by_bytes2 (fun x t => hs (Z.lxor x (Z.land t 0x80)) =? hs x). Qed.

Lemma sign_byte : forall x t, is_byte x = true -> is_byte t = true ->
  is_byte (Z.lxor x (Z.land t 0x80)) = true.
Proof.
  intros x t Hx Ht. revert x t Hx Ht.
  apply (forall_bytes2 (fun x t => is_byte (Z.lxor x (Z.land t 0x80)))).
  vm_compute. reflexivity.
Qed.

Lemma lxor_twice x s : Z.lxor (Z.lxor x s) s = x.
Proof. now rewrite Z.lxor_assoc, Z.lxor_nilpotent, Z.lxor_0_r. Qed.

Lemma nth_is_byte (l : bytes) i : bytes_ok l = true -> is_byte (nth i l 0) = true.
Proof.
  intros H. unfold bytes_ok in H. rewrite forallb_forall in H.
  destruct (Nat.lt_ge_cases i (length l)) as [Hi|Hi].
  - apply H. now apply nth_In.
  - now rewrite nth_overflow.
Qed.

Lemma bytes_ok_nth (l : bytes) :
  (forall i, (i < length l)%nat -> is_byte (nth i l 0) = true) ->
  bytes_ok l = true.
Proof.
  intros H. unfold bytes_ok. apply forallb_forall. intros x Hx.
  destruct (In_nth l x 0 Hx) as (i & Hi & <-). now apply H.
Qed.

(** *** Bytes of the halves and of the output *)

Lemma nth_xor (X T : bytes) i :
  (i < length X)%nat -> (i < length T)%nat ->
  nth i (xor_block X T) 0 = Z.lxor (nth i X 0) (nth i T 0).
Proof.
  revert X T. induction i as [|i IH]; intros [|x X] [|t T] HX HT;
    simpl in HX, HT; try lia; cbn [xor_block zip_with nth]; auto.
  apply IH; lia.
Qed.

Lemma nth_insert (l : bytes) i j v :
  (j < length l)%nat ->
  nth i (<[j := v]> l) 0 = if Nat.eqb i j then v else nth i l 0.
Proof.
  intros Hj. destruct (Nat.eqb_spec i j) as [->|Hne].
  - apply nth_lookup_Some. now apply list_lookup_insert_eq.
  - destruct (Nat.lt_ge_cases i (length l)) as [Hi|Hi].
    + apply nth_lookup_Some. rewrite list_lookup_insert_ne by auto.
      now apply lookup_nth.
    + rewrite !nth_overflow; auto. now rewrite length_insert.
Qed.

Lemma nth_map_seq (g : nat -> Z) a m i :
  (i < m)%nat -> nth i (map g (seq a m)) 0 = g (a + i)%nat.
Proof.
  intros Hi. rewrite (nth_indep _ 0 (g 0%nat)) by (now rewrite length_map, length_seq).
  rewrite map_nth. f_equal. now apply seq_nth.
Qed.

Lemma nth_firstn_lt (l : bytes) k i : (i < k)%nat -> nth i (firstn k l) 0 = nth i l 0.
Proof.
  intros Hi. rewrite nth_firstn. destruct (Nat.ltb_spec i k); [reflexivity | lia].
Qed.

Lemma nth_firstn_ge (l : bytes) k i : (k <= i)%nat -> nth i (firstn k l) 0 = 0.
Proof.
  intros Hi. rewrite nth_firstn. destruct (Nat.ltb_spec i k); [lia | reflexivity].
Qed.

Lemma nth_repeat0 k i : nth i (repeat 0 k) 0 = 0.
Proof.
  destruct (Nat.lt_ge_cases i k).
  - now apply nth_repeat_lt.
  - apply nth_overflow. now rewrite repeat_length.
Qed.

Lemma nth_shl4 h R i :
  (h < length R)%nat -> (i <= h)%nat ->
  nth i (shl4 h R) 0
  = if Nat.ltb i h then sl (nth i R 0) (nth (S i) R 0) else hs (nth h R 0).
Proof.
  intros Hh Hi. unfold shl4.
  destruct (Nat.ltb_spec i h) as [Hlt|Hge].
  - rewrite app_nth1 by (now rewrite length_map, length_seq).
    now rewrite nth_map_seq.
  - assert (i = h) by lia. subst i.
    rewrite app_nth2 by (rewrite length_map, length_seq; lia).
    rewrite length_map, length_seq, Nat.sub_diag. reflexivity.
Qed.

Lemma nth_shr4 h b l0 rh i :
  length b = (2 * h + 1)%nat -> (i <= 2 * h)%nat ->
  nth i (shr4 h b l0 rh) 0
  = if Nat.ltb i h then nth i b 0
    else if Nat.eqb i h then mid l0 rh
    else sr (nth i b 0) (nth (i - 1) b 0).
Proof.
  intros Hb Hi. unfold shr4.
  rewrite nth_insert
    by (rewrite length_app, length_firstn, length_map, length_seq; lia).
  destruct (Nat.eqb_spec i h) as [->|Hne].
  - rewrite Nat.ltb_irrefl. reflexivity.
  - destruct (Nat.ltb_spec i h) as [Hlt|Hge].
    + rewrite app_nth1 by (rewrite length_firstn; lia).
      apply nth_firstn_lt. lia.
    + rewrite app_nth2 by (rewrite length_firstn; lia).
      rewrite length_firstn.
      replace (Nat.min (S h) (length b)) with (S h) by lia.
      rewrite nth_map_seq by lia.
      replace (S h + (i - S h))%nat with i by lia. reflexivity.
Qed.
Section Tiny.

Context (st : _AEZState.t) (a : _AESRound.t) (delta : bytes).
Hypothesis Hwf : wf_state st.
Hypothesis Ha : wf_aes a.
Hypothesis Hdelta : 16 <= len delta.

Definition aes4f (j i l src : bytes) : bytes :=
  match _AESRound.AES4 a j i l src (repeat 0 16) with
  | Ok r => r
  | Raise _ => repeat 0 16
  end.

Lemma AES4_eq j i l src dst :
  16 <= len j -> 16 <= len i -> 16 <= len l -> 16 <= len src -> len dst = 16 ->
  _AESRound.AES4 a j i l src dst = Ok (aes4f j i l src) /\
  len (aes4f j i l src) = 16 /\ bytes_ok (aes4f j i l src) = true.
Proof.
  intros Hj Hi Hl Hs Hd.
  assert (Hsame : _AESRound.AES4 a j i l src dst
                  = _AESRound.AES4 a j i l src (repeat 0 16)).
  { unfold _AESRound.AES4.
    rewrite !xor4x16_eq by (auto; rewrite ?repeat_len; lia).
    rewrite !skipn_all2; [reflexivity | rewrite repeat_length; lia
                         | unfold len in Hd; lia]. }
  assert (Hr : returns (_AESRound.AES4 a j i l src (repeat 0 16))
                 (fun r => len r = 16 /\ bytes_ok r = true)).
  { unfold _AESRound.AES4.
    step xor4_len as d Hd'; auto; try (rewrite repeat_len; lia).
    rewrite repeat_len in Hd'.
    apply rounds_bytes; auto. }
  unfold aes4f. rewrite Hsame.
  destruct (returns_inv _ _ Hr) as (r & -> & Hlr & Hbr). auto.
Qed.


Abbreviation I1 := (blk (_AEZState.I st) 1).
Abbreviation Lb := (fun i => blk (_AEZState.L st) i).

Lemma blk_I1 : len I1 = 16.
Proof. apply (blk_len _ _ _ (wf_I st Hwf)). lia. Qed.

Lemma blk_L i : 0 <= i < 8 -> len (Lb i) = 16.
Proof. intros. now apply (blk_len _ _ _ (wf_L st Hwf)). Qed.

Lemma xor_block_len16 x y : len x = 16 -> len y = 16 -> len (xor_block x y) = 16.
Proof. apply xor_block_len. Qed.

Lemma firstn16 {A} (l : list A) : len l = 16 -> firstn 16 l = l.
Proof. intros H. apply firstn_all2. unfold len in H. lia. Qed.

Lemma skipn16 {A} (l : list A) : len l = 16 -> skipn 16 l = [].
Proof. intros H. apply skipn_all2. unfold len in H. lia. Qed.

Lemma xor1x16_block (x y dst : bytes) :
  len x = 16 -> 16 <= len y -> len dst = 16 ->
  _xor_bytes1x16 x y dst = Ok (xor_block x (firstn 16 y)).
Proof.
  intros Hx Hy Hd. rewrite xor1x16_eq by lia.
  now rewrite (firstn16 x), (skipn16 dst), app_nil_r.
Qed.

Lemma firstn16_len {A} (l : list A) : 16 <= len l -> len (firstn 16 l) = 16.
Proof. intros H. unfold len in *. rewrite length_firstn. lia. Qed.

(** The block that [tiny_sign] enciphers, from the first block of [buf]. *)
Definition sign_block (B : bytes) : bytes :=
  xor_block (firstn 16 delta) (<[0%nat := Z.lor (nth 0 B 0) 0x80]> B).

Definition sign_of (B : bytes) : bytes :=
  aes4f ZERO_BLOCK I1 (Lb 3) (sign_block B).

Lemma sign_block_len B : len B = 16 -> len (sign_block B) = 16.
Proof.
  intros HB. unfold sign_block. apply xor_block_len16.
  - now apply firstn16_len.
  - now rewrite insert_len.
Qed.

Lemma tiny_sign_eq B t tmp :
  len B = 16 -> len tmp = 16 ->
  _AEZState.tiny_sign st a delta (B ++ t) tmp
  = Ok (sign_block B ++ t, sign_of B).
Proof.
  intros HB Ht. unfold _AEZState.tiny_sign.
  rewrite getitem_prefix by lia. cbn [bind]. change (Z.to_nat 0) with 0%nat.
  rewrite setitem_prefix by lia. cbn [bind]. change (Z.to_nat 0) with 0%nat.
  set (B1 := <[0%nat := Z.lor (nth 0 B 0) 0x80]> B).
  assert (HB1 : len B1 = 16) by (subst B1; now rewrite insert_len).
  rewrite view_prefix by exact HB1.
  assert (Hx : _xor_bytes1x16 delta B1 B1 = Ok (sign_block B)).
  { rewrite xor1x16_eq by lia.
    now rewrite (firstn16 B1), (skipn16 B1), app_nil_r. }
  rewrite Hx. cbn [bind].
  rewrite view_set_prefix by exact HB1.
  rewrite view_prefix by (now apply sign_block_len).
  destruct (AES4_eq ZERO_BLOCK I1 (Lb 3) (sign_block B) tmp) as (-> & _ & _);
    auto; try reflexivity.
  - rewrite blk_I1. lia.
  - rewrite blk_L; lia.
  - rewrite sign_block_len; auto. lia.
Qed.

(** The block that one half round enciphers, from its source block. *)
Definition half_block (ll mid mask pad j : Z) (src : bytes) : bytes :=
  let b := slice_set (repeat 0 16) 0 ll (slice_to src ll) in
  let b := <[Z.to_nat mid := Z.lor (Z.land (nth (Z.to_nat mid) b 0) mask) pad]> b in
  let b := xor_block b (firstn 16 delta) in
  <[15%nat := Z.lxor (nth 15 b 0) (Z.land j 0xFF)]> b.

Lemma half_block_len ll mid mask pad j src :
  0 <= ll <= 16 -> len src = 16 -> len (half_block ll mid mask pad j src) = 16.
Proof.
  intros Hl Hs. unfold half_block. cbv zeta. rewrite insert_len.
  apply xor_block_len16; [|now apply firstn16_len].
  rewrite insert_len, slice_set_len;
    try reflexivity; try lia; try (rewrite repeat_len; lia).
  unfold slice_to. rewrite slice_len; lia.
Qed.

Lemma tiny_half_eq n ll mask pad idx j src acc B t tmp :
  0 <= n < 32 -> 0 <= ll <= 16 -> 0 <= idx < 8 ->
  len src = 16 -> len acc = 16 -> len B = 16 -> len tmp = 16 ->
  _AEZState.tiny_half st a delta n ll mask pad idx j src acc (B ++ t) tmp
  = Ok (xor_block acc
          (aes4f ZERO_BLOCK I1 (Lb idx) (half_block ll (n / 2) mask pad j src)),
        half_block ll (n / 2) mask pad j src ++ t,
        aes4f ZERO_BLOCK I1 (Lb idx) (half_block ll (n / 2) mask pad j src)).
Proof.
  intros Hn Hl Hi Hs Hac HB Ht.
  assert (Hmid : 0 <= n / 2 < 16) by (Z.div_mod_to_equations; lia).
  unfold _AEZState.tiny_half. cbv zeta.
  rewrite (slice_set_prefix B t) by (unfold BLOCK_SIZE; lia).
  rewrite (slice_set_block B) by (auto; reflexivity).
  change (repeat 0 (Z.to_nat BLOCK_SIZE)) with (repeat 0 16).
  rewrite (slice_set_prefix (repeat 0 16) t) by (rewrite ?repeat_len; lia).
  set (b1 := slice_set (repeat 0 16) 0 ll (slice_to src ll)).
  assert (Hb1 : len b1 = 16).
  { subst b1. rewrite slice_set_len;
      try reflexivity; try lia; try (rewrite repeat_len; lia).
    unfold slice_to. rewrite slice_len; lia. }
  rewrite getitem_prefix by lia. cbn [bind].
  rewrite setitem_prefix by lia. cbn [bind].
  set (b2 := <[Z.to_nat (n / 2) := _]> b1).
  assert (Hb2 : len b2 = 16) by (subst b2; now rewrite insert_len).
  rewrite view_prefix by exact Hb2.
  rewrite (xor1x16_block b2 delta b2) by auto. cbn [bind].
  rewrite view_set_prefix by exact Hb2.
  set (b3 := xor_block b2 (firstn 16 delta)).
  assert (Hb3 : len b3 = 16)
    by (subst b3; apply xor_block_len16; auto using firstn16_len).
  rewrite getitem_prefix by lia. cbn [bind]. change (Z.to_nat 15) with 15%nat.
  rewrite setitem_prefix by lia. cbn [bind]. change (Z.to_nat 15) with 15%nat.
  set (b4 := <[15%nat := _]> b3).
  assert (Hb4 : len b4 = 16) by (subst b4; now rewrite insert_len).
  rewrite view_prefix by exact Hb4.
  destruct (AES4_eq ZERO_BLOCK I1 (Lb idx) b4 tmp) as (-> & HT & _);
    auto; try reflexivity; try lia.
  { rewrite blk_I1. lia. }
  { rewrite blk_L; lia. }
  cbn [bind].
  rewrite (xor1x16_block acc _ acc) by (auto; lia). cbn [bind].
  rewrite firstn16 by exact HT. reflexivity.
Qed.

(** *** The Feistel rounds *)

Definition half_F (n ll mask pad idx j : Z) (src : bytes) : bytes :=
  aes4f ZERO_BLOCK I1 (Lb idx) (half_block ll (n / 2) mask pad j src).

Fixpoint feistel (k : nat) (n ll mask pad idx step j : Z) (L R : bytes)
  : bytes * bytes :=
  match k with
  | O => (L, R)
  | S k' =>
      let L1 := xor_block L (half_F n ll mask pad idx j R) in
      let R1 := xor_block R (half_F n ll mask pad idx (j + step) L1) in
      feistel k' n ll mask pad idx step (j + step * 2) L1 R1
  end.

Lemma half_F_ok n ll mask pad idx j src :
  0 <= n < 32 -> 0 <= ll <= 16 -> 0 <= idx < 8 -> len src = 16 ->
  len (half_F n ll mask pad idx j src) = 16 /\
  bytes_ok (half_F n ll mask pad idx j src) = true.
Proof.
  intros Hn Hl Hi Hs. unfold half_F.
  destruct (AES4_eq ZERO_BLOCK I1 (Lb idx)
              (half_block ll (n / 2) mask pad j src) (repeat 0 16))
    as (_ & H1 & H2); auto; try reflexivity.
  - rewrite blk_I1. lia.
  - rewrite blk_L; lia.
  - rewrite half_block_len; auto. lia.
Qed.

Lemma bytes_ok_xor x y :
  bytes_ok x = true -> bytes_ok y = true -> bytes_ok (xor_block x y) = true.
Proof.
  revert y. induction x as [|u x IH]; intros [|v y] Hx Hy; auto.
  cbn [bytes_ok forallb xor_block zip_with] in *.
  apply andb_true_iff in Hx, Hy. destruct Hx, Hy.
  apply andb_true_iff. split; [now apply xor_is_byte | now apply IH].
Qed.

Lemma feistel_ok n ll mask pad idx step :
  0 <= n < 32 -> 0 <= ll <= 16 -> 0 <= idx < 8 ->
  forall k j L R,
    len L = 16 -> len R = 16 ->
    len (fst (feistel k n ll mask pad idx step j L R)) = 16 /\
    len (snd (feistel k n ll mask pad idx step j L R)) = 16 /\
    (bytes_ok L = true -> bytes_ok R = true ->
     bytes_ok (fst (feistel k n ll mask pad idx step j L R)) = true /\
     bytes_ok (snd (feistel k n ll mask pad idx step j L R)) = true).
Proof.
  intros Hn Hl Hi. induction k as [|k IH]; intros j L R HL HR; cbn [feistel].
  - cbn [fst snd]. auto.
  - cbv zeta.
    destruct (half_F_ok n ll mask pad idx j R Hn Hl Hi HR) as [H1 H2].
    set (L1 := xor_block L _).
    assert (HL1 : len L1 = 16) by (subst L1; now apply xor_block_len16).
    destruct (half_F_ok n ll mask pad idx (j + step) L1 Hn Hl Hi HL1) as [H3 H4].
    set (R1 := xor_block R _).
    assert (HR1 : len R1 = 16) by (subst R1; now apply xor_block_len16).
    destruct (IH (j + step * 2) L1 R1 HL1 HR1) as (E1 & E2 & E3).
    split; [exact E1|]. split; [exact E2|].
    intros HbL HbR. apply E3; subst L1 R1; auto using bytes_ok_xor.
Qed.

Lemma feistel_loop n ll mask pad idx step :
  0 <= n < 32 -> 0 <= ll <= 16 -> 0 <= idx < 8 ->
  forall k i B t L R tmp j,
    len B = 16 -> len L = 16 -> len R = 16 -> len tmp = 16 ->
    exists B' tmp' j',
      for_range k i
        (fun _ s =>
           let '(buf, L, R, tmp, j) := s in
           r <- _AEZState.tiny_half st a delta n ll mask pad idx j R L buf tmp ;;
           let '(L, buf, tmp) := r in
           r <- _AEZState.tiny_half st a delta n ll mask pad idx (j + step)
                  L R buf tmp ;;
           let '(R, buf, tmp) := r in
           Ok (buf, L, R, tmp, j + step * 2))
        (B ++ t, L, R, tmp, j)
      = Ok (B' ++ t, fst (feistel k n ll mask pad idx step j L R),
            snd (feistel k n ll mask pad idx step j L R), tmp', j') /\
      len B' = 16 /\ len tmp' = 16.
Proof.
  intros Hn Hl Hi. induction k as [|k IH]; intros i B t L R tmp j HB HL HR Ht;
    cbn [for_range feistel].
  - exists B, tmp, j. cbn [fst snd]. auto.
  - rewrite tiny_half_eq by auto. cbn [bind].
    destruct (half_F_ok n ll mask pad idx j R Hn Hl Hi HR) as [H1 _].
    fold (half_F n ll mask pad idx j R).
    set (L1 := xor_block L _).
    assert (HL1 : len L1 = 16) by (subst L1; now apply xor_block_len16).
    rewrite tiny_half_eq by (auto using half_block_len).
    cbn [bind]. fold (half_F n ll mask pad idx (j + step) L1).
    destruct (half_F_ok n ll mask pad idx (j + step) L1 Hn Hl Hi HL1) as [H3 _].
    set (R1 := xor_block R _).
    assert (HR1 : len R1 = 16) by (subst R1; now apply xor_block_len16).
    apply IH; auto using half_block_len.
Qed.

(** *** The closed form of aez-tiny *)

Hypothesis Haes : _AEZState.the_aes st = Ok a.

Definition split_L (n : Z) (data : bytes) : bytes :=
  slice_set (repeat 0 16) 0 ((n + 1) / 2) (slice_to data ((n + 1) / 2)).

Definition split_R0 (n : Z) (data : bytes) : bytes :=
  slice_set (repeat 0 16) 0 ((n + 1) / 2)
    (slice data (n / 2) (n / 2 + (n + 1) / 2)).

Definition split_R (n : Z) (data : bytes) : bytes :=
  if Z.land n 1 =? 0 then split_R0 n data
  else shl4 (Z.to_nat (n / 2)) (split_R0 n data).

Definition tiny_pad (n : Z) : Z := if Z.land n 1 =? 0 then 0x80 else 0x08.
Definition tiny_mask (n : Z) : Z := if Z.land n 1 =? 0 then 0x00 else 0xF0.

Definition tiny_idx (n : Z) : Z := if n <? 16 then 7 else 6.
Definition tiny_rounds (n : Z) : Z :=
  if n =? 1 then 24 else if n =? 2 then 16 else if n <? 16 then 10 else 8.

(** The output bytes, from the two halves after the rounds. *)
Definition tiny_join (n : Z) (L R : bytes) : bytes :=
  let h := Z.to_nat (n / 2) in
  let b := firstn h R ++ firstn (Z.to_nat ((n + 1) / 2)) L in
  if Z.land n 1 =? 0 then b else shr4 h b (nth 0 L 0) (nth h R 0).

Definition sign_bit (B : bytes) : Z := Z.land (nth 0 (sign_of B) 0) 0x80.

Definition tiny_enc (data : bytes) : bytes :=
  let n := len data in
  let LR := feistel (Z.to_nat (tiny_rounds n / 2)) n ((n + 1) / 2)
              (tiny_mask n) (tiny_pad n) (tiny_idx n) 1 0
              (split_L n data) (split_R n data) in
  let out := tiny_join n (fst LR) (snd LR) in
  if n <? 16
  then <[0%nat := Z.lxor (nth 0 out 0)
                    (sign_bit (out ++ repeat 0 (Z.to_nat (16 - n))))]> out
  else out.

Definition tiny_dec (data : bytes) : bytes :=
  let n := len data in
  let L0 := split_L n data in
  let L0 := if n <? 16
            then <[0%nat := Z.lxor (nth 0 L0 0)
                              (sign_bit (data ++ repeat 0 (Z.to_nat (16 - n))))]> L0
            else L0 in
  let LR := feistel (Z.to_nat (tiny_rounds n / 2)) n ((n + 1) / 2)
              (tiny_mask n) (tiny_pad n) (tiny_idx n) (-1) (tiny_rounds n - 1)
              L0 (split_R n data) in
  tiny_join n (fst LR) (snd LR).

Lemma parity_cases n :
  0 <= n ->
  (Z.land n 1 = 0 /\ n = 2 * (n / 2) /\ (n + 1) / 2 = n / 2) \/
  (Z.land n 1 = 1 /\ n = 2 * (n / 2) + 1 /\ (n + 1) / 2 = n / 2 + 1).
Proof.
  intros Hn.
  assert (E : Z.land n 1 = n mod 2)
    by (change 1 with (Z.ones 1); now rewrite Z.land_ones).
  rewrite E. Z.div_mod_to_equations. lia.
Qed.

Lemma split_L_len n data :
  1 <= n <= 31 -> len data = n -> len (split_L n data) = 16.
Proof.
  intros Hn Hd. unfold split_L.
  assert (0 <= (n + 1) / 2 <= 16 /\ (n + 1) / 2 <= n)
    by (Z.div_mod_to_equations; lia).
  rewrite slice_set_len; rewrite ?repeat_len; try lia.
  unfold slice_to. rewrite slice_len; lia.
Qed.

Lemma split_R0_len n data :
  1 <= n <= 31 -> len data = n -> len (split_R0 n data) = 16.
Proof.
  intros Hn Hd. unfold split_R0.
  assert (0 <= (n + 1) / 2 <= 16 /\ 0 <= n / 2 /\ n / 2 + (n + 1) / 2 <= n)
    by (Z.div_mod_to_equations; lia).
  rewrite slice_set_len; rewrite ?repeat_len; try lia.
  rewrite slice_len; lia.
Qed.

Lemma split_R_len n data :
  1 <= n <= 31 -> len data = n -> len (split_R n data) = 16.
Proof.
  intros Hn Hd. unfold split_R. pose proof (split_R0_len n data Hn Hd) as H.
  destruct (Z.land n 1 =? 0); auto.
  unfold len in *. rewrite shl4_len; auto.
  assert (0 <= n / 2 < 16) by (Z.div_mod_to_equations; lia). lia.
Qed.

Lemma tiny_idx_rounds n :
  (if n =? 1 then (7, 24)
   else if n =? 2 then (7, 16)
   else if n <? BLOCK_SIZE then (7, 10) else (6, 8))
  = (tiny_idx n, tiny_rounds n).
Proof.
  unfold tiny_idx, tiny_rounds, BLOCK_SIZE.
  destruct (Z.eqb_spec n 1); [subst; reflexivity|].
  destruct (Z.eqb_spec n 2); [subst; reflexivity|].
  destruct (n <? 16); reflexivity.
Qed.

Lemma sign_of_len B : len B = 16 -> len (sign_of B) = 16.
Proof.
  intros HB. unfold sign_of.
  destruct (AES4_eq ZERO_BLOCK I1 (Lb 3) (sign_block B) (repeat 0 16))
    as (_ & H & _); auto; try reflexivity.
  - rewrite blk_I1. lia.
  - rewrite blk_L; lia.
  - rewrite sign_block_len; auto. lia.
Qed.

Lemma join_buf (buf L R : bytes) (n : Z) :
  1 <= n <= 31 -> len buf = 32 -> len L = 16 -> len R = 16 ->
  slice_set (slice_set buf 0 (n / 2) (slice_to R (n / 2)))
    (n / 2) (n / 2 + (n + 1) / 2) (slice_to L ((n + 1) / 2))
  = (firstn (Z.to_nat (n / 2)) R ++ firstn (Z.to_nat ((n + 1) / 2)) L)
    ++ skipn (Z.to_nat n) buf.
Proof.
  intros Hn Hb HL HR.
  assert (Hh : 0 <= n / 2 < 16 /\ 0 <= (n + 1) / 2 <= 16 /\
               n / 2 + (n + 1) / 2 = n) by (Z.div_mod_to_equations; lia).
  rewrite slice_set_head by lia. rewrite !slice_to_firstn by lia.
  unfold len in *.
  assert (H1 : length (firstn (Z.to_nat (n / 2)) R) = Z.to_nat (n / 2))
    by (rewrite length_firstn; lia).
  unfold slice_set. rewrite !clamp_nonneg by lia. unfold len.
  rewrite length_app, length_skipn, H1.
  rewrite !Z.min_l, Z.max_r by lia.
  rewrite firstn_app, H1, Nat.sub_diag, firstn_O, app_nil_r.
  rewrite (firstn_all2 (firstn _ R)) by lia.
  rewrite skipn_app, H1.
  rewrite (skipn_all2 (firstn _ R)) by lia. cbn [app].
  rewrite skipn_skipn, <- app_assoc. repeat f_equal. lia.
Qed.

Lemma tiny_join_len n L R :
  1 <= n <= 31 -> len L = 16 -> len R = 16 ->
  length (tiny_join n L R) = Z.to_nat n.
Proof.
  intros Hn HL HR. unfold tiny_join. cbv zeta. unfold len in *.
  assert (Hb : length (firstn (Z.to_nat (n / 2)) R
                       ++ firstn (Z.to_nat ((n + 1) / 2)) L) = Z.to_nat n).
  { rewrite length_app, !length_firstn.
    destruct (parity_cases n) as [(_ & ? & ?)|(_ & ? & ?)]; lia. }
  destruct (parity_cases n ltac:(lia)) as [(E & ? & ?)|(E & ? & ?)]; rewrite E.
  - exact Hb.
  - change (1 =? 0) with false. cbv iota. rewrite shr4_len; lia.
Qed.

Lemma tiny_post n B t L R tmp dst (enc : bool) :
  1 <= n <= 31 -> n <= len dst ->
  len B = 16 -> len t = 16 -> len L = 16 -> len R = 16 -> len tmp = 16 ->
  (buf1 <-
     (if Z.land n 1 =? 0
      then
        Ok (slice_set (slice_set (B ++ t) 0 (n / 2) (slice_to R (n / 2)))
              (n / 2) (n / 2 + (n + 1) / 2) (slice_to L ((n + 1) / 2)))
      else
        buf1 <-
          _AEZState.for_down (Z.to_nat (n - 1 - n / 2)) (n / 2 + 1)
            (fun k buf1 =>
               x <- getitem buf1 k ;;
               y <- getitem buf1 (k - 1) ;;
               setitem buf1 k
                 (Z.land (Z.lor (Z.shiftr x 4) (Z.shiftl y 4)) 255))
            (slice_set (slice_set (B ++ t) 0 (n / 2) (slice_to R (n / 2)))
               (n / 2) (n / 2 + (n + 1) / 2) (slice_to L ((n + 1) / 2))) ;;
        l0 <- getitem L 0 ;;
        rh <- getitem R (n / 2) ;;
        setitem buf1 (n / 2)
          (Z.lor (Z.land (Z.shiftr l0 4) 15) (Z.land rh 240))) ;;
   if (n <? BLOCK_SIZE) && enc
   then
     r2 <- _AEZState.tiny_sign st a delta
             (slice_set buf1 n BLOCK_SIZE
                (repeat 0 (Z.to_nat (BLOCK_SIZE - n)))) tmp ;;
     (let '(_, tmp1) := r2 in
      d0 <- getitem (slice_set dst 0 n (slice_to buf1 n)) 0 ;;
      t0 <- getitem tmp1 0 ;;
      setitem (slice_set dst 0 n (slice_to buf1 n)) 0
        (Z.lxor d0 (Z.land t0 128)))
   else Ok (slice_set dst 0 n (slice_to buf1 n)))
  = Ok ((let out := tiny_join n L R in
         if (n <? 16) && enc
         then <[0%nat := Z.lxor (nth 0 out 0)
                           (sign_bit (out ++ repeat 0 (Z.to_nat (16 - n))))]> out
         else out)
        ++ skipn (Z.to_nat n) dst).
Proof.
  intros Hn Hdst HB Ht HL HR Htmp.
  assert (Hbuf : len (B ++ t) = 32) by (unfold len in *; rewrite length_app; lia).
  assert (Hh : 0 <= n / 2 < 16 /\ 0 <= (n + 1) / 2 <= 16 /\
               n / 2 + (n + 1) / 2 = n) by (Z.div_mod_to_equations; lia).
  rewrite join_buf by auto.
  pose proof (tiny_join_len n L R Hn HL HR) as Hout.
  set (b := firstn (Z.to_nat (n / 2)) R ++ firstn (Z.to_nat ((n + 1) / 2)) L).
  assert (Hb : length b = Z.to_nat n)
    by (subst b; unfold len in *; rewrite length_app, !length_firstn; lia).
  assert (Hpre : (if Z.land n 1 =? 0
                  then Ok (b ++ skipn (Z.to_nat n) (B ++ t))
                  else
                    buf1 <-
                      _AEZState.for_down (Z.to_nat (n - 1 - n / 2)) (n / 2 + 1)
                        (fun k buf1 =>
                           x <- getitem buf1 k ;;
                           y <- getitem buf1 (k - 1) ;;
                           setitem buf1 k
                             (Z.land (Z.lor (Z.shiftr x 4) (Z.shiftl y 4)) 255))
                        (b ++ skipn (Z.to_nat n) (B ++ t)) ;;
                    l0 <- getitem L 0 ;;
                    rh <- getitem R (n / 2) ;;
                    setitem buf1 (n / 2)
                      (Z.lor (Z.land (Z.shiftr l0 4) 15) (Z.land rh 240)))
                 = Ok (tiny_join n L R ++ skipn (Z.to_nat n) (B ++ t))).
  { unfold tiny_join. cbv zeta. fold b.
    destruct (parity_cases n ltac:(lia)) as [(E & ? & ?)|(E & ? & ?)]; rewrite E.
    - reflexivity.
    - change (1 =? 0) with false. cbv iota.
      apply post_shift; auto; unfold len; lia. }
  rewrite Hpre. cbn [bind]. clear Hpre.
  set (out := tiny_join n L R) in *.
  assert (Hsl : slice_to (out ++ skipn (Z.to_nat n) (B ++ t)) n = out).
  { rewrite slice_to_firstn by lia. rewrite firstn_app, Hout, Nat.sub_diag.
    rewrite firstn_O, app_nil_r. apply firstn_all2. lia. }
  rewrite Hsl. rewrite slice_set_head by lia.
  unfold BLOCK_SIZE.
  destruct (Z.ltb_spec n 16) as [Hlt|Hge]; cbn [andb]; [|reflexivity].
  destruct enc; [|reflexivity].
  assert (Hz : slice_set (out ++ skipn (Z.to_nat n) (B ++ t)) n 16
                 (repeat 0 (Z.to_nat (16 - n)))
               = (out ++ repeat 0 (Z.to_nat (16 - n))) ++ t).
  { unfold slice_set. rewrite !clamp_nonneg by lia. unfold len in *.
    rewrite length_app, length_skipn, length_app, Hout.
    rewrite !Z.min_l, Z.max_r by lia.
    rewrite firstn_app, Hout, Nat.sub_diag, firstn_O, app_nil_r.
    rewrite (firstn_all2 out) by lia.
    rewrite skipn_app, Hout, (skipn_all2 out) by lia. cbn [app].
    rewrite skipn_skipn.
    replace (Z.to_nat 16 - Z.to_nat n + Z.to_nat n)%nat with (length B) by lia.
    rewrite skipn_app, Nat.sub_diag, skipn_all. cbn [skipn app].
    now rewrite <- app_assoc. }
  rewrite Hz.
  assert (HB' : len (out ++ repeat 0 (Z.to_nat (16 - n))) = 16)
    by (unfold len; rewrite length_app, repeat_length; lia).
  rewrite tiny_sign_eq by auto. cbn [bind].
  rewrite getitem_prefix by (unfold len; lia). cbn [bind].
  rewrite getitem_nth by (rewrite sign_of_len; auto; lia). cbn [bind].
  rewrite setitem_prefix by (unfold len; lia).
  reflexivity.
Qed.

Lemma tiny_closed data direction dst :
  1 <= len data <= 31 -> len data <= len dst ->
  _AEZState.aez_tiny st delta data direction dst
  = Ok ((if direction =? 0 then tiny_enc data else tiny_dec data)
        ++ skipn (length data) dst).
Proof.
  intros Hn Hdst. unfold _AEZState.aez_tiny. rewrite Haes. cbn [bind].
  cbv zeta. rewrite tiny_idx_rounds.
  assert (Hlen : length data = Z.to_nat (len data)) by (unfold len; lia).
  rewrite Hlen. clear Hlen.
  set (n := len data) in *.
  assert (Hnn : len data = n) by reflexivity.
  change (_mk_block BLOCK_SIZE) with (repeat 0 16).
  change (_mk_block (2 * BLOCK_SIZE)) with (repeat 0 32).
  fold (split_R0 n data) (split_L n data).
  pose proof (split_L_len n data Hn Hnn) as HL0.
  pose proof (split_R0_len n data Hn Hnn) as HR00.
  pose proof (split_R_len n data Hn Hnn) as HR0.
  assert (Hh : 0 <= n / 2 < 16 /\ 0 <= (n + 1) / 2 <= 16 /\
               n / 2 + (n + 1) / 2 = n) by (Z.div_mod_to_equations; lia).
  assert (Hidx : 0 <= tiny_idx n < 8)
    by (unfold tiny_idx; destruct (n <? 16); lia).
  match goal with
  | |- bind ?m _ = _ =>
      assert (Hpre : m = Ok (split_R n data, tiny_pad n, tiny_mask n))
  end.
  { unfold split_R, tiny_pad, tiny_mask.
    destruct (Z.land n 1 =? 0); [reflexivity|].
    apply pre_shift; auto; lia. }
  rewrite Hpre. cbn [bind]. clear Hpre.
  change (repeat 0 32) with (repeat 0 16 ++ repeat 0 16).
  destruct (Z.eqb_spec direction 0) as [Hdir|Hdir].
  - cbn [bind].
    destruct (feistel_loop n ((n + 1) / 2) (tiny_mask n) (tiny_pad n)
                (tiny_idx n) 1 ltac:(lia) ltac:(lia) Hidx
                (Z.to_nat (tiny_rounds n / 2)) 0 (repeat 0 16) (repeat 0 16)
                (split_L n data) (split_R n data) (repeat 0 16) 0)
      as (B' & tmp' & j' & Hloop & HB' & Htmp'); auto.
    rewrite Hloop. cbn [bind]. clear Hloop.
    destruct (feistel_ok n ((n + 1) / 2) (tiny_mask n) (tiny_pad n)
                (tiny_idx n) 1 ltac:(lia) ltac:(lia) Hidx
                (Z.to_nat (tiny_rounds n / 2)) 0
                (split_L n data) (split_R n data) HL0 HR0) as (F1 & F2 & _).
    change (@andb (n <? BLOCK_SIZE) true)
      with ((n <? BLOCK_SIZE) && true).
    rewrite (tiny_post n B' (repeat 0 16) _ _ tmp' dst true) by auto.
    unfold tiny_enc. fold n. cbv zeta.
    rewrite andb_true_r. reflexivity.
  - set (L0 := if n <? 16
               then <[0%nat := Z.lxor (nth 0 (split_L n data) 0)
                      (sign_bit (data ++ repeat 0 (Z.to_nat (16 - n))))]>
                      (split_L n data)
               else split_L n data).
    assert (HL0' : len L0 = 16)
      by (subst L0; destruct (n <? 16); rewrite ?insert_len; auto).
    match goal with
    | |- bind ?m _ = _ =>
        assert (Hd : exists B tmp,
                   m = Ok (B ++ repeat 0 16, L0, tmp, tiny_rounds n - 1, -1) /\
                   len B = 16 /\ len tmp = 16)
    end.
    { subst L0. unfold BLOCK_SIZE.
      destruct (Z.ltb_spec n 16) as [Hlt|Hge].
      - change (slice_set (repeat 0 16 ++ repeat 0 16) 0 16
                  (repeat 0 (Z.to_nat 16)))
          with (repeat 0 32).
        rewrite slice_set_head by (rewrite repeat_len; lia).
        rewrite skipn_zeros.
        replace (32 - Z.to_nat n)%nat with (Z.to_nat (16 - n) + 16)%nat by lia.
        rewrite repeat_app, app_assoc.
        assert (HB : len (data ++ repeat 0 (Z.to_nat (16 - n))) = 16)
          by (unfold len in *; rewrite length_app, repeat_length; lia).
        rewrite tiny_sign_eq by auto. cbn [bind].
        rewrite getitem_nth by lia. cbn [bind].
        rewrite getitem_nth by (rewrite sign_of_len; auto; lia). cbn [bind].
        rewrite setitem_eq by lia. cbn [bind].
        change (Z.to_nat 0) with 0%nat.
        eexists _, _. split; [reflexivity|].
        split; [now apply sign_block_len | now apply sign_of_len].
      - cbn [bind]. exists (repeat 0 16), (repeat 0 16). auto. }
    destruct Hd as (B & tmp & -> & HB & Htmp). cbn [bind].
    destruct (feistel_loop n ((n + 1) / 2) (tiny_mask n) (tiny_pad n)
                (tiny_idx n) (-1) ltac:(lia) ltac:(lia) Hidx
                (Z.to_nat (tiny_rounds n / 2)) 0 B (repeat 0 16)
                L0 (split_R n data) tmp (tiny_rounds n - 1))
      as (B' & tmp' & j' & Hloop & HB' & Htmp'); auto.
    rewrite Hloop. cbn [bind]. clear Hloop.
    destruct (feistel_ok n ((n + 1) / 2) (tiny_mask n) (tiny_pad n)
                (tiny_idx n) (-1) ltac:(lia) ltac:(lia) Hidx
                (Z.to_nat (tiny_rounds n / 2)) (tiny_rounds n - 1)
                L0 (split_R n data) HL0' HR0) as (F1 & F2 & _).
    rewrite (tiny_post n B' (repeat 0 16) _ _ tmp' dst false) by auto.
    unfold tiny_dec. fold n. cbv zeta. fold L0.
    rewrite andb_false_r. reflexivity.
Qed.

(** *** Splitting and joining are inverse, up to the ignored bytes *)

Lemma split_L_eq n (m : bytes) :
  1 <= n <= 31 -> len m = n ->
  split_L n m = firstn (Z.to_nat ((n + 1) / 2)) m
                ++ repeat 0 (16 - Z.to_nat ((n + 1) / 2)).
Proof.
  intros Hn Hm. unfold split_L.
  assert (0 <= (n + 1) / 2 <= 16) by (Z.div_mod_to_equations; lia).
  rewrite slice_set_head by (rewrite repeat_len; lia).
  rewrite slice_to_firstn by lia. now rewrite skipn_zeros.
Qed.

Lemma split_R0_eq n (m : bytes) :
  1 <= n <= 31 -> len m = n ->
  split_R0 n m = skipn (Z.to_nat (n / 2)) m
                 ++ repeat 0 (16 - Z.to_nat ((n + 1) / 2)).
Proof.
  intros Hn Hm. unfold split_R0.
  assert (Hh : 0 <= n / 2 < 16 /\ 0 <= (n + 1) / 2 <= 16 /\
               n / 2 + (n + 1) / 2 = n) by (Z.div_mod_to_equations; lia).
  rewrite slice_set_head by (rewrite repeat_len; lia).
  rewrite skipn_zeros. f_equal.
  unfold slice. rewrite !clamp_nonneg by lia. rewrite !Z.min_l by lia.
  apply firstn_all2. rewrite length_skipn. unfold len in *. lia.
Qed.

Lemma nth_split_L n (m : bytes) i :
  1 <= n <= 31 -> len m = n ->
  nth i (split_L n m) 0
  = if Nat.ltb i (Z.to_nat ((n + 1) / 2)) then nth i m 0 else 0.
Proof.
  intros Hn Hm. rewrite split_L_eq by auto.
  assert (0 <= (n + 1) / 2 <= n) by (Z.div_mod_to_equations; lia).
  assert (Hf : length (firstn (Z.to_nat ((n + 1) / 2)) m)
               = Z.to_nat ((n + 1) / 2))
    by (rewrite length_firstn; unfold len in *; lia).
  destruct (Nat.ltb_spec i (Z.to_nat ((n + 1) / 2))).
  - rewrite app_nth1 by lia. now apply nth_firstn_lt.
  - rewrite app_nth2 by lia. apply nth_repeat0.
Qed.

Lemma nth_split_R0 n (m : bytes) i :
  1 <= n <= 31 -> len m = n ->
  nth i (split_R0 n m) 0 = nth (Z.to_nat (n / 2) + i) m 0.
Proof.
  intros Hn Hm. rewrite split_R0_eq by auto.
  assert (Hh : 0 <= n / 2 < 16 /\ 0 <= (n + 1) / 2 <= 16 /\
               n / 2 + (n + 1) / 2 = n) by (Z.div_mod_to_equations; lia).
  assert (Hs : length (skipn (Z.to_nat (n / 2)) m) = Z.to_nat ((n + 1) / 2))
    by (rewrite length_skipn; unfold len in *; lia).
  destruct (Nat.lt_ge_cases i (Z.to_nat ((n + 1) / 2))).
  - rewrite app_nth1 by lia. apply nth_skipn.
  - rewrite app_nth2 by lia. rewrite nth_repeat0.
    symmetry. apply nth_overflow. unfold len in *. lia.
Qed.

Lemma nth_split_R n (m : bytes) i :
  1 <= n <= 31 -> len m = n -> (i <= Z.to_nat (n / 2))%nat ->
  nth i (split_R n m) 0
  = if Z.land n 1 =? 0 then nth (Z.to_nat (n / 2) + i) m 0
    else if Nat.ltb i (Z.to_nat (n / 2))
         then sl (nth (Z.to_nat (n / 2) + i) m 0)
                (nth (Z.to_nat (n / 2) + S i) m 0)
         else hs (nth (Z.to_nat (n / 2) + Z.to_nat (n / 2)) m 0).
Proof.
  intros Hn Hm Hi. unfold split_R.
  destruct (Z.land n 1 =? 0); [now apply nth_split_R0|].
  assert (0 <= n / 2 < 16) by (Z.div_mod_to_equations; lia).
  pose proof (split_R0_len n m Hn Hm) as HR. unfold len in HR.
  rewrite nth_shl4 by lia. now rewrite !nth_split_R0.
Qed.

Lemma nth_join n (L R : bytes) i :
  1 <= n <= 31 -> len L = 16 -> len R = 16 -> (i < Z.to_nat n)%nat ->
  nth i (tiny_join n L R) 0
  = if Nat.ltb i (Z.to_nat (n / 2)) then nth i R 0
    else if Z.land n 1 =? 0 then nth (i - Z.to_nat (n / 2)) L 0
    else if Nat.eqb i (Z.to_nat (n / 2)) then mid (nth 0 L 0) (nth (Z.to_nat (n / 2)) R 0)
    else sr (nth (i - Z.to_nat (n / 2)) L 0) (nth (i - Z.to_nat (n / 2) - 1) L 0).
Proof.
  intros Hn HL HR Hi. unfold tiny_join. cbv zeta. unfold len in *.
  set (h := Z.to_nat (n / 2)). set (ll := Z.to_nat ((n + 1) / 2)).
  assert (Hf : length (firstn h R) = h)
    by (rewrite length_firstn; subst h; Z.div_mod_to_equations; lia).
  assert (Hb : forall k, nth k (firstn h R ++ firstn ll L) 0
                         = if Nat.ltb k h then nth k R 0
                           else if Nat.ltb (k - h) ll then nth (k - h) L 0 else 0).
  { intros k. destruct (Nat.ltb_spec k h).
    - rewrite app_nth1 by lia. now apply nth_firstn_lt.
    - rewrite app_nth2, Hf by lia. rewrite nth_firstn. reflexivity. }
  destruct (parity_cases n ltac:(lia)) as [(E & ? & ?)|(E & ? & ?)]; rewrite E.
  - change (0 =? 0) with true. cbv iota. rewrite Hb.
    destruct (Nat.ltb_spec i h); [reflexivity|].
    destruct (Nat.ltb_spec (i - h) ll); [reflexivity|]. subst h ll. lia.
  - change (1 =? 0) with false. cbv iota.
    rewrite nth_shr4
      by (rewrite ?length_app, ?length_firstn; subst h ll; lia).
    destruct (Nat.ltb_spec i h).
    + rewrite Hb. destruct (Nat.ltb_spec i h); [reflexivity | lia].
    + destruct (Nat.eqb_spec i h); [reflexivity|].
      rewrite !Hb.
      destruct (Nat.ltb_spec i h); [lia|].
      destruct (Nat.ltb_spec (i - 1) h); [lia|].
      destruct (Nat.ltb_spec (i - h) ll); [|subst h ll; lia].
      destruct (Nat.ltb_spec (i - 1 - h) ll); [|subst h ll; lia].
      replace (i - 1 - h)%nat with (i - h - 1)%nat by lia. reflexivity.
Qed.

(** Two halves are alike when they agree on the bytes that the rounds
    and the output read. *)
Definition sim (n : Z) (X Y : bytes) : Prop :=
  (forall i, (i < Z.to_nat (n / 2))%nat -> nth i X 0 = nth i Y 0) /\
  Z.land (nth (Z.to_nat (n / 2)) X 0) (tiny_mask n)
  = Z.land (nth (Z.to_nat (n / 2)) Y 0) (tiny_mask n).

Lemma sim_refl n X : sim n X X.
Proof. split; auto. Qed.

Lemma sim_trans n X Y Z' : sim n X Y -> sim n Y Z' -> sim n X Z'.
Proof.
  intros [H1 H2] [H3 H4]. split; [|congruence].
  intros i Hi. rewrite H1, H3; auto.
Qed.

Lemma sim_hi n X Y i :
  Z.land n 1 = 1 -> sim n X Y -> (i <= Z.to_nat (n / 2))%nat ->
  hi (nth i X 0) = hi (nth i Y 0).
Proof.
  intros E [H1 H2] Hi. unfold tiny_mask in H2. rewrite E in H2.
  change (1 =? 0) with false in H2. cbv iota in H2.
  destruct (Nat.eq_dec i (Z.to_nat (n / 2))) as [->|Hne]; [exact H2|].
  rewrite H1 by lia. reflexivity.
Qed.

Lemma join_split n (L R : bytes) :
  1 <= n <= 31 -> len L = 16 -> len R = 16 ->
  bytes_ok L = true -> bytes_ok R = true ->
  sim n (split_L n (tiny_join n L R)) R /\
  sim n (split_R n (tiny_join n L R)) L.
Proof.
  intros Hn HL HR HbL HbR.
  pose proof (tiny_join_len n L R Hn HL HR) as Hout.
  assert (Hout' : len (tiny_join n L R) = n) by (unfold len; lia).
  pose proof (fun i => nth_is_byte L i HbL) as BL.
  pose proof (fun i => nth_is_byte R i HbR) as BR.
  set (h := Z.to_nat (n / 2)).
  unfold sim, tiny_mask. fold h.
  destruct (parity_cases n ltac:(lia)) as [(E & E1 & E2)|(E & E1 & E2)];
    rewrite E.
  - change (0 =? 0) with true. cbv iota. rewrite !Z.land_0_r.
    split; (split; [|reflexivity]); intros i Hi.
    + rewrite nth_split_L by auto.
      destruct (Nat.ltb_spec i (Z.to_nat ((n + 1) / 2))); [|subst h; lia].
      rewrite nth_join by (auto; subst h; lia). fold h.
      destruct (Nat.ltb_spec i h); [reflexivity | lia].
    + rewrite nth_split_R by (auto; fold h; lia). rewrite E.
      change (0 =? 0) with true. cbv iota. fold h.
      rewrite nth_join by (auto; subst h; lia). fold h. rewrite E.
      destruct (Nat.ltb_spec (h + i) h); [lia|].
      change (0 =? 0) with true. cbv iota. f_equal. lia.
  - change (1 =? 0) with false. cbv iota.
    fold (hi (nth h (split_L n (tiny_join n L R)) 0)) (hi (nth h R 0))
         (hi (nth h (split_R n (tiny_join n L R)) 0)) (hi (nth h L 0)).
    assert (Hj : forall i, (i < Z.to_nat n)%nat ->
               nth i (tiny_join n L R) 0
               = if Nat.ltb i h then nth i R 0
                 else if Nat.eqb i h then mid (nth 0 L 0) (nth h R 0)
                 else sr (nth (i - h) L 0) (nth (i - h - 1) L 0)).
    { intros i Hi. rewrite nth_join by auto. fold h. rewrite E. reflexivity. }
    assert (Hjb : forall i, is_byte (nth i (tiny_join n L R) 0) = true).
    { intros i. destruct (Nat.lt_ge_cases i (Z.to_nat n)).
      - rewrite Hj by auto. destruct (Nat.ltb i h); auto.
        destruct (Nat.eqb i h); [now apply mid_byte | apply uint8_is_byte].
      - rewrite nth_overflow by lia. reflexivity. }
    split; split.
    + intros i Hi. rewrite nth_split_L by auto.
      destruct (Nat.ltb_spec i (Z.to_nat ((n + 1) / 2))); [|subst h; lia].
      rewrite Hj by (subst h; lia).
      destruct (Nat.ltb_spec i h); [reflexivity | lia].
    + rewrite nth_split_L by auto.
      destruct (Nat.ltb_spec h (Z.to_nat ((n + 1) / 2))); [|subst h; lia].
      rewrite Hj by (subst h; lia).
      rewrite Nat.ltb_irrefl, Nat.eqb_refl. now apply hi_mid.
    + intros i Hi. rewrite nth_split_R by (auto; fold h; lia). rewrite E.
      change (1 =? 0) with false. cbv iota. fold h.
      destruct (Nat.ltb_spec i h); [|lia].
      rewrite sl_split by auto.
      rewrite !Hj by (subst h; lia).
      destruct (Nat.ltb_spec (h + i) h); [lia|].
      destruct (Nat.ltb_spec (h + S i) h); [lia|].
      destruct (Nat.eqb_spec (h + S i) h); [lia|].
      replace (h + S i - h)%nat with (S i) by lia.
      replace (S i - 1)%nat with i by lia.
      rewrite ls_sr by auto.
      destruct (Nat.eqb_spec (h + i) h) as [E0|E0].
      * assert (i = 0%nat) by lia. subst i.
        rewrite hs_mid by auto. now apply hi_lo.
      * replace (h + i - h)%nat with i by lia.
        rewrite hs_sr by auto. now apply hi_lo.
    + rewrite nth_split_R by (auto; fold h; lia). rewrite E.
      change (1 =? 0) with false. cbv iota. fold h.
      rewrite Nat.ltb_irrefl. rewrite hi_hs by auto.
      rewrite Hj by (subst h; lia).
      destruct (Nat.ltb_spec (h + h) h); [lia|].
      destruct (Nat.eqb_spec (h + h) h) as [E0|E0].
      * assert (Hz : h = 0%nat) by lia. rewrite Hz. now apply hs_mid.
      * replace (h + h - h)%nat with h by lia. now apply hs_sr.
Qed.

Lemma split_join n (m L R : bytes) :
  1 <= n <= 31 -> len m = n -> bytes_ok m = true ->
  len L = 16 -> len R = 16 -> bytes_ok L = true -> bytes_ok R = true ->
  sim n L (split_R n m) -> sim n R (split_L n m) ->
  tiny_join n L R = m.
Proof.
  intros Hn Hm Hbm HL HR HbL HbR SL SR.
  pose proof (tiny_join_len n L R Hn HL HR) as Hout.
  pose proof (fun i => nth_is_byte L i HbL) as BL.
  pose proof (fun i => nth_is_byte R i HbR) as BR.
  pose proof (fun i => nth_is_byte m i Hbm) as Bm.
  apply (nth_ext _ _ 0 0); [unfold len in *; lia|].
  intros i Hi. rewrite Hout in Hi.
  rewrite nth_join by auto.
  set (h := Z.to_nat (n / 2)) in *.
  assert (HR' : forall k, (k < h)%nat -> nth k R 0 = nth k m 0).
  { intros k Hk. rewrite (proj1 SR) by (fold h; lia).
    rewrite nth_split_L by auto.
    destruct (Nat.ltb_spec k (Z.to_nat ((n + 1) / 2))); [reflexivity|].
    subst h. Z.div_mod_to_equations. lia. }
  destruct (Nat.ltb_spec i h) as [Hlt|Hge]; [now apply HR'|].
  destruct (parity_cases n ltac:(lia)) as [(E & E1 & E2)|(E & E1 & E2)];
    rewrite E.
  - change (0 =? 0) with true. cbv iota.
    rewrite (proj1 SL) by (fold h; subst h; lia).
    rewrite nth_split_R by (auto; fold h; subst h; lia). rewrite E.
    change (0 =? 0) with true. cbv iota. fold h. f_equal. lia.
  - change (1 =? 0) with false. cbv iota.
    assert (HSR : forall k, (k <= h)%nat ->
               hi (nth k L 0) = hs (nth (h + k) m 0)).
    { intros k Hk. rewrite (sim_hi n L (split_R n m) k E SL) by (fold h; lia).
      rewrite nth_split_R by (auto; fold h; lia). rewrite E.
      change (1 =? 0) with false. cbv iota. fold h.
      destruct (Nat.ltb_spec k h).
      - now apply hi_sl.
      - assert (k = h) by lia. subst k. now apply hi_hs. }
    destruct (Nat.eqb_spec i h) as [->|Hne].
    + rewrite mid_split by auto.
      rewrite HSR by lia. rewrite Nat.add_0_r.
      rewrite (sim_hi n R (split_L n m) h E SR) by (fold h; lia).
      rewrite nth_split_L by auto.
      destruct (Nat.ltb_spec h (Z.to_nat ((n + 1) / 2))); [|subst h; lia].
      rewrite ls_hs by auto. now apply lo_hi.
    + rewrite sr_split by auto.
      rewrite HSR by (subst h; lia).
      replace (h + (i - h))%nat with i by lia.
      rewrite (proj1 SL) by (fold h; subst h; lia).
      rewrite nth_split_R by (auto; fold h; subst h; lia). rewrite E.
      change (1 =? 0) with false. cbv iota. fold h.
      destruct (Nat.ltb_spec (i - h - 1) h); [|subst h; lia].
      replace (h + S (i - h - 1))%nat with i by lia.
      rewrite hs_sl by auto. rewrite ls_hs by auto. now apply lo_hi.
Qed.

(** *** The rounds read only the significant bytes *)

Lemma land_lxor_distr x y m :
  Z.land (Z.lxor x y) m = Z.lxor (Z.land x m) (Z.land y m).
Proof.
  apply Z.bits_inj'. intros k Hk.
  rewrite !Z.land_spec, !Z.lxor_spec, !Z.land_spec.
  destruct (Z.testbit x k), (Z.testbit y k), (Z.testbit m k); reflexivity.
Qed.

Lemma xor_sim n X Y T :
  1 <= n <= 31 -> len X = 16 -> len Y = 16 -> len T = 16 ->
  sim n X Y -> sim n (xor_block X T) (xor_block Y T).
Proof.
  intros Hn HX HY HT [H1 H2]. unfold len in *.
  assert (0 <= n / 2 < 16) by (Z.div_mod_to_equations; lia).
  split.
  - intros i Hi. rewrite !nth_xor by lia. now rewrite H1.
  - rewrite !nth_xor by lia. rewrite !land_lxor_distr. now rewrite H2.
Qed.

Lemma half_block_sim n j X Y :
  1 <= n <= 31 -> len X = 16 -> len Y = 16 -> sim n X Y ->
  half_block ((n + 1) / 2) (n / 2) (tiny_mask n) (tiny_pad n) j X
  = half_block ((n + 1) / 2) (n / 2) (tiny_mask n) (tiny_pad n) j Y.
Proof.
  intros Hn HX HY [H1 H2].
  assert (Hh : 0 <= n / 2 < 16 /\ 0 <= (n + 1) / 2 <= 16)
    by (Z.div_mod_to_equations; lia).
  assert (Hb : forall src : bytes, len src = 16 ->
             slice_set (repeat 0 16) 0 ((n + 1) / 2) (slice_to src ((n + 1) / 2))
             = firstn (Z.to_nat ((n + 1) / 2)) src
               ++ repeat 0 (16 - Z.to_nat ((n + 1) / 2))).
  { intros src Hs. rewrite slice_set_head by (rewrite repeat_len; lia).
    rewrite slice_to_firstn by lia. now rewrite skipn_zeros. }
  assert (Hnth : forall (src : bytes) i, len src = 16 ->
             nth i (firstn (Z.to_nat ((n + 1) / 2)) src
                    ++ repeat 0 (16 - Z.to_nat ((n + 1) / 2))) 0
             = if Nat.ltb i (Z.to_nat ((n + 1) / 2)) then nth i src 0 else 0).
  { intros src i Hs.
    assert (Hf : length (firstn (Z.to_nat ((n + 1) / 2)) src)
                 = Z.to_nat ((n + 1) / 2))
      by (rewrite length_firstn; unfold len in *; lia).
    destruct (Nat.ltb_spec i (Z.to_nat ((n + 1) / 2))).
    - rewrite app_nth1 by lia. now apply nth_firstn_lt.
    - rewrite app_nth2 by lia. apply nth_repeat0. }
  assert (Hlen : forall src : bytes, len src = 16 ->
             length (firstn (Z.to_nat ((n + 1) / 2)) src
                     ++ repeat 0 (16 - Z.to_nat ((n + 1) / 2))) = 16%nat).
  { intros src Hs. rewrite length_app, length_firstn, repeat_length.
    unfold len in *. lia. }
  unfold half_block. cbv zeta. rewrite !Hb by auto.
  set (bX := firstn _ X ++ _). set (bY := firstn _ Y ++ _).
  assert (E : <[Z.to_nat (n / 2) :=
                 Z.lor (Z.land (nth (Z.to_nat (n / 2)) bX 0) (tiny_mask n))
                   (tiny_pad n)]> bX
              = <[Z.to_nat (n / 2) :=
                 Z.lor (Z.land (nth (Z.to_nat (n / 2)) bY 0) (tiny_mask n))
                   (tiny_pad n)]> bY).
  { apply (nth_ext _ _ 0 0).
    - subst bX bY. now rewrite !length_insert, !Hlen.
    - intros i _. subst bX bY.
      rewrite !nth_insert by (rewrite Hlen; auto; lia).
      rewrite !Hnth by auto.
      destruct (Nat.eqb_spec i (Z.to_nat (n / 2))) as [->|Hne].
      + f_equal.
        destruct (Nat.ltb_spec (Z.to_nat (n / 2)) (Z.to_nat ((n + 1) / 2)));
          [exact H2 | reflexivity].
      + destruct (Nat.ltb_spec i (Z.to_nat ((n + 1) / 2))); [|reflexivity].
        apply H1. Z.div_mod_to_equations. lia. }
  now rewrite E.
Qed.

Lemma half_F_sim n idx j X Y :
  1 <= n <= 31 -> len X = 16 -> len Y = 16 -> sim n X Y ->
  half_F n ((n + 1) / 2) (tiny_mask n) (tiny_pad n) idx j X
  = half_F n ((n + 1) / 2) (tiny_mask n) (tiny_pad n) idx j Y.
Proof.
  intros Hn HX HY HS. unfold half_F. now rewrite (half_block_sim n j X Y).
Qed.

Lemma feistel_sim n idx step :
  1 <= n <= 31 -> 0 <= idx < 8 ->
  forall k j L R L' R',
    len L = 16 -> len R = 16 -> len L' = 16 -> len R' = 16 ->
    sim n L L' -> sim n R R' ->
    sim n (fst (feistel k n ((n + 1) / 2) (tiny_mask n) (tiny_pad n) idx step j L R))
          (fst (feistel k n ((n + 1) / 2) (tiny_mask n) (tiny_pad n) idx step j L' R'))
    /\
    sim n (snd (feistel k n ((n + 1) / 2) (tiny_mask n) (tiny_pad n) idx step j L R))
          (snd (feistel k n ((n + 1) / 2) (tiny_mask n) (tiny_pad n) idx step j L' R')).
Proof.
  intros Hn Hi.
  assert (Hl : 0 <= (n + 1) / 2 <= 16) by (Z.div_mod_to_equations; lia).
  induction k as [|k IH]; intros j L R L' R' HL HR HL' HR' SL SR;
    cbn [feistel]; [cbn [fst snd]; auto|]. cbv zeta.
  rewrite <- (half_F_sim n idx j R R') by auto.
  destruct (half_F_ok n ((n + 1) / 2) (tiny_mask n) (tiny_pad n) idx j R
              ltac:(lia) Hl Hi HR) as [H1 _].
  set (T := half_F _ _ _ _ _ j R) in *.
  assert (S1 : sim n (xor_block L T) (xor_block L' T)) by (now apply xor_sim).
  assert (HL1 : len (xor_block L T) = 16) by (now apply xor_block_len16).
  assert (HL1' : len (xor_block L' T) = 16) by (now apply xor_block_len16).
  rewrite <- (half_F_sim n idx (j + step) (xor_block L T) (xor_block L' T))
    by auto.
  destruct (half_F_ok n ((n + 1) / 2) (tiny_mask n) (tiny_pad n) idx (j + step)
              (xor_block L T) ltac:(lia) Hl Hi HL1) as [H2 _].
  set (U := half_F _ _ _ _ _ (j + step) _) in *.
  clearbody T U.
  apply (IH (j + step * 2) (xor_block L T) (xor_block R U)
            (xor_block L' T) (xor_block R' U)); try assumption.
  - now apply xor_block_len16.
  - now apply xor_block_len16.
  - now apply xor_sim.
Qed.

(** *** The rounds of decipher undo those of encipher *)

Lemma feistel_snoc n ll mask pad idx step :
  forall k j L R,
    feistel (S k) n ll mask pad idx step j L R
    = let LR := feistel k n ll mask pad idx step j L R in
      let j' := j + step * 2 * Z.of_nat k in
      let L1 := xor_block (fst LR) (half_F n ll mask pad idx j' (snd LR)) in
      (L1, xor_block (snd LR) (half_F n ll mask pad idx (j' + step) L1)).
Proof.
  induction k as [|k IH]; intros j L R.
  - cbn [feistel fst snd]. cbv zeta.
    change (Z.of_nat 0) with 0. rewrite Z.mul_0_r, Z.add_0_r. reflexivity.
  - change (feistel (S (S k)) n ll mask pad idx step j L R)
      with (let L1 := xor_block L (half_F n ll mask pad idx j R) in
            let R1 := xor_block R (half_F n ll mask pad idx (j + step) L1) in
            feistel (S k) n ll mask pad idx step (j + step * 2) L1 R1).
    cbv zeta. rewrite IH. cbv zeta.
    replace (j + step * 2 + step * 2 * Z.of_nat k)
      with (j + step * 2 * Z.of_nat (S k)) by lia.
    reflexivity.
Qed.

Lemma feistel_inv n ll mask pad idx step :
  0 <= n < 32 -> 0 <= ll <= 16 -> 0 <= idx < 8 ->
  forall k j L R,
    len L = 16 -> len R = 16 ->
    feistel k n ll mask pad idx (- step)
      (j + step * 2 * Z.of_nat k - step)
      (snd (feistel k n ll mask pad idx step j L R))
      (fst (feistel k n ll mask pad idx step j L R))
    = (R, L).
Proof.
  intros Hn Hl Hi. induction k as [|k IH]; intros j L R HL HR.
  - reflexivity.
  - rewrite feistel_snoc. cbv zeta.
    change (feistel (S k) n ll mask pad idx step j L R)
      with (let L1 := xor_block L (half_F n ll mask pad idx j R) in
            let R1 := xor_block R (half_F n ll mask pad idx (j + step) L1) in
            feistel k n ll mask pad idx step (j + step * 2) L1 R1).
    cbv zeta.
    destruct (half_F_ok n ll mask pad idx j R Hn Hl Hi HR) as [H1 _].
    set (L1 := xor_block L (half_F n ll mask pad idx j R)).
    assert (HL1 : len L1 = 16) by (subst L1; now apply xor_block_len16).
    destruct (half_F_ok n ll mask pad idx (j + step) L1 Hn Hl Hi HL1) as [H2 _].
    set (R1 := xor_block R (half_F n ll mask pad idx (j + step) L1)).
    assert (HR1 : len R1 = 16) by (subst R1; now apply xor_block_len16).
    replace (j + step * 2 * Z.of_nat (S k) - step)
      with (j + step * 2 + step * 2 * Z.of_nat k - step) by lia.
    rewrite IH by auto. cbn [fst snd].
    replace (j + step * 2 + step * 2 * Z.of_nat k - step
             + - step * 2 * Z.of_nat k)
      with (j + step) by lia.
    replace (j + step + - step) with j by lia.
    assert (E1 : xor_block R1 (half_F n ll mask pad idx (j + step) L1) = R).
    { subst R1. apply xor_block_involutive. unfold len in *. lia. }
    rewrite E1. f_equal.
    subst L1. apply xor_block_involutive. unfold len in *. lia.
Qed.

(** *** Bytes stay bytes *)

Lemma bytes_ok_skipn (l : bytes) k : bytes_ok l = true -> bytes_ok (skipn k l) = true.
Proof.
  intros H. unfold bytes_ok in *. rewrite <- (firstn_skipn k l), forallb_app in H.
  now apply andb_true_iff in H.
Qed.

Lemma bytes_ok_shl4 h R : bytes_ok R = true -> bytes_ok (shl4 h R) = true.
Proof.
  intros H. unfold shl4, bytes_ok. rewrite !forallb_app.
  apply andb_true_iff. split; [|apply andb_true_iff; split].
  - apply forallb_forall. intros x Hx. apply in_map_iff in Hx.
    destruct Hx as (k & <- & _). apply uint8_is_byte.
  - cbn [forallb]. now rewrite uint8_is_byte.
  - now apply bytes_ok_skipn.
Qed.

Lemma bytes_ok_split_L n (m : bytes) :
  1 <= n <= 31 -> len m = n -> bytes_ok m = true ->
  bytes_ok (split_L n m) = true.
Proof.
  intros Hn Hm Hb. apply bytes_ok_nth. intros i _.
  rewrite nth_split_L by auto.
  destruct (Nat.ltb i _); [now apply nth_is_byte | reflexivity].
Qed.

Lemma bytes_ok_split_R n (m : bytes) :
  1 <= n <= 31 -> len m = n -> bytes_ok m = true ->
  bytes_ok (split_R n m) = true.
Proof.
  intros Hn Hm Hb.
  assert (H0 : bytes_ok (split_R0 n m) = true).
  { apply bytes_ok_nth. intros i _. rewrite nth_split_R0 by auto.
    now apply nth_is_byte. }
  unfold split_R. destruct (Z.land n 1 =? 0); auto using bytes_ok_shl4.
Qed.

Lemma bytes_ok_join n (L R : bytes) :
  1 <= n <= 31 -> len L = 16 -> len R = 16 ->
  bytes_ok L = true -> bytes_ok R = true ->
  bytes_ok (tiny_join n L R) = true.
Proof.
  intros Hn HL HR HbL HbR. apply bytes_ok_nth. intros i Hi.
  rewrite tiny_join_len in Hi by auto.
  rewrite nth_join by auto.
  destruct (Nat.ltb i _); [now apply nth_is_byte|].
  destruct (Z.land n 1 =? 0); [now apply nth_is_byte|].
  destruct (Nat.eqb i _); [|apply uint8_is_byte].
  apply mid_byte; now apply nth_is_byte.
Qed.

Lemma sign_of_bytes B : len B = 16 -> bytes_ok (sign_of B) = true.
Proof.
  intros HB. unfold sign_of.
  destruct (AES4_eq ZERO_BLOCK I1 (Lb 3) (sign_block B) (repeat 0 16))
    as (_ & _ & H); auto; try reflexivity.
  - rewrite blk_I1. lia.
  - rewrite blk_L; lia.
  - rewrite sign_block_len; auto. lia.
Qed.

Lemma tiny_rounds_half n :
  tiny_rounds n - 1 = 0 + 1 * 2 * Z.of_nat (Z.to_nat (tiny_rounds n / 2)) - 1.
Proof.
  unfold tiny_rounds.
  destruct (n =? 1); [reflexivity|]. destruct (n =? 2); [reflexivity|].
  destruct (n <? 16); reflexivity.
Qed.

Lemma tiny_rounds_first n :
  0 = tiny_rounds n - 1 + -1 * 2 * Z.of_nat (Z.to_nat (tiny_rounds n / 2)) - -1.
Proof.
  unfold tiny_rounds.
  destruct (n =? 1); [reflexivity|]. destruct (n =? 2); [reflexivity|].
  destruct (n <? 16); reflexivity.
Qed.

(** *** Decipher inverts encipher on short messages *)

(** The ciphertext bytes from the output of the rounds. *)
Definition sign_out (n : Z) (out : bytes) : bytes :=
  if n <? 16
  then <[0%nat := Z.lxor (nth 0 out 0)
                    (sign_bit (out ++ repeat 0 (Z.to_nat (16 - n))))]> out
  else out.

Lemma sign_out_nth n out i :
  1 <= n <= 31 -> len out = n ->
  nth i (sign_out n out) 0
  = if (n <? 16) && Nat.eqb i 0
    then Z.lxor (nth 0 out 0)
           (sign_bit (out ++ repeat 0 (Z.to_nat (16 - n))))
    else nth i out 0.
Proof.
  intros Hn Ho. unfold sign_out. destruct (n <? 16); [|reflexivity].
  cbn [andb]. apply nth_insert. unfold len in Ho. lia.
Qed.

Lemma sign_out_len n out : len (sign_out n out) = len out.
Proof. unfold sign_out. destruct (n <? 16); auto using insert_len. Qed.

Lemma sign_bit_out n out :
  1 <= n < 16 -> len out = n -> bytes_ok out = true ->
  sign_bit (sign_out n out ++ repeat 0 (Z.to_nat (16 - n)))
  = sign_bit (out ++ repeat 0 (Z.to_nat (16 - n))).
Proof.
  intros Hn Ho Hb.
  assert (E : sign_block (sign_out n out ++ repeat 0 (Z.to_nat (16 - n)))
              = sign_block (out ++ repeat 0 (Z.to_nat (16 - n)))).
  { unfold sign_out. destruct (Z.ltb_spec n 16); [|lia].
    set (Z0 := repeat 0 (Z.to_nat (16 - n))).
    assert (HB : len (out ++ Z0) = 16)
      by (subst Z0; unfold len in *; rewrite length_app, repeat_length; lia).
    set (v := Z.lxor (nth 0 out 0) (sign_bit (out ++ Z0))).
    unfold len in *.
    rewrite <- insert_app_l by lia.
    unfold sign_block.
    rewrite nth_insert by lia. cbn [Nat.eqb].
    rewrite list_insert_insert_eq.
    assert (Ev : Z.lor v 128 = Z.lor (nth 0 (out ++ Z0) 0) 128).
    { subst v. unfold sign_bit. rewrite app_nth1 by lia.
      apply sign_lor.
      - now apply nth_is_byte.
      - apply nth_is_byte. now apply sign_of_bytes. }
    now rewrite Ev. }
  unfold sign_bit, sign_of. now rewrite E.
Qed.

Lemma sign_out_bytes n out :
  1 <= n <= 31 -> len out = n -> bytes_ok out = true ->
  bytes_ok (sign_out n out) = true.
Proof.
  intros Hn Ho Hb. apply bytes_ok_nth. intros i _.
  rewrite sign_out_nth by auto.
  destruct ((n <? 16) && Nat.eqb i 0) eqn:E; [|now apply nth_is_byte].
  apply andb_true_iff in E. destruct E as [E _]. apply Z.ltb_lt in E.
  unfold sign_bit. apply sign_byte; apply nth_is_byte; auto.
  apply sign_of_bytes. unfold len in *. rewrite length_app, repeat_length. lia.
Qed.

Lemma sign_undone n out :
  1 <= n <= 31 -> len out = n -> bytes_ok out = true ->
  (if n <? 16
   then <[0%nat := Z.lxor (nth 0 (split_L n (sign_out n out)) 0)
                     (sign_bit (sign_out n out
                                ++ repeat 0 (Z.to_nat (16 - n))))]>
          (split_L n (sign_out n out))
   else split_L n (sign_out n out))
  = split_L n out.
Proof.
  intros Hn Ho Hb.
  destruct (Z.ltb_spec n 16) as [Hlt|Hge].
  - rewrite sign_bit_out by (auto; lia).
    pose proof (sign_out_len n out) as Hc. rewrite Ho in Hc.
    pose proof (split_L_len n _ Hn Hc) as H1.
    pose proof (split_L_len n _ Hn Ho) as H2.
    assert (Hll : (0 < Z.to_nat ((n + 1) / 2))%nat)
      by (Z.div_mod_to_equations; lia).
    apply (nth_ext _ _ 0 0);
      [rewrite length_insert; unfold len in *; lia|].
    intros i _. rewrite nth_insert by (unfold len in *; lia).
    rewrite !nth_split_L by auto. rewrite !sign_out_nth by auto.
    destruct (Z.ltb_spec n 16); [|lia]. cbn [andb].
    destruct (Nat.eqb_spec i 0) as [->|Hne].
    + destruct (Nat.ltb_spec 0 (Z.to_nat ((n + 1) / 2))); [|lia].
      cbn [Nat.eqb]. apply lxor_twice.
    + reflexivity.
  - unfold sign_out. destruct (Z.ltb_spec n 16); [lia | reflexivity].
Qed.

Lemma sign_split_R n out :
  1 <= n <= 31 -> len out = n -> bytes_ok out = true ->
  sim n (split_R n (sign_out n out)) (split_R n out).
Proof.
  intros Hn Ho Hb.
  pose proof (sign_out_len n out) as Hc. rewrite Ho in Hc.
  destruct (Z.ltb_spec n 16) as [Hlt|Hge];
    [|unfold sign_out; destruct (Z.ltb_spec n 16); [lia | apply sim_refl]].
  set (h := Z.to_nat (n / 2)).
  assert (Hnz : forall j, (0 < j)%nat ->
             nth j (sign_out n out) 0 = nth j out 0).
  { intros j Hj. rewrite sign_out_nth by auto.
    destruct (Nat.eqb_spec j 0); [lia|]. now rewrite andb_false_r. }
  split; fold h.
  - intros i Hi. rewrite !nth_split_R by (auto; fold h; lia). fold h.
    rewrite !Hnz by lia. reflexivity.
  - f_equal. rewrite !nth_split_R by (auto; fold h; lia). fold h.
    rewrite Nat.ltb_irrefl.
    destruct (Nat.eq_dec h 0%nat) as [Hz|Hz].
    + rewrite Hz. cbn [Nat.add].
      destruct (parity_cases n ltac:(lia)) as [(E & E1 & E2)|(E & E1 & E2)];
        rewrite E; [subst h; lia|].
      change (1 =? 0) with false. cbv iota.
      rewrite sign_out_nth by auto.
      destruct (Z.ltb_spec n 16); [|lia]. cbn [andb Nat.eqb].
      unfold sign_bit. apply sign_hs; apply nth_is_byte; auto.
      apply sign_of_bytes. unfold len in *.
      rewrite length_app, repeat_length. lia.
    + rewrite !Hnz by lia. reflexivity.
Qed.

Lemma tiny_enc_eq m :
  tiny_enc m
  = sign_out (len m)
      (tiny_join (len m)
         (fst (feistel (Z.to_nat (tiny_rounds (len m) / 2)) (len m)
                 ((len m + 1) / 2) (tiny_mask (len m)) (tiny_pad (len m))
                 (tiny_idx (len m)) 1 0
                 (split_L (len m) m) (split_R (len m) m)))
         (snd (feistel (Z.to_nat (tiny_rounds (len m) / 2)) (len m)
                 ((len m + 1) / 2) (tiny_mask (len m)) (tiny_pad (len m))
                 (tiny_idx (len m)) 1 0
                 (split_L (len m) m) (split_R (len m) m)))).
Proof. reflexivity. Qed.

Lemma tiny_inverse (m : bytes) :
  1 <= len m <= 31 -> bytes_ok m = true ->
  len (tiny_enc m) = len m /\ bytes_ok (tiny_enc m) = true /\
  tiny_dec (tiny_enc m) = m.
Proof.
  intros Hn Hb. rewrite tiny_enc_eq.
  set (n := len m) in *.
  assert (Hm : len m = n) by reflexivity.
  set (k := Z.to_nat (tiny_rounds n / 2)).
  assert (Hll : 0 <= (n + 1) / 2 <= 16) by (Z.div_mod_to_equations; lia).
  assert (Hidx : 0 <= tiny_idx n < 8)
    by (unfold tiny_idx; destruct (n <? 16); lia).
  pose proof (split_L_len n m Hn Hm) as HL0.
  pose proof (split_R_len n m Hn Hm) as HR0.
  pose proof (bytes_ok_split_L n m Hn Hm Hb) as BL0.
  pose proof (bytes_ok_split_R n m Hn Hm Hb) as BR0.
  destruct (feistel_ok n ((n + 1) / 2) (tiny_mask n) (tiny_pad n) (tiny_idx n)
              1 ltac:(lia) Hll Hidx k 0 (split_L n m) (split_R n m) HL0 HR0)
    as (HLk & HRk & HB).
  destruct (HB BL0 BR0) as [BLk BRk]. clear HB.
  pose proof (feistel_inv n ((n + 1) / 2) (tiny_mask n) (tiny_pad n)
                (tiny_idx n) 1 ltac:(lia) Hll Hidx
                (Z.to_nat (tiny_rounds n / 2)) 0
                (split_L n m) (split_R n m) HL0 HR0) as Hinv.
  rewrite <- tiny_rounds_half in Hinv. fold k in Hinv.
  change (- (1)) with (-1) in Hinv.
  set (Lk := fst (feistel k n ((n + 1) / 2) (tiny_mask n) (tiny_pad n)
                    (tiny_idx n) 1 0 (split_L n m) (split_R n m))) in *.
  set (Rk := snd (feistel k n ((n + 1) / 2) (tiny_mask n) (tiny_pad n)
                    (tiny_idx n) 1 0 (split_L n m) (split_R n m))) in *.
  clearbody Lk Rk.
  set (out := tiny_join n Lk Rk).
  assert (Ho : len out = n)
    by (subst out; unfold len; rewrite tiny_join_len by auto; lia).
  assert (Bo : bytes_ok out = true) by (subst out; now apply bytes_ok_join).
  destruct (join_split n Lk Rk Hn HLk HRk BLk BRk) as [S1 S2]. fold out in S1, S2.
  clearbody out.
  pose proof (sign_out_len n out) as Hc. rewrite Ho in Hc.
  pose proof (sign_out_bytes n out Hn Ho Bo) as Bc.
  split; [exact Hc|]. split; [exact Bc|].
  unfold tiny_dec. rewrite Hc. cbv zeta. fold k.
  rewrite (sign_undone n out Hn Ho Bo).
  pose proof (sign_split_R n out Hn Ho Bo) as S3.
  pose proof (sim_trans _ _ _ _ S3 S2) as S4.
  pose proof (split_L_len n out Hn Ho) as HL1.
  pose proof (split_R_len n _ Hn Hc) as HR1.
  pose proof (bytes_ok_split_L n out Hn Ho Bo) as BL1.
  pose proof (bytes_ok_split_R n _ Hn Hc Bc) as BR1.
  set (c := sign_out n out) in *. clearbody c.
  destruct (feistel_sim n (tiny_idx n) (-1) Hn Hidx k (tiny_rounds n - 1)
              (split_L n out) (split_R n c) Rk Lk HL1 HR1 HRk HLk S1 S4)
    as [D1 D2].
  rewrite Hinv in D1, D2. cbn [fst snd] in D1, D2.
  destruct (feistel_ok n ((n + 1) / 2) (tiny_mask n) (tiny_pad n) (tiny_idx n)
              (-1) ltac:(lia) Hll Hidx k (tiny_rounds n - 1)
              (split_L n out) (split_R n c) HL1 HR1)
    as (HLd & HRd & HB).
  destruct (HB BL1 BR1) as [BLd BRd]. clear HB.
  apply split_join; auto.
Qed.

Lemma sim_sym n X Y : sim n X Y -> sim n Y X.
Proof.
  intros [H1 H2]. split; [|now symmetry].
  intros i Hi. symmetry. now apply H1.
Qed.

Lemma sign_out_involutive n c :
  1 <= n <= 31 -> len c = n -> bytes_ok c = true ->
  sign_out n (sign_out n c) = c.
Proof.
  intros Hn Hc Hb.
  pose proof (sign_out_len n c) as Hc'. rewrite Hc in Hc'.
  apply (nth_ext _ _ 0 0);
    [pose proof (sign_out_len n (sign_out n c)); unfold len in *; lia|].
  intros i _. rewrite sign_out_nth by auto.
  destruct (Z.ltb_spec n 16) as [Hlt|Hge]; cbn [andb].
  - destruct (Nat.eqb_spec i 0) as [->|Hne].
    + rewrite sign_bit_out by (auto; lia).
      rewrite sign_out_nth by auto.
      destruct (Z.ltb_spec n 16); [|lia]. cbn [andb Nat.eqb].
      apply lxor_twice.
    + rewrite sign_out_nth by auto.
      destruct (Nat.eqb_spec i 0); [lia|]. now rewrite andb_false_r.
  - unfold sign_out. destruct (Z.ltb_spec n 16); [lia | reflexivity].
Qed.

Lemma tiny_inverse_r (c : bytes) :
  1 <= len c <= 31 -> bytes_ok c = true ->
  len (tiny_dec c) = len c /\ bytes_ok (tiny_dec c) = true /\
  tiny_enc (tiny_dec c) = c.
Proof.
  intros Hn Hb. unfold tiny_dec. cbv zeta.
  set (n := len c) in *.
  assert (Hc : len c = n) by reflexivity.
  set (k := Z.to_nat (tiny_rounds n / 2)).
  assert (Hll : 0 <= (n + 1) / 2 <= 16) by (Z.div_mod_to_equations; lia).
  assert (Hidx : 0 <= tiny_idx n < 8)
    by (unfold tiny_idx; destruct (n <? 16); lia).
  pose proof (sign_out_len n c) as Hc'. rewrite Hc in Hc'.
  pose proof (sign_out_bytes n c Hn Hc Hb) as Bc'.
  pose proof (sign_undone n (sign_out n c) Hn Hc' Bc') as Hs.
  rewrite (sign_out_involutive n c Hn Hc Hb) in Hs. rewrite Hs. clear Hs.
  pose proof (sim_sym _ _ _ (sign_split_R n c Hn Hc Hb)) as S0.
  pose proof (sign_out_involutive n c Hn Hc Hb) as Hinvol.
  set (c' := sign_out n c) in *. clearbody c'.
  pose proof (split_L_len n c' Hn Hc') as HL0.
  pose proof (split_R_len n c Hn Hc) as HR0.
  pose proof (bytes_ok_split_L n c' Hn Hc' Bc') as BL0.
  pose proof (bytes_ok_split_R n c Hn Hc Hb) as BR0.
  destruct (feistel_ok n ((n + 1) / 2) (tiny_mask n) (tiny_pad n) (tiny_idx n)
              (-1) ltac:(lia) Hll Hidx k (tiny_rounds n - 1)
              (split_L n c') (split_R n c) HL0 HR0)
    as (HLd & HRd & HB).
  destruct (HB BL0 BR0) as [BLd BRd]. clear HB.
  pose proof (feistel_inv n ((n + 1) / 2) (tiny_mask n) (tiny_pad n)
                (tiny_idx n) (-1) ltac:(lia) Hll Hidx
                (Z.to_nat (tiny_rounds n / 2)) (tiny_rounds n - 1)
                (split_L n c') (split_R n c) HL0 HR0) as Hinv.
  rewrite <- tiny_rounds_first in Hinv. fold k in Hinv.
  change (- -1) with 1 in Hinv.
  set (Ld := fst (feistel k n ((n + 1) / 2) (tiny_mask n) (tiny_pad n)
                    (tiny_idx n) (-1) (tiny_rounds n - 1)
                    (split_L n c') (split_R n c))) in *.
  set (Rd := snd (feistel k n ((n + 1) / 2) (tiny_mask n) (tiny_pad n)
                    (tiny_idx n) (-1) (tiny_rounds n - 1)
                    (split_L n c') (split_R n c))) in *.
  clearbody Ld Rd.
  set (m := tiny_join n Ld Rd).
  assert (Hm : len m = n)
    by (subst m; unfold len; rewrite tiny_join_len by auto; lia).
  assert (Bm : bytes_ok m = true) by (subst m; now apply bytes_ok_join).
  destruct (join_split n Ld Rd Hn HLd HRd BLd BRd) as [S1 S2]. fold m in S1, S2.
  clearbody m.
  split; [exact Hm|]. split; [exact Bm|].
  rewrite tiny_enc_eq, Hm. fold k.
  pose proof (split_L_len n m Hn Hm) as HL1.
  pose proof (split_R_len n m Hn Hm) as HR1.
  pose proof (bytes_ok_split_L n m Hn Hm Bm) as BL1.
  pose proof (bytes_ok_split_R n m Hn Hm Bm) as BR1.
  destruct (feistel_sim n (tiny_idx n) 1 Hn Hidx k 0
              (split_L n m) (split_R n m) Rd Ld HL1 HR1 HRd HLd S1 S2)
    as [D1 D2].
  rewrite Hinv in D1, D2. cbn [fst snd] in D1, D2.
  destruct (feistel_ok n ((n + 1) / 2) (tiny_mask n) (tiny_pad n) (tiny_idx n)
              1 ltac:(lia) Hll Hidx k 0
              (split_L n m) (split_R n m) HL1 HR1)
    as (HLk & HRk & HB).
  destruct (HB BL1 BR1) as [BLk BRk]. clear HB.
  rewrite (split_join n c' _ _ Hn Hc' Bc' HLk HRk BLk BRk
             (sim_trans _ _ _ _ D1 S0) D2).
  exact Hinvol.
Qed.

End Tiny.

(** [decipher] inverts [encipher] on messages of 1 to 31 bytes, the ones
    aez-tiny handles: under one initialised state and one delta, the
    ciphertext has the length of the message and consists of bytes, and
    deciphering it gives the message back, in both cases over the first
    [len(data)] bytes of the output buffer. *)
Theorem decipher_encipher_tiny `{Hashlib} (key : bytes) (st : _AEZState.t)
    (delta m dst dst' : bytes) :
  _AEZState.init _AEZState.__init__ key = Ok st ->
  16 <= len delta -> 1 <= len m <= 31 -> bytes_ok m = true ->
  len m <= len dst -> len m <= len dst' ->
  exists c,
    len c = len m /\ bytes_ok c = true /\
    _AEZState.encipher st delta m dst = Ok (c ++ skipn (length m) dst) /\
    _AEZState.decipher st delta c dst' = Ok (m ++ skipn (length m) dst').
Proof.
  intros Hst Hd Hn Hb Hdst Hdst'.
  pose proof (init_wf key st Hst) as Hwf.
  destruct (wf_a st Hwf) as (a & Ha & Hwa).
  assert (Haes : _AEZState.the_aes st = Ok a)
    by (unfold _AEZState.the_aes; now rewrite Ha).
  destruct (tiny_inverse st a delta Hwf Hwa Hd m Hn Hb) as (Hc & Bc & Hinv).
  exists (tiny_enc st a delta m). split; [exact Hc|]. split; [exact Bc|].
  unfold _AEZState.encipher, _AEZState.decipher. rewrite Hc.
  destruct (Z.eqb_spec (len m) 0); [lia|].
  destruct (Z.ltb_spec (len m) 32); [|lia].
  split.
  - rewrite (tiny_closed st a delta Hwf Hwa Hd Haes m 0 dst) by auto.
    reflexivity.
  - rewrite (tiny_closed st a delta Hwf Hwa Hd Haes _ 1 dst')
      by (rewrite Hc; auto).
    change (1 =? 0) with false. cbv iota. rewrite Hinv.
    replace (length (tiny_enc st a delta m)) with (length m)
      by (unfold len in Hc; lia).
    reflexivity.
Qed.

Lemma decipher_encipher_tiny_example :
  exists c,
    len c = len [104; 101; 108; 108; 111] /\ bytes_ok c = true /\
    _AEZState.encipher example_state (map Z.of_nat (seq 1 16))
      [104; 101; 108; 108; 111] (repeat 0 5)
    = Ok (c ++ skipn (length [104; 101; 108; 108; 111]) (repeat 0 5)) /\
    _AEZState.decipher example_state (map Z.of_nat (seq 1 16)) c (repeat 0 5)
    = Ok ([104; 101; 108; 108; 111]
          ++ skipn (length [104; 101; 108; 108; 111]) (repeat 0 5)).
Proof.
  apply (decipher_encipher_tiny (H := null_hashlib) example_key example_state);
    vm_compute; try split; congruence.
Defined.

(** [encipher] inverts [decipher] on ciphertexts of 1 to 31 bytes: the
    deciphered message has the length of the ciphertext and consists of
    bytes, and enciphering it gives the ciphertext back.  With
    [decipher_encipher_tiny], aez-tiny permutes the byte strings of each
    length from 1 to 31. *)
Theorem encipher_decipher_tiny `{Hashlib} (key : bytes) (st : _AEZState.t)
    (delta c dst dst' : bytes) :
  _AEZState.init _AEZState.__init__ key = Ok st ->
  16 <= len delta -> 1 <= len c <= 31 -> bytes_ok c = true ->
  len c <= len dst -> len c <= len dst' ->
  exists m,
    len m = len c /\ bytes_ok m = true /\
    _AEZState.decipher st delta c dst = Ok (m ++ skipn (length c) dst) /\
    _AEZState.encipher st delta m dst' = Ok (c ++ skipn (length c) dst').
Proof.
  intros Hst Hd Hn Hb Hdst Hdst'.
  pose proof (init_wf key st Hst) as Hwf.
  destruct (wf_a st Hwf) as (a & Ha & Hwa).
  assert (Haes : _AEZState.the_aes st = Ok a)
    by (unfold _AEZState.the_aes; now rewrite Ha).
  destruct (tiny_inverse_r st a delta Hwf Hwa Hd c Hn Hb) as (Hm & Bm & Hinv).
  exists (tiny_dec st a delta c). split; [exact Hm|]. split; [exact Bm|].
  unfold _AEZState.encipher, _AEZState.decipher. rewrite Hm.
  destruct (Z.eqb_spec (len c) 0); [lia|].
  destruct (Z.ltb_spec (len c) 32); [|lia].
  split.
  - rewrite (tiny_closed st a delta Hwf Hwa Hd Haes c 1 dst) by auto.
    reflexivity.
  - rewrite (tiny_closed st a delta Hwf Hwa Hd Haes _ 0 dst')
      by (rewrite Hm; auto).
    change (0 =? 0) with true. cbv iota. rewrite Hinv.
    replace (length (tiny_dec st a delta c)) with (length c)
      by (unfold len in Hm; lia).
    reflexivity.
Qed.

Lemma encipher_decipher_tiny_example :
  exists m,
    len m = len (map Z.of_nat (seq 200 17)) /\ bytes_ok m = true /\
    _AEZState.decipher example_state (map Z.of_nat (seq 1 16))
      (map Z.of_nat (seq 200 17)) (repeat 0 17)
    = Ok (m ++ skipn (length (map Z.of_nat (seq 200 17))) (repeat 0 17)) /\
    _AEZState.encipher example_state (map Z.of_nat (seq 1 16)) m (repeat 0 17)
    = Ok (map Z.of_nat (seq 200 17)
          ++ skipn (length (map Z.of_nat (seq 200 17))) (repeat 0 17)).
Proof.
  apply (encipher_decipher_tiny (H := null_hashlib) example_key example_state);
    vm_compute; try split; congruence.
Defined.
